(** * Coqui Sing: recording state machine, pitch detector and spectral metrics

    A shallow embedding of
    - [store/slices/audioSlice.ts]   (the recording state machine),
    - [utils/audio/pitchDetection.ts] (autocorrelation pitch detector),
    - [utils/audio/fftAnalysis.ts]   ([getVolume]),
    - [utils/audio/frequency.ts]     (note mapping),
    - [utils/audio/audioMetrics.ts]  (the per-tick sensitivity filter).

    Conventions.
    - A JavaScript [number] holding a measured quantity is a real number
      ([R]); rounding of IEEE doubles and of [Float32Array] stores is not
      modelled.  Where JavaScript would produce [NaN] or [undefined] and the
      code's control flow depends on it, the case is written out
      (comparisons with [undefined] or [NaN] are false).
    - Array indices, lags, octaves and millisecond clocks are integers ([Z]).
    - [Date.now()] is an input of the function that reads it.
    - The module-level [smoothingBuffer] is threaded through explicitly.
    - The constants of [utils/audio/constants.ts] are kept abstract: they are
      the fields of the class [AudioConstants], and every statement holds for
      all values that meet its hypotheses. *)

From Stdlib Require Import ZArith String Ascii List Bool Lia.
From Stdlib Require Import Reals Lra.
From Stdlib Require Import DecimalString.
From Stdlib Require DecimalZ DecimalPos.
Import ListNotations.

Set Implicit Arguments.
Set Contextual Implicit.

(* ===================================================================== *)
(** * Part I: definitions                                                 *)
(* ===================================================================== *)

(** ** types/audio.types.ts *)

Inductive AudioState : Set :=
| Idle | Initializing | Recording | Analyzing | Paused | Error.

Definition AudioState_eqb (a b : AudioState) : bool :=
  match a, b with
  | Idle, Idle | Initializing, Initializing | Recording, Recording
  | Analyzing, Analyzing | Paused, Paused | Error, Error => true
  | _, _ => false
  end.

(** The string literal behind each status, as template strings print it. *)
Definition AudioState_toString (s : AudioState) : string :=
  match s with
  | Idle => "idle" | Initializing => "initializing" | Recording => "recording"
  | Analyzing => "analyzing" | Paused => "paused" | Error => "error"
  end%string.

Record AudioSettings : Set := {
  sampleRate : Z;
  bufferSize : Z;
  fftSize : Z;
  channelCount : Z;
  echoCancellation : bool;
  noiseSuppression : bool;
  autoGainControl : bool
}.

(** [Partial<AudioSettings>]: every key optional. *)
Record PartialAudioSettings : Set := {
  p_sampleRate : option Z;
  p_bufferSize : option Z;
  p_fftSize : option Z;
  p_channelCount : option Z;
  p_echoCancellation : option bool;
  p_noiseSuppression : option bool;
  p_autoGainControl : option bool
}.

(** The browser's [MediaDeviceInfo]. *)
Record MediaDeviceInfo : Set := {
  deviceId : string;
  kind : string;
  label : string;
  groupId : string
}.

Section AudioSliceDefs.

(** Payloads the reducers only store: the recorded [Blob], the
    [VocalAnalysis] result and the per-tick [AudioMetrics]. *)
Variables Blob VocalAnalysis AudioMetrics : Type.

Record RecordingSession : Type := {
  id : string;
  startTime : Z;
  duration : Z;
  audioBlob : option Blob;
  analysis : option VocalAnalysis
}.

(** ** store/slices/audioSlice.ts *)

Record DeviceState : Type := {
  available : list MediaDeviceInfo;
  selected : option string
}.

Record AudioSliceState : Type := {
  status : AudioState;
  isRecording : bool;
  isPaused : bool;
  currentSession : option RecordingSession;
  audioSettings : AudioSettings;
  currentMetrics : option AudioMetrics;
  error : option string;
  devices : DeviceState
}.

(** Functional updates of single fields (Immer drafts in the source). *)
Definition set_status (v : AudioState) (s : AudioSliceState) :=
  {| status := v; isRecording := isRecording s; isPaused := isPaused s;
     currentSession := currentSession s; audioSettings := audioSettings s;
     currentMetrics := currentMetrics s; error := error s;
     devices := devices s |}.
Definition set_isRecording (v : bool) (s : AudioSliceState) :=
  {| status := status s; isRecording := v; isPaused := isPaused s;
     currentSession := currentSession s; audioSettings := audioSettings s;
     currentMetrics := currentMetrics s; error := error s;
     devices := devices s |}.
Definition set_isPaused (v : bool) (s : AudioSliceState) :=
  {| status := status s; isRecording := isRecording s; isPaused := v;
     currentSession := currentSession s; audioSettings := audioSettings s;
     currentMetrics := currentMetrics s; error := error s;
     devices := devices s |}.
Definition set_currentSession (v : option RecordingSession)
           (s : AudioSliceState) :=
  {| status := status s; isRecording := isRecording s;
     isPaused := isPaused s;
     currentSession := v; audioSettings := audioSettings s;
     currentMetrics := currentMetrics s; error := error s;
     devices := devices s |}.
Definition set_audioSettings (v : AudioSettings) (s : AudioSliceState) :=
  {| status := status s; isRecording := isRecording s;
     isPaused := isPaused s;
     currentSession := currentSession s; audioSettings := v;
     currentMetrics := currentMetrics s; error := error s;
     devices := devices s |}.
Definition set_currentMetrics (v : option AudioMetrics)
           (s : AudioSliceState) :=
  {| status := status s; isRecording := isRecording s;
     isPaused := isPaused s;
     currentSession := currentSession s; audioSettings := audioSettings s;
     currentMetrics := v; error := error s;
     devices := devices s |}.
Definition set_error (v : option string) (s : AudioSliceState) :=
  {| status := status s; isRecording := isRecording s;
     isPaused := isPaused s;
     currentSession := currentSession s; audioSettings := audioSettings s;
     currentMetrics := currentMetrics s; error := v;
     devices := devices s |}.
Definition set_devices (v : DeviceState) (s : AudioSliceState) :=
  {| status := status s; isRecording := isRecording s;
     isPaused := isPaused s;
     currentSession := currentSession s; audioSettings := audioSettings s;
     currentMetrics := currentMetrics s; error := error s;
     devices := v |}.

Definition set_duration (v : Z) (r : RecordingSession) :=
  {| id := id r; startTime := startTime r; duration := v;
     audioBlob := audioBlob r; analysis := analysis r |}.
Definition set_audioBlob (v : option Blob) (r : RecordingSession) :=
  {| id := id r; startTime := startTime r; duration := duration r;
     audioBlob := v; analysis := analysis r |}.
Definition set_analysis (v : option VocalAnalysis) (r : RecordingSession) :=
  {| id := id r; startTime := startTime r; duration := duration r;
     audioBlob := audioBlob r; analysis := v |}.

(** State transition validation helpers. *)
Definition canInitialize (st : AudioState) : bool :=
  AudioState_eqb st Idle || AudioState_eqb st Error.

Definition canStartRecording (st : AudioState) : bool :=
  AudioState_eqb st Idle.

Definition canPauseRecording (st : AudioState) : bool :=
  AudioState_eqb st Recording.

Definition canResumeRecording (st : AudioState) : bool :=
  AudioState_eqb st Paused.

Definition canStopRecording (st : AudioState) : bool :=
  AudioState_eqb st Recording || AudioState_eqb st Paused.

Definition canAnalyze (st : AudioState) : bool :=
  AudioState_eqb st Recording || AudioState_eqb st Paused.

(** [DEFAULT_AUDIO_SETTINGS] of [utils/constants.ts]. *)
Definition defaultAudioSettings : AudioSettings :=
  {| sampleRate := 44100; bufferSize := 4096; fftSize := 2048;
     channelCount := 1; echoCancellation := true;
     noiseSuppression := true; autoGainControl := true |}.

Definition initialState : AudioSliceState :=
  {| status := Idle; isRecording := false; isPaused := false;
     currentSession := None; audioSettings := defaultAudioSettings;
     currentMetrics := None; error := None;
     devices := {| available := []; selected := None |} |}.

(** [payload || fallback] on a [string | undefined]: the empty string is
    falsy as well. *)
Definition or_default (payload : option string) (fallback : string)
  : string :=
  match payload with
  | Some EmptyString | None => fallback
  | Some m => m
  end.

(** [!x] on a [string | null]. *)
Definition falsy (x : option string) : bool :=
  match x with
  | Some EmptyString | None => true
  | Some _ => false
  end.

(** *** Initialization actions *)

Definition initialize (state : AudioSliceState) : AudioSliceState :=
  if negb (canInitialize (status state)) then state
  else set_error None (set_status Initializing state).

Definition initializeSuccess (state : AudioSliceState) : AudioSliceState :=
  if negb (AudioState_eqb (status state) Initializing) then state
  else set_error None (set_status Idle state).

Definition initializeError (state : AudioSliceState) (payload : string)
  : AudioSliceState :=
  if negb (AudioState_eqb (status state) Initializing) then state
  else set_error (Some payload) (set_status Error state).

(** *** Recording control actions *)

Definition startRecording (state : AudioSliceState) (sessionId : string)
           (now : Z) : AudioSliceState :=
  if negb (canStartRecording (status state)) then
    set_error
      (Some ("Cannot start recording: current state is "
               ++ AudioState_toString (status state))%string) state
  else if isRecording state then
    set_error (Some "Already recording"%string) state
  else
    set_error None
      (set_currentSession
         (Some {| id := sessionId; startTime := now; duration := 0;
                  audioBlob := None; analysis := None |})
         (set_isPaused false
            (set_isRecording true (set_status Recording state)))).

Definition pauseRecording (state : AudioSliceState) : AudioSliceState :=
  if negb (canPauseRecording (status state)) then
    set_error
      (Some ("Cannot pause: current state is "
               ++ AudioState_toString (status state))%string) state
  else if negb (isRecording state) then
    set_error (Some "Not currently recording"%string) state
  else if isPaused state then
    set_error (Some "Already paused"%string) state
  else set_isPaused true (set_status Paused state).

Definition resumeRecording (state : AudioSliceState) : AudioSliceState :=
  if negb (canResumeRecording (status state)) then
    set_error
      (Some ("Cannot resume: current state is "
               ++ AudioState_toString (status state))%string) state
  else if negb (isPaused state) then
    set_error (Some "Not currently paused"%string) state
  else set_isPaused false (set_status Recording state).

Definition stopRecording (state : AudioSliceState) (duration' : Z)
           (audioBlob' : option Blob) : AudioSliceState :=
  if negb (canStopRecording (status state)) then
    set_error
      (Some ("Cannot stop recording: current state is "
               ++ AudioState_toString (status state))%string) state
  else if negb (isRecording state) then
    set_error (Some "Not currently recording"%string) state
  else
    let state := set_isPaused false
                   (set_isRecording false (set_status Analyzing state)) in
    match currentSession state with
    | Some session =>
        set_currentSession
          (Some (set_audioBlob audioBlob' (set_duration duration' session)))
          state
    | None => state
    end.

(** *** Metrics and analysis actions *)

Definition updateMetrics (state : AudioSliceState) (payload : AudioMetrics)
  : AudioSliceState :=
  if negb (AudioState_eqb (status state) Recording)
     && negb (AudioState_eqb (status state) Paused) then state
  else set_currentMetrics (Some payload) state.

Definition updateSessionDuration (state : AudioSliceState) (payload : Z)
  : AudioSliceState :=
  match currentSession state with
  | None => state
  | Some session =>
      if negb (AudioState_eqb (status state) Recording)
         && negb (AudioState_eqb (status state) Paused) then state
      else set_currentSession (Some (set_duration payload session)) state
  end.

Definition setAnalysis (state : AudioSliceState)
           (payload : option VocalAnalysis) : AudioSliceState :=
  if negb (AudioState_eqb (status state) Analyzing) then state
  else
    match currentSession state with
    | None => set_status Idle state
    | Some session =>
        set_status Idle
          (set_currentSession (Some (set_analysis payload session)) state)
    end.

Definition startAnalysis (state : AudioSliceState) : AudioSliceState :=
  if negb (canAnalyze (status state)) then
    set_error
      (Some ("Cannot analyze: current state is "
               ++ AudioState_toString (status state))%string) state
  else
    match currentSession state with
    | None => set_error (Some "No active recording session"%string) state
    | Some _ =>
        set_isPaused false
          (set_isRecording false (set_status Analyzing state))
    end.

(** *** Device management actions *)

Definition setDevices (state : AudioSliceState)
           (payload : list MediaDeviceInfo) : AudioSliceState :=
  let sel :=
    match payload with
    | d :: _ => if falsy (selected (devices state)) then Some (deviceId d)
                else selected (devices state)
    | [] => selected (devices state)
    end in
  set_devices {| available := payload; selected := sel |} state.

Definition selectDevice (state : AudioSliceState) (payload : string)
  : AudioSliceState :=
  set_devices {| available := available (devices state);
                 selected := Some payload |} state.

(** *** Settings management *)

Definition override {A : Type} (o : option A) (d : A) : A :=
  match o with Some v => v | None => d end.

Definition updateSettings (state : AudioSliceState)
           (payload : PartialAudioSettings) : AudioSliceState :=
  let a := audioSettings state in
  set_audioSettings
    {| sampleRate := override (p_sampleRate payload) (sampleRate a);
       bufferSize := override (p_bufferSize payload) (bufferSize a);
       fftSize := override (p_fftSize payload) (fftSize a);
       channelCount := override (p_channelCount payload) (channelCount a);
       echoCancellation :=
         override (p_echoCancellation payload) (echoCancellation a);
       noiseSuppression :=
         override (p_noiseSuppression payload) (noiseSuppression a);
       autoGainControl :=
         override (p_autoGainControl payload) (autoGainControl a) |}
    state.

Definition resetSettings (state : AudioSliceState) : AudioSliceState :=
  set_audioSettings defaultAudioSettings state.

(** *** Error and reset actions *)

Definition setError (state : AudioSliceState) (payload : string)
  : AudioSliceState :=
  set_isPaused false
    (set_isRecording false
       (set_error (Some payload) (set_status Error state))).

Definition clearError (state : AudioSliceState) : AudioSliceState :=
  let state := set_error None state in
  if AudioState_eqb (status state) Error then set_status Idle state
  else state.

Definition reset (state : AudioSliceState) : AudioSliceState :=
  set_error None
    (set_currentMetrics None
       (set_currentSession None
          (set_isPaused false
             (set_isRecording false (set_status Idle state))))).

Definition resetSession (state : AudioSliceState) : AudioSliceState :=
  set_status Idle
    (set_isPaused false
       (set_isRecording false
          (set_currentMetrics None (set_currentSession None state)))).

(** *** extraReducers: the three async thunks *)

Definition initializeAudio_pending (state : AudioSliceState) :=
  if negb (canInitialize (status state)) then state
  else set_error None (set_status Initializing state).

Definition initializeAudio_fulfilled (state : AudioSliceState) :=
  if negb (AudioState_eqb (status state) Initializing) then state
  else set_error None (set_status Idle state).

Definition initializeAudio_rejected (state : AudioSliceState)
           (payload : option string) :=
  if negb (AudioState_eqb (status state) Initializing) then state
  else set_error (Some (or_default payload "Failed to initialize audio"))
                 (set_status Error state).

Definition fetchAudioDevices_pending (state : AudioSliceState) := state.

Definition fetchAudioDevices_fulfilled (state : AudioSliceState)
           (payload : list MediaDeviceInfo) :=
  setDevices state payload.

Definition fetchAudioDevices_rejected (state : AudioSliceState)
           (payload : option string) := state.

Definition analyzeRecording_pending (state : AudioSliceState) := state.

Definition analyzeRecording_fulfilled (state : AudioSliceState)
           (payload : option VocalAnalysis) :=
  if negb (AudioState_eqb (status state) Analyzing) then state
  else
    match currentSession state with
    | None => set_status Idle state
    | Some session =>
        set_status Idle
          (set_currentSession (Some (set_analysis payload session)) state)
    end.

Definition analyzeRecording_rejected (state : AudioSliceState)
           (payload : option string) :=
  if negb (AudioState_eqb (status state) Analyzing) then state
  else set_error (Some (or_default payload "Failed to analyze recording"))
                 (set_status Error state).

(** *** Actions and the slice reducer *)

Inductive Action : Type :=
| A_initialize
| A_initializeSuccess
| A_initializeError (payload : string)
| A_startRecording (sessionId : string) (now : Z)
| A_pauseRecording
| A_resumeRecording
| A_stopRecording (duration' : Z) (audioBlob' : option Blob)
| A_updateMetrics (payload : AudioMetrics)
| A_updateSessionDuration (payload : Z)
| A_setAnalysis (payload : option VocalAnalysis)
| A_startAnalysis
| A_setDevices (payload : list MediaDeviceInfo)
| A_selectDevice (payload : string)
| A_updateSettings (payload : PartialAudioSettings)
| A_resetSettings
| A_setError (payload : string)
| A_clearError
| A_reset
| A_resetSession
| A_initializeAudio_pending
| A_initializeAudio_fulfilled
| A_initializeAudio_rejected (payload : option string)
| A_fetchAudioDevices_pending
| A_fetchAudioDevices_fulfilled (payload : list MediaDeviceInfo)
| A_fetchAudioDevices_rejected (payload : option string)
| A_analyzeRecording_pending
| A_analyzeRecording_fulfilled (payload : option VocalAnalysis)
| A_analyzeRecording_rejected (payload : option string).

Definition reducer (state : AudioSliceState) (a : Action)
  : AudioSliceState :=
  match a with
  | A_initialize => initialize state
  | A_initializeSuccess => initializeSuccess state
  | A_initializeError m => initializeError state m
  | A_startRecording sid now => startRecording state sid now
  | A_pauseRecording => pauseRecording state
  | A_resumeRecording => resumeRecording state
  | A_stopRecording d b => stopRecording state d b
  | A_updateMetrics m => updateMetrics state m
  | A_updateSessionDuration d => updateSessionDuration state d
  | A_setAnalysis r => setAnalysis state r
  | A_startAnalysis => startAnalysis state
  | A_setDevices ds => setDevices state ds
  | A_selectDevice d => selectDevice state d
  | A_updateSettings p => updateSettings state p
  | A_resetSettings => resetSettings state
  | A_setError m => setError state m
  | A_clearError => clearError state
  | A_reset => reset state
  | A_resetSession => resetSession state
  | A_initializeAudio_pending => initializeAudio_pending state
  | A_initializeAudio_fulfilled => initializeAudio_fulfilled state
  | A_initializeAudio_rejected m => initializeAudio_rejected state m
  | A_fetchAudioDevices_pending => fetchAudioDevices_pending state
  | A_fetchAudioDevices_fulfilled ds => fetchAudioDevices_fulfilled state ds
  | A_fetchAudioDevices_rejected m => fetchAudioDevices_rejected state m
  | A_analyzeRecording_pending => analyzeRecording_pending state
  | A_analyzeRecording_fulfilled r => analyzeRecording_fulfilled state r
  | A_analyzeRecording_rejected m => analyzeRecording_rejected state m
  end.

(** Dispatching a list of actions, oldest first. *)
Definition dispatchAll (state : AudioSliceState) (l : list Action)
  : AudioSliceState :=
  fold_left reducer l state.

(** The states the store can be in: the initial state and whatever the
    reducer makes of a reachable state. *)
Inductive reachable : AudioSliceState -> Prop :=
| reachable_init : reachable initialState
| reachable_step s a : reachable s -> reachable (reducer s a).

(** The ten actions the user interface dispatches directly. *)
Definition userTriggered (a : Action) : bool :=
  match a with
  | A_initialize | A_initializeSuccess | A_initializeError _
  | A_startRecording _ _ | A_pauseRecording | A_resumeRecording
  | A_stopRecording _ _ | A_updateMetrics _ | A_setAnalysis _
  | A_clearError => true
  | _ => false
  end.

(** The condition under which each of them takes effect: the [can...]
    helper on the status together with the flag checks that follow it in
    the reducer. *)
Definition guard (a : Action) (state : AudioSliceState) : bool :=
  match a with
  | A_initialize => canInitialize (status state)
  | A_initializeSuccess | A_initializeError _ =>
      AudioState_eqb (status state) Initializing
  | A_startRecording _ _ =>
      canStartRecording (status state) && negb (isRecording state)
  | A_pauseRecording =>
      canPauseRecording (status state) && isRecording state
      && negb (isPaused state)
  | A_resumeRecording =>
      canResumeRecording (status state) && isPaused state
  | A_stopRecording _ _ =>
      canStopRecording (status state) && isRecording state
  | A_updateMetrics _ =>
      AudioState_eqb (status state) Recording
      || AudioState_eqb (status state) Paused
  | A_setAnalysis _ => AudioState_eqb (status state) Analyzing
  | A_clearError => AudioState_eqb (status state) Error
  | _ => true
  end.

(** A session is live in these three statuses. *)
Definition sessionStatus (st : AudioState) : bool :=
  match st with
  | Recording | Paused | Analyzing => true
  | _ => false
  end.

Definition hasSession (state : AudioSliceState) : bool :=
  match currentSession state with Some _ => true | None => false end.

End AudioSliceDefs.

(** A run of the machine on a concrete store: payloads are unit values. *)
Definition demoStart : Action unit unit unit := A_startRecording "s1" 1000.
Definition demoRecording : AudioSliceState unit unit unit :=
  dispatchAll initialState [demoStart].
Definition demoAnalyzing : AudioSliceState unit unit unit :=
  dispatchAll demoRecording [A_pauseRecording; A_resumeRecording;
                             A_stopRecording 5000 (Some tt)].
Definition demoDone : AudioSliceState unit unit unit :=
  dispatchAll demoAnalyzing [A_setAnalysis (Some tt)].

(** ** JavaScript numbers and typed arrays *)

Local Open Scope R_scope.

Definition Rltb (x y : R) : bool := if Rlt_dec x y then true else false.
Definition Rleb (x y : R) : bool := if Rle_dec x y then true else false.
Definition Reqb (x y : R) : bool := if Req_dec_T x y then true else false.

(** A value read from an array, or the result of a division that may be
    [0/0]: [None] stands for [undefined] or [NaN].  Every ordering
    comparison with such a value is false. *)
Definition ltJS (x y : option R) : bool :=
  match x, y with
  | Some a, Some b => Rltb a b
  | _, _ => false
  end.

Definition gtJS (x y : option R) : bool := ltJS y x.

(** [a[i]] on a typed array. *)
Definition get (a : list R) (i : Z) : option R :=
  if (i <? 0)%Z then None else nth_error a (Z.to_nat i).

Definition Math_floor (x : R) : Z := Zfloor x.
Definition Math_round (x : R) : Z := Zfloor (x + / 2).
(** [Math.log2] and [Math.log10], for a positive argument.  At zero and
    below the source gets [-Infinity] or [NaN]; the statements that go
    through a logarithm carry the hypothesis that its argument is
    positive. *)
Definition Math_log2 (x : R) : R := Rlog 2 x.
Definition Math_log10 (x : R) : R := Rlog 10 x.
Definition Math_sqrt (x : R) : R := sqrt x.

(** A call that either returns or raises the [RangeError] of
    [new Float32Array(n)] with a negative [n]. *)
Inductive Completion (A : Type) : Type :=
| Return (a : A)
| RangeError.

(** [new Float32Array(n)]: [n] zeros. *)
Definition new_Float32Array (n : Z) : Completion (list R) :=
  if (n <? 0)%Z then RangeError else Return (repeat 0 (Z.to_nat n)).

(** [String(n)] for an integer. *)
Definition Z_toString (n : Z) : string :=
  NilZero.string_of_int (Z.to_int n).

(** A property of an object literal used as a map; a repeated key keeps its
    last value. *)
Fixpoint prop (o : list (string * R)) (k : string) : option R :=
  match o with
  | [] => None
  | (k', v) :: rest =>
      match prop rest k with
      | Some w => Some w
      | None => if String.eqb k' k then Some v else None
      end
  end.

(** ** utils/audio/constants.ts *)

(** The tunable constants of [utils/audio/constants.ts], kept abstract. *)
Class AudioConstants : Type := {
  MIN_FREQUENCY : R;
  MAX_FREQUENCY : R;
  MIN_CONFIDENCE_THRESHOLD : R;
  PITCH_SMOOTHING_BUFFER_SIZE : Z;
  NOTE_NAMES : list string;
  NOTE_FREQUENCIES : list (string * R)
}.

(** Modelled from the spec: [A4_FREQUENCY] of [utils/audio/constants.ts];
    the semitone offset is taken "from a 440 Hz reference". *)
Definition A4_FREQUENCY : R := 440.

(** Modelled from the spec: [SEMITONES_PER_OCTAVE] of
    [utils/audio/constants.ts]; the offset is "12 * log2(freq/440)". *)
Definition SEMITONES_PER_OCTAVE : Z := 12.

(** Modelled from the spec: [CENTS_PER_OCTAVE] of
    [utils/audio/constants.ts]; cents between two frequencies are
    "1200 * log2(f2/f1)". *)
Definition CENTS_PER_OCTAVE : Z := 1200.

(** ** utils/audio/frequency.ts *)

Record NoteData : Type := {
  note : string;
  cents : Z;
  frequency : R;
  octave : Z
}.

Section FrequencyDefs.
Context {K : AudioConstants}.

Definition noteToFrequency (note : string) : option R :=
  prop NOTE_FREQUENCIES note.

Definition semitonesFromA4 (frequency : R) : R :=
  IZR SEMITONES_PER_OCTAVE * Math_log2 (frequency / A4_FREQUENCY).

Definition nearestSemitone (frequency : R) : Z :=
  Math_round (semitonesFromA4 frequency).

(** The second half of [frequencyToNote]: the name and the octave of the
    note [nearestSemitone] semitones above A4. *)
Definition noteOfSemitone (nearestSemitone : Z) : string * Z :=
  let a4Index := 9%Z in
  let a4Octave := 4%Z in
  let noteIndex := Z.rem (a4Index + nearestSemitone) SEMITONES_PER_OCTAVE in
  let normalizedNoteIndex :=
    if (0 <=? noteIndex)%Z then noteIndex
    else (noteIndex + SEMITONES_PER_OCTAVE)%Z in
  let octaveOffset :=
    ((a4Index + nearestSemitone) / SEMITONES_PER_OCTAVE)%Z in
  let octave := (a4Octave + octaveOffset)%Z in
  let noteName :=
    nth (Z.to_nat normalizedNoteIndex) NOTE_NAMES "undefined"%string in
  ((noteName ++ Z_toString octave)%string, octave).

Definition frequencyToNote (frequency : R) : NoteData :=
  let semitones := semitonesFromA4 frequency in
  let nearest := Math_round semitones in
  let cents := Math_round ((semitones - IZR nearest) * 100) in
  let '(note, octave) := noteOfSemitone nearest in
  {| note := note; cents := cents; frequency := frequency;
     octave := octave |}.

Definition centsBetweenFrequencies (frequency1 frequency2 : R) : Z :=
  Math_round (IZR CENTS_PER_OCTAVE * Math_log2 (frequency2 / frequency1)).

End FrequencyDefs.

(** ** utils/audio/pitchDetection.ts *)

Record PitchData : Type := {
  noteData : NoteData;
  confidence : R;
  timestamp : Z
}.

(** Rolling buffer for pitch smoothing. *)
Record PitchSmoothingBuffer : Type := {
  buffer : list R;
  maxSize : Z
}.

Definition add (b : PitchSmoothingBuffer) (frequency : R)
  : PitchSmoothingBuffer :=
  let pushed := buffer b ++ [frequency] in
  if (Z.of_nat (length pushed) >? maxSize b)%Z
  then {| buffer := tl pushed; maxSize := maxSize b |}
  else {| buffer := pushed; maxSize := maxSize b |}.

Definition getSmoothed (b : PitchSmoothingBuffer) : R :=
  match buffer b with
  | [] => 0
  | _ => fold_left (fun acc val => acc + val) (buffer b) 0
         / INR (length (buffer b))
  end.

Definition clear (b : PitchSmoothingBuffer) : PitchSmoothingBuffer :=
  {| buffer := []; maxSize := maxSize b |}.

Record Peak : Type := {
  index : Z;
  peakConfidence : R
}.

Section PitchDetectionDefs.
Context {K : AudioConstants}.

(** [new PitchSmoothingBuffer()]: the module's global instance. *)
Definition smoothingBuffer : PitchSmoothingBuffer :=
  {| buffer := []; maxSize := PITCH_SMOOTHING_BUFFER_SIZE |}.

Definition normalizeBuffer (buffer : list R) : list R :=
  let max :=
    fold_left (fun max x => if Rltb max (Rabs x) then Rabs x else max)
              buffer 0 in
  if Rltb 0 max then map (fun x => x / max) buffer
  else repeat 0 (length buffer).

(** The inner loop of [autocorrelate]: [i] runs over [0 <= i < size - lag]. *)
Definition lagSum (buffer : list R) (lag : nat) : R :=
  fold_left
    (fun sum i => sum + nth i buffer 0 * nth (i + lag) buffer 0)
    (seq 0 (length buffer - lag)) 0.

Definition autocorrelate (buffer : list R) (sampleRate : R)
  : Completion (list R) :=
  let maxSamples := Math_floor (sampleRate / MIN_FREQUENCY) in
  match new_Float32Array maxSamples with
  | RangeError => RangeError
  | Return _ =>
      Return (map (lagSum buffer) (seq 0 (Z.to_nat maxSamples)))
  end.

(** First loop of [findPeak]: the first [i] of the [n] lags from [i] on
    with a negative value, [zeroCrossing] when there is none. *)
Fixpoint zeroCrossingLoop (autocorrelation : list R) (i : Z) (n : nat)
         (zeroCrossing : Z) : Z :=
  match n with
  | O => zeroCrossing
  | S n' =>
      if ltJS (get autocorrelation i) (Some 0) then i
      else zeroCrossingLoop autocorrelation (i + 1) n' zeroCrossing
  end.

(** A strict local maximum at lag [i]. *)
Definition isLocalMax (autocorrelation : list R) (i : Z) : bool :=
  gtJS (get autocorrelation i) (get autocorrelation (i - 1))
  && gtJS (get autocorrelation i) (get autocorrelation (i + 1)).

(** [x > peakValue] where [peakValue] starts as [-Infinity] ([None]). *)
Definition exceeds (x : option R) (peakValue : option R) : bool :=
  match x, peakValue with
  | Some _, None => true
  | Some a, Some b => Rltb b a
  | None, _ => false
  end.

(** Second loop of [findPeak], over the [n] lags from [i] on. *)
Fixpoint peakLoop (autocorrelation : list R) (i : Z) (n : nat)
         (peakIndex : Z) (peakValue : option R) : Z * option R :=
  match n with
  | O => (peakIndex, peakValue)
  | S n' =>
      if isLocalMax autocorrelation i
         && exceeds (get autocorrelation i) peakValue
      then peakLoop autocorrelation (i + 1) n' i (get autocorrelation i)
      else peakLoop autocorrelation (i + 1) n' peakIndex peakValue
  end.

Definition minSamples (sampleRate : R) : Z :=
  Math_floor (sampleRate / MAX_FREQUENCY).
Definition maxSamples (sampleRate : R) : Z :=
  Math_floor (sampleRate / MIN_FREQUENCY).

Definition zeroCrossing (autocorrelation : list R) (sampleRate : R) : Z :=
  zeroCrossingLoop autocorrelation (minSamples sampleRate)
    (Z.to_nat (maxSamples sampleRate - minSamples sampleRate))
    (minSamples sampleRate).

Definition findPeak (autocorrelation : list R) (sampleRate : R)
  : option Peak :=
  let zc := zeroCrossing autocorrelation sampleRate in
  let '(peakIndex, peakValue) :=
    peakLoop autocorrelation zc
             (Z.to_nat (maxSamples sampleRate - 1 - zc)) (-1)%Z None in
  if (peakIndex =? -1)%Z then None
  else
    let confidence :=
      match get autocorrelation 0, peakValue with
      | Some maxAutocorrelation, Some v =>
          if Rltb 0 maxAutocorrelation then v / maxAutocorrelation else 0
      | _, _ => 0
      end in
    Some {| index := peakIndex; peakConfidence := confidence |}.

Definition parabolicInterpolation (autocorrelation : list R)
           (peakIndex : Z) : R :=
  if ((peakIndex <=? 0)
      || (Z.of_nat (length autocorrelation) - 1 <=? peakIndex))%Z
  then IZR peakIndex
  else
    let y0 := nth (Z.to_nat (peakIndex - 1)) autocorrelation 0 in
    let y1 := nth (Z.to_nat peakIndex) autocorrelation 0 in
    let y2 := nth (Z.to_nat (peakIndex + 1)) autocorrelation 0 in
    let delta := (5 / 10) * (y0 - y2) / (y0 - 2 * y1 + y2) in
    IZR peakIndex + delta.

Definition sumSquares (buffer : list R) : R :=
  fold_left (fun sumSquares x => sumSquares + x * x) buffer 0.

(** [Math.sqrt(sumSquares / buffer.length)]; [0/0] is [NaN]. *)
Definition rms (buffer : list R) : option R :=
  match buffer with
  | [] => None
  | _ => Some (Math_sqrt (sumSquares buffer / INR (length buffer)))
  end.

Definition when (enableSmoothing : bool)
           (f : PitchSmoothingBuffer -> PitchSmoothingBuffer)
           (sb : PitchSmoothingBuffer) : PitchSmoothingBuffer :=
  if enableSmoothing then f sb else sb.

(** [detectPitch]: the result (or the exception) and the smoothing buffer
    it leaves behind. *)
Definition detectPitch (buffer : list R) (sampleRate : R)
           (enableSmoothing : bool) (now : Z) (sb : PitchSmoothingBuffer)
  : Completion (option PitchData) * PitchSmoothingBuffer :=
  if ltJS (rms buffer) (Some (1 / 100)) then
    (Return None, when enableSmoothing clear sb)
  else
    let normalized := normalizeBuffer buffer in
    match autocorrelate normalized sampleRate with
    | RangeError => (RangeError, sb)
    | Return autocorrelation =>
        match findPeak autocorrelation sampleRate with
        | None => (Return None, when enableSmoothing clear sb)
        | Some peak =>
            if Rltb (peakConfidence peak) MIN_CONFIDENCE_THRESHOLD then
              (Return None, when enableSmoothing clear sb)
            else
              let interpolatedIndex :=
                parabolicInterpolation autocorrelation (index peak) in
              let raw := sampleRate / interpolatedIndex in
              let sb := when enableSmoothing (fun b => add b raw) sb in
              let frequency :=
                if enableSmoothing then getSmoothed sb else raw in
              if Rltb frequency MIN_FREQUENCY
                 || Rltb MAX_FREQUENCY frequency then
                (Return None, when enableSmoothing clear sb)
              else
                (Return
                   (Some {| noteData := frequencyToNote frequency;
                            confidence := Rmin (peakConfidence peak) 1;
                            timestamp := now |}),
                 sb)
        end
    end.

Definition clearPitchSmoothing (sb : PitchSmoothingBuffer)
  : PitchSmoothingBuffer := clear sb.

Inductive Sensitivity : Set := low | medium | high.

Definition thresholds (sensitivity : Sensitivity) : R :=
  match sensitivity with
  | low => 85 / 100
  | medium => 7 / 10
  | high => 5 / 10
  end.

Definition detectPitchWithSensitivity (buffer : list R) (sampleRate : R)
           (sensitivity : Sensitivity) (now : Z)
           (sb : PitchSmoothingBuffer)
  : Completion (option PitchData) * PitchSmoothingBuffer :=
  match detectPitch buffer sampleRate true now sb with
  | (RangeError, sb') => (RangeError, sb')
  | (Return None, sb') => (Return None, sb')
  | (Return (Some result), sb') =>
      if Rltb (confidence result) (thresholds sensitivity)
      then (Return None, sb')
      else (Return (Some result), sb')
  end.

(** ** utils/audio/audioMetrics.ts *)

(** The pitch part of [calculateMetrics]: [detectPitch] on the tick's
    time-domain data, then the sensitivity filter.  The surrounding
    [try]/[catch] turns an exception into [null]. *)
Definition filteredPitchData (timeDomainData : list R) (sampleRate : R)
           (sensitivity : Sensitivity) (now : Z)
           (sb : PitchSmoothingBuffer)
  : option PitchData * PitchSmoothingBuffer :=
  match detectPitch timeDomainData sampleRate true now sb with
  | (Return (Some pitchData), sb') =>
      if Rleb (thresholds sensitivity) (confidence pitchData)
      then (Some pitchData, sb') else (None, sb')
  | (_, sb') => (None, sb')
  end.

End PitchDetectionDefs.

(** ** utils/audio/fftAnalysis.ts *)

(** [getVolume] on a [Uint8Array]. *)
Definition byteValue (b : Byte.byte) : R := IZR (Z.of_N (Byte.to_N b)).

Definition getVolume (buffer : list Byte.byte) : R :=
  let '(sumSquares, count) :=
    fold_left
      (fun '(sumSquares, count) b =>
         let normalized := byteValue b / 255 in
         (sumSquares + normalized * normalized, S count))
      buffer (0, O) in
  match count with
  | O => -100
  | _ =>
      let rms := Math_sqrt (sumSquares / INR count) in
      if Reqb rms 0 then -100
      else
        let db := 20 * Math_log10 rms in
        Rmax (-100) (Rmin 0 db)
  end.


(** ** Notions the properties are stated with *)

(** The value at lag [i] is negative. *)
Definition negativeAt (a : list R) (i : Z) : Prop :=
  exists v, get a i = Some v /\ v < 0.

(** Lag [i] carries a strict local maximum: both neighbours exist and are
    smaller. *)
Definition localMax (a : list R) (i : Z) : Prop :=
  exists x y z,
    get a (i - 1) = Some x /\ get a i = Some y /\ get a (i + 1) = Some z
    /\ x < y /\ z < y.

(** No local maximum of the lags [lo <= j < hi] exceeds [v]. *)
Definition noLater (a : list R) (v : option R) (lo hi : Z) : Prop :=
  forall j, (lo <= j < hi)%Z -> isLocalMax a j = true ->
            exceeds (get a j) v = false.

(** A status of [Recording], [Paused] or [Analyzing] comes with a
    session. *)
Definition sessionInv {Blob VocalAnalysis AudioMetrics : Type}
           (s : AudioSliceState Blob VocalAnalysis AudioMetrics) : Prop :=
  sessionStatus (status s) = true -> hasSession s = true.

(** Arithmetic mean of a list of frequencies. *)
Definition mean (l : list R) : R :=
  fold_right Rplus 0 l / INR (length l).

(** The last [n] entries of a list. *)
Definition lastN (n : nat) (l : list R) : list R :=
  skipn (length l - n) l.

(** A window is silent when it is all zeros or its RMS is below [0.01]. *)
Definition allZero (buffer : list R) : Prop := Forall (fun x => x = 0) buffer.

(** Within one semitone: the ratio of the two frequencies is at most
    [2^(1/12)]. *)
Definition semitone : R := Rpower 2 (/ 12).
Definition withinOneSemitone (f g : R) : Prop :=
  f / semitone <= g <= f * semitone.

Section DetectPitchNotions.
Context {K : AudioConstants}.

(** The detection passed the silence gate and the confidence gate with
    autocorrelation [ac] and peak [pk]. *)
Definition accepted (window : list R) (sampleRate : R) (ac : list R)
           (pk : Peak) : Prop :=
  ltJS (rms window) (Some (1 / 100)) = false
  /\ autocorrelate (normalizeBuffer window) sampleRate = Return ac
  /\ findPeak ac sampleRate = Some pk
  /\ MIN_CONFIDENCE_THRESHOLD <= peakConfidence pk.

(** The frequency of the peak before smoothing. *)
Definition rawFrequency (sampleRate : R) (ac : list R) (pk : Peak) : R :=
  sampleRate / parabolicInterpolation ac (index pk).

Definition inBand (f : R) : Prop := MIN_FREQUENCY <= f <= MAX_FREQUENCY.

(** The note table has an entry for every semitone the band can round to,
    positive and within half a semitone of the equal-tempered pitch. *)
Definition tableCovers : Prop :=
  forall n : Z,
    (nearestSemitone MIN_FREQUENCY <= n <= nearestSemitone MAX_FREQUENCY)%Z ->
    exists t,
      noteToFrequency (fst (noteOfSemitone n)) = Some t
      /\ 0 < t
      /\ Rabs (semitonesFromA4 t - IZR n) <= 1 / 2.

End DetectPitchNotions.

(** ** A concrete configuration and a concrete window *)

(** Modelled from the spec: [NOTE_NAMES] of [utils/audio/constants.ts], a
    file that is not among the sources.  The chromatic scale from C, with A
    at index 9 as [frequencyToNote] needs it ("frequencyToNote(440)" is
    "A4"), spelled with sharps as in the examples of the source ("C#5"). *)
Definition chromatic : list string :=
  ["C"; "C#"; "D"; "D#"; "E"; "F"; "F#"; "G"; "G#"; "A"; "A#"; "B"]%string.

(** The note table of the spectrogram component
    ([components/audio/AdvancedAudioVisualizer.tsx], C2 to C6), in
    hundredths of a hertz. *)
Definition visualizerNotes : list (string * Z) :=
  [("C2", 6541); ("C#2", 6930); ("D2", 7342); ("D#2", 7778);
   ("E2", 8241); ("F2", 8731); ("F#2", 9250); ("G2", 9800);
   ("G#2", 10383); ("A2", 11000); ("A#2", 11654); ("B2", 12347);
   ("C3", 13081); ("C#3", 13859); ("D3", 14683); ("D#3", 15556);
   ("E3", 16481); ("F3", 17461); ("F#3", 18500); ("G3", 19600);
   ("G#3", 20765); ("A3", 22000); ("A#3", 23308); ("B3", 24694);
   ("C4", 26163); ("C#4", 27718); ("D4", 29366); ("D#4", 31113);
   ("E4", 32963); ("F4", 34923); ("F#4", 36999); ("G4", 39200);
   ("G#4", 41530); ("A4", 44000); ("A#4", 46616); ("B4", 49388);
   ("C5", 52325); ("C#5", 55437); ("D5", 58733); ("D#5", 62225);
   ("E5", 65925); ("F5", 69846); ("F#5", 73999); ("G5", 78399);
   ("G#5", 83061); ("A5", 88000); ("A#5", 93233); ("B5", 98777);
   ("C6", 104650)]%string%Z.

Definition centiHz (p : Z) : R := IZR p / 100.

(** A configuration with the band and buffer size the design document
    names as examples (80 to 1050 Hz, five entries), a confidence floor of
    one half, and the note table above. *)
#[local] Instance demoConstants : AudioConstants := {|
  MIN_FREQUENCY := 80;
  MAX_FREQUENCY := 1050;
  MIN_CONFIDENCE_THRESHOLD := 5 / 10;
  PITCH_SMOOTHING_BUFFER_SIZE := 5;
  NOTE_NAMES := chromatic;
  NOTE_FREQUENCIES := map (fun e => (fst e, centiHz (snd e))) visualizerNotes
|}.

(** Eight samples of a square wave of period two, read at 400 Hz. *)
Definition squareWave : list R := [1; -1; 1; -1; 1; -1; 1; -1].

(** Its autocorrelation at the lags 0 to 4. *)
Definition squareWaveAutocorrelation : list R := [8; -7; 6; -5; 4].

(** The peak [findPeak] picks there, the frequency it stands for, and the
    smoothing buffer after that frame alone. *)
Definition squareWavePeak : Peak := {| index := 2; peakConfidence := 6 / 8 |}.
Definition squareWaveFrequency : R := 9600 / 49.
Definition afterSquareWave : PitchSmoothingBuffer :=
  {| buffer := [squareWaveFrequency]; maxSize := 5 |}.

(** A buffer holding one earlier frame of 200 Hz. *)
Definition afterOneFrame : PitchSmoothingBuffer :=
  {| buffer := [200]; maxSize := 5 |}.

(** Three samples of the same wave: the peak at lag 2 reaches a third of
    the energy only. *)
Definition shortWave : list R := [1; -1; 1].
Definition shortWaveAutocorrelation : list R := [3; -2; 1; 0; 0].
Definition shortWavePeak : Peak := {| index := 2; peakConfidence := 1 / 3 |}.

(** Root mean square of the bins of a magnitude buffer, each scaled to
    [[0,1]]. *)
Definition normalizedRms (buffer : list Byte.byte) : R :=
  sqrt (fold_right (fun b s => (byteValue b / 255) * (byteValue b / 255) + s)
                   0 buffer
        / INR (length buffer)).

Definition fullScale (buffer : list Byte.byte) : Prop :=
  Forall (fun b => b = Byte.xff) buffer.

Definition allSilent (buffer : list Byte.byte) : Prop :=
  Forall (fun b => b = Byte.x00) buffer.

(** ** Checking a table of hundredths of a hertz with integers *)

Fixpoint propZ (o : list (string * Z)) (k : string) : option Z :=
  match o with
  | [] => None
  | (k', v) :: rest =>
      match propZ rest k with
      | Some w => Some w
      | None => if String.eqb k' k then Some v else None
      end
  end.

(** [p/q] lies in the half-open semitone window around the [n]-th semitone:
    [2^(2n-1) <= (p/q)^24 < 2^(2n+1)], cleared of denominators. *)
Definition inSemitoneWindow (p q n : Z) : bool :=
  ((0 <? p) && (0 <? q) && (0 <=? 2 * n + 63)
   && (2 ^ (2 * n + 63) * q ^ 24 <=? 2 ^ 64 * p ^ 24)
   && (2 ^ 64 * p ^ 24 <? 2 ^ (2 * n + 65) * q ^ 24))%Z.

(** The entry of the [n]-th semitone above A4 exists and is in its
    window. *)
Definition entryInWindow {K : AudioConstants} (table : list (string * Z))
           (n : Z) : bool :=
  match propZ table (fst (noteOfSemitone n)) with
  | Some p => inSemitoneWindow p 44000 n
  | None => false
  end.

(** The semitones from [lo] on, [count] of them. *)
Definition semitoneRange (lo : Z) (count : nat) : list Z :=
  map (fun i => (lo + Z.of_nat i)%Z) (seq 0 count).


(* ===================================================================== *)
(** * Part I, continued: the rest of the audio utilities                  *)
(* ===================================================================== *)

(** ** utils/audio/fftAnalysis.ts, the other functions *)

(** [sampleRate / (frequencies.length * 2)]. *)
Definition binWidthOf (frequencies : list R) (sampleRate : R) : R :=
  sampleRate / (INR (length frequencies) * 2).

(** The loop of [getSpectralCentroid] from bin [i] on. *)
Fixpoint centroidLoop (frequencies : list R) (i : nat) (binWidth : R)
         (weightedSum magnitudeSum : R) : R * R :=
  match frequencies with
  | [] => (weightedSum, magnitudeSum)
  | magnitude :: rest =>
      let frequency := INR i * binWidth in
      centroidLoop rest (S i) binWidth
                   (weightedSum + frequency * magnitude)
                   (magnitudeSum + magnitude)
  end.

(** [getSpectralCentroid].  On the empty array the bin width is not a
    number, and is not used: the sum of magnitudes is zero. *)
Definition getSpectralCentroid (frequencies : list R) (sampleRate : R) : Z :=
  let binWidth := binWidthOf frequencies sampleRate in
  let '(weightedSum, magnitudeSum) :=
    centroidLoop frequencies 0 binWidth 0 0 in
  if Reqb magnitudeSum 0 then 0%Z
  else
    let centroid := weightedSum / magnitudeSum in
    Math_round centroid.

(** The test of the loop of [getClarity] on two neighbouring samples. *)
Definition crosses (previous current : R) : bool :=
  (Rleb 0 previous && Rltb current 0) || (Rltb previous 0 && Rleb 0 current).

Fixpoint zeroCrossingsFrom (previous : R) (rest : list R)
         (zeroCrossings : nat) : nat :=
  match rest with
  | [] => zeroCrossings
  | current :: rest' =>
      zeroCrossingsFrom current rest'
        (if crosses previous current then S zeroCrossings
         else zeroCrossings)
  end.

Definition getClarity (buffer : list R) : R :=
  match buffer with
  | [] | [_] => 0
  | first :: rest =>
      let zeroCrossings := zeroCrossingsFrom first rest 0 in
      let zcr := INR zeroCrossings / INR (length buffer) in
      let maxExpectedZcr := 5 / 10 in
      let clarity := 1 - Rmin (zcr / maxExpectedZcr) 1 in
      clarity
  end.

(** [getSpectralFlux].  For two empty spectra the normalisation divides
    zero by zero: the result is [NaN] ([None]). *)
Definition getSpectralFlux (currentSpectrum previousSpectrum : list R)
  : option R :=
  if negb (length currentSpectrum =? length previousSpectrum)%nat
  then Some 0
  else
    let flux :=
      fold_left
        (fun flux cp =>
           let diff := fst cp - snd cp in
           if Rltb 0 diff then flux + diff * diff else flux)
        (combine currentSpectrum previousSpectrum) 0 in
    match currentSpectrum with
    | [] => None
    | _ =>
        let normalizedFlux :=
          Math_sqrt (flux / INR (length currentSpectrum)) in
        Some (Rmin normalizedFlux 1)
    end.

(** The search loop of [getSpectralRolloff] from bin [i] on: the first bin
    at which the cumulative energy reaches the target. *)
Fixpoint rolloffLoop (frequencies : list R) (i : nat)
         (cumulativeEnergy targetEnergy : R) : option nat :=
  match frequencies with
  | [] => None
  | energy :: rest =>
      let cumulativeEnergy := cumulativeEnergy + energy in
      if Rleb targetEnergy cumulativeEnergy then Some i
      else rolloffLoop rest (S i) cumulativeEnergy targetEnergy
  end.

(** [getSpectralRolloff].  On the empty array the result is
    [Math.round(-1 * sampleRate / 0)], not a finite number ([None]). *)
Definition getSpectralRolloff (frequencies : list R) (sampleRate : R)
           (threshold : R) : option Z :=
  let totalEnergy := fold_left (fun total x => total + x) frequencies 0 in
  let targetEnergy := totalEnergy * threshold in
  let binWidth := binWidthOf frequencies sampleRate in
  match frequencies with
  | [] => None
  | _ =>
      match rolloffLoop frequencies 0 0 targetEnergy with
      | Some i => Some (Math_round (INR i * binWidth))
      | None =>
          Some (Math_round ((INR (length frequencies) - 1) * binWidth))
      end
  end.

(** The search loop of [getFundamentalFrequency] from bin [i] on. *)
Fixpoint fundamentalLoop (frequencies : list R) (i : nat)
         (maxMagnitude : R) (maxIndex : nat) : R * nat :=
  match frequencies with
  | [] => (maxMagnitude, maxIndex)
  | magnitude :: rest =>
      if Rltb maxMagnitude magnitude
      then fundamentalLoop rest (S i) magnitude i
      else fundamentalLoop rest (S i) maxMagnitude maxIndex
  end.

Definition getFundamentalFrequency (frequencies : list R) (sampleRate : R)
  : Z :=
  let '(maxMagnitude, maxIndex) := fundamentalLoop frequencies 0 0 0 in
  if Reqb maxMagnitude 0 then 0%Z
  else
    let binWidth := binWidthOf frequencies sampleRate in
    Math_round (INR maxIndex * binWidth).

Definition getVoiceProbability (frequencies timeData : list R) : R :=
  let centroid := getSpectralCentroid frequencies 44100 in
  let clarity := getClarity timeData in
  let centroidScore :=
    if ((500 <=? centroid) && (centroid <=? 3000))%Z then 1 else 5 / 10 in
  let clarityScore :=
    if Rleb (3 / 10) clarity && Rleb clarity (8 / 10) then 1 else 5 / 10 in
  let voiceProbability := (centroidScore + clarityScore) / 2 in
  voiceProbability.

(** ** utils/audio/audioMetrics.ts, the other functions *)

Definition normalizeVolume (volumeDb : R) : R :=
  let normalized := (volumeDb + 100) / 100 in
  Rmax 0 (Rmin 1 normalized).

Inductive VolumeCategory : Set := silent | quiet | normal | loud.

Definition getVolumeCategory (volumeDb : R) : VolumeCategory :=
  if Rltb volumeDb (-60) then silent
  else if Rltb volumeDb (-30) then quiet
  else if Rltb volumeDb (-10) then normal
  else loud.

Inductive ClarityCategory : Set :=
| clarityPoor | clarityFair | clarityGood | clarityExcellent.

Definition getClarityCategory (clarity : R) : ClarityCategory :=
  if Rltb clarity (3 / 10) then clarityPoor
  else if Rltb clarity (5 / 10) then clarityFair
  else if Rltb clarity (7 / 10) then clarityGood
  else clarityExcellent.

Inductive PitchAccuracyCategory : Set := perfect | good | fair | poor.

Definition getPitchAccuracyCategory (cents : R) : PitchAccuracyCategory :=
  let absCents := Rabs cents in
  if Rleb absCents 5 then perfect
  else if Rleb absCents 15 then good
  else if Rleb absCents 30 then fair
  else poor.

(** [ExtendedAudioMetrics]; the record has fields named like those of
    [PitchData], hence the module. *)
Module Extended.
Record t : Type := {
  pitch : option PitchData;
  volumeDb : R;
  clarity : R;
  spectralCentroid : Z;
  hasVoice : bool;
  timestamp : Z
}.
End Extended.

(** [AudioMetrics] of [types/audio.types.ts], as [toAudioMetrics] builds
    it. *)
Module Metrics.
Record t : Type := {
  pitch : PitchData;
  volume : R;
  clarity : R;
  vibratoRate : R;
  vibratoDepth : R;
  formants : list R
}.
End Metrics.

Section AudioMetricsDefs.
Context {K : AudioConstants}.

(** [processAudioData] of [workers/audioProcessor.worker.ts], and
    [calculateMetrics] once the analyser node has filled the three arrays:
    the two bodies are the same.  [now] is the clock [detectPitch] reads,
    [now'] the one read for the record.  The [try]/[catch] turns the
    exception of [detectPitch] into [null]. *)
Definition processAudioData (timeDomainData frequencyData : list R)
           (byteFrequencyData : list Byte.byte) (sampleRate : R)
           (sensitivity : Sensitivity) (now now' : Z)
           (sb : PitchSmoothingBuffer)
  : option Extended.t * PitchSmoothingBuffer :=
  match detectPitch timeDomainData sampleRate true now sb with
  | (RangeError, sb') => (None, sb')
  | (Return pitchData, sb') =>
      let filteredPitchData :=
        match pitchData with
        | Some p =>
            if Rleb (thresholds sensitivity) (confidence p) then Some p
            else None
        | None => None
        end in
      let volumeDb := getVolume byteFrequencyData in
      let clarity := getClarity timeDomainData in
      let spectralCentroid := getSpectralCentroid frequencyData sampleRate in
      let hasVoice := Rltb (-50) volumeDb && Rltb (2 / 10) clarity in
      (Some {| Extended.pitch := filteredPitchData;
               Extended.volumeDb := volumeDb;
               Extended.clarity := clarity;
               Extended.spectralCentroid := spectralCentroid;
               Extended.hasVoice := hasVoice;
               Extended.timestamp := now' |},
       sb')
  end.

End AudioMetricsDefs.

Definition toAudioMetrics (metrics : Extended.t) : option Metrics.t :=
  match Extended.pitch metrics with
  | None => None
  | Some p =>
      Some {| Metrics.pitch := p;
              Metrics.volume := normalizeVolume (Extended.volumeDb metrics);
              Metrics.clarity := Extended.clarity metrics;
              Metrics.vibratoRate := 0;
              Metrics.vibratoDepth := 0;
              Metrics.formants := [] |}
  end.

(** ** Notions for the properties of the slice *)

Section AudioSliceNotions.
Variables Blob VocalAnalysis AudioMetrics : Type.

(** The flags say what the status says: recording goes on in [Recording]
    and [Paused], and is paused in [Paused]. *)
Definition flagsAgree (s : AudioSliceState Blob VocalAnalysis AudioMetrics)
  : Prop :=
  isRecording s = canStopRecording (status s)
  /\ isPaused s = canResumeRecording (status s).

(** The actions on devices and settings. *)
Definition isConfigAction (a : Action Blob VocalAnalysis AudioMetrics)
  : bool :=
  match a with
  | A_setDevices _ | A_selectDevice _ | A_updateSettings _
  | A_resetSettings | A_fetchAudioDevices_pending
  | A_fetchAudioDevices_fulfilled _ | A_fetchAudioDevices_rejected _ => true
  | _ => false
  end.

(** The actions that can put the machine into [Error], with the status
    each needs. *)
Definition errorEntry (a : Action Blob VocalAnalysis AudioMetrics)
           (st : AudioState) : bool :=
  match a with
  | A_setError _ => true
  | A_initializeError _ | A_initializeAudio_rejected _ =>
      AudioState_eqb st Initializing
  | A_analyzeRecording_rejected _ => AudioState_eqb st Analyzing
  | _ => false
  end.

Definition isStartRecording (a : Action Blob VocalAnalysis AudioMetrics)
  : bool :=
  match a with A_startRecording _ _ => true | _ => false end.

(** The actions that write each field of a live session, with the status
    each needs. *)
Definition writesDuration (a : Action Blob VocalAnalysis AudioMetrics)
           (st : AudioState) : bool :=
  match a with
  | A_stopRecording _ _ | A_updateSessionDuration _ => canStopRecording st
  | _ => false
  end.

Definition writesAudioBlob (a : Action Blob VocalAnalysis AudioMetrics)
           (st : AudioState) : bool :=
  match a with
  | A_stopRecording _ _ => canStopRecording st
  | _ => false
  end.

Definition writesAnalysis (a : Action Blob VocalAnalysis AudioMetrics)
           (st : AudioState) : bool :=
  match a with
  | A_setAnalysis _ | A_analyzeRecording_fulfilled _ =>
      AudioState_eqb st Analyzing
  | _ => false
  end.

End AudioSliceNotions.

(** [{...p, ...q}] on two partial settings: the keys of [q] win. *)
Definition later {A : Type} (p q : option A) : option A :=
  match q with Some v => Some v | None => p end.

Definition mergePartial (p q : PartialAudioSettings) : PartialAudioSettings :=
  {| p_sampleRate := later (p_sampleRate p) (p_sampleRate q);
     p_bufferSize := later (p_bufferSize p) (p_bufferSize q);
     p_fftSize := later (p_fftSize p) (p_fftSize q);
     p_channelCount := later (p_channelCount p) (p_channelCount q);
     p_echoCancellation :=
       later (p_echoCancellation p) (p_echoCancellation q);
     p_noiseSuppression :=
       later (p_noiseSuppression p) (p_noiseSuppression q);
     p_autoGainControl := later (p_autoGainControl p) (p_autoGainControl q) |}.

Definition noChange : PartialAudioSettings :=
  {| p_sampleRate := None; p_bufferSize := None; p_fftSize := None;
     p_channelCount := None; p_echoCancellation := None;
     p_noiseSuppression := None; p_autoGainControl := None |}.

(** Two devices and a patch of the settings, for the examples. *)
Definition builtInMic : MediaDeviceInfo :=
  {| deviceId := "default"; kind := "audioinput";
     label := "Built-in microphone"; groupId := "g1" |}%string.
Definition usbMic : MediaDeviceInfo :=
  {| deviceId := "usb-1"; kind := "audioinput";
     label := "USB microphone"; groupId := "g2" |}%string.
Definition demoPatch : PartialAudioSettings :=
  {| p_sampleRate := Some 48000%Z; p_bufferSize := None; p_fftSize := None;
     p_channelCount := None; p_echoCancellation := Some false;
     p_noiseSuppression := None; p_autoGainControl := None |}.
Definition demoError : AudioSliceState unit unit unit :=
  dispatchAll demoAnalyzing [A_analyzeRecording_rejected (Some "timeout"%string)].

(** The session of [demoAnalyzing] and of [demoDone]. *)
Definition demoStopped : RecordingSession unit unit :=
  {| id := "s1"; startTime := 1000; duration := 5000;
     audioBlob := Some tt; analysis := None |}.
Definition demoAnalysed : RecordingSession unit unit :=
  {| id := "s1"; startTime := 1000; duration := 5000;
     audioBlob := Some tt; analysis := Some tt |}.

(** ** Notions for the properties of the detector *)

(** The energy of a window: the sum of the squares of its samples. *)
Definition energy (buffer : list R) : R :=
  fold_right (fun x s => x * x + s) 0 buffer.

(** The largest absolute value of a window (zero for the empty one). *)
Definition peakAbs (buffer : list R) : R :=
  fold_right (fun x m => Rmax (Rabs x) m) 0 buffer.

(** ** utils/audio/frequency.ts, the other functions *)

(** [Math.pow(x, y)] for a positive base. *)
Definition Math_pow (x y : R) : R := Rpower x y.

(** [s.includes(c)] for a single character [c]. *)
Definition includes (s : string) (c : ascii) : bool :=
  existsb (Ascii.eqb c) (list_ascii_of_string s).

(** [Object.entries] of an object literal whose keys are names (not array
    indices): every key once, in the order of its first appearance, with the
    value it ends up with. *)
Definition Object_entries (o : list (string * R)) : list (string * R) :=
  flat_map (fun k => match prop o k with
                     | Some v => [(k, v)]
                     | None => []
                     end)
           (rev (nodup string_dec (rev (map fst o)))).

Section FrequencyMoreDefs.
Context {K : AudioConstants}.

Definition isInTune (frequency : R) (targetNote : string)
           (toleranceCents : R) : bool :=
  match noteToFrequency targetNote with
  | None => false
  | Some targetFreq =>
      let cents := Z.abs (centsBetweenFrequencies targetFreq frequency) in
      Rleb (IZR cents) toleranceCents
  end.

Definition getNotesInRange (minFreq maxFreq : R) : list string :=
  filter (fun note => negb (includes note "b"))
         (map fst
              (filter (fun e => Rleb minFreq (snd e) && Rleb (snd e) maxFreq)
                      (Object_entries NOTE_FREQUENCIES))).

End FrequencyMoreDefs.

Definition frequencyWithCentsOffset (frequency cents : R) : R :=
  frequency * Math_pow 2 (cents / IZR CENTS_PER_OCTAVE).

(** The equal-tempered pitch [n] semitones above A4. *)
Definition equalTempered (n : Z) : R :=
  A4_FREQUENCY * Rpower 2 (IZR n / 12).

(** ** Notions for the properties of the spectrum functions *)

(** Every sample crosses zero against the one before it. *)
Fixpoint alternatesFrom (previous : R) (rest : list R) : Prop :=
  match rest with
  | [] => True
  | current :: rest' =>
      crosses previous current = true /\ alternatesFrom current rest'
  end.

(** The energy of the first [k] bins, summed in the order of the loops. *)
Definition cumulative (frequencies : list R) (k : nat) : R :=
  fold_left (fun total x => total + x) (firstn k frequencies) 0.

(** ** A window for the sensitivity filter *)

(** Thirteen samples of a square wave of period two, read at 400 Hz; its
    autocorrelation at the lags 0 to 4, the peak [findPeak] picks there and
    the frequency it stands for. *)
Definition longWave : list R :=
  [1; -1; 1; -1; 1; -1; 1; -1; 1; -1; 1; -1; 1].
Definition longWaveAutocorrelation : list R := [13; -12; 11; -10; 9].
Definition longWavePeak : Peak :=
  {| index := 2; peakConfidence := 11 / 13 |}.
Definition longWaveFrequency : R := 17600 / 89.

(** ** The note table, from the words of the specification *)

(** [x] to the hundredth. *)
Definition toHundredths (x : R) : R := IZR (Math_round (x * 100)) / 100.

(** The chromatic scale spelled with flats. *)
Definition chromaticFlats : list string :=
  ["C"; "Db"; "D"; "Eb"; "E"; "F"; "Gb"; "G"; "Ab"; "A"; "Bb"; "B"]%string.

(** The key of the note with the [i]-th name of the chromatic scale in
    octave [o], as [frequencyToNote] builds it, the same note spelled with
    a flat, and its distance from A4 in semitones. *)
Definition noteKey (i : nat) (o : Z) : string :=
  (nth i chromatic "undefined" ++ Z_toString o)%string.
Definition flatKey (i : nat) (o : Z) : string :=
  (nth i chromaticFlats "undefined" ++ Z_toString o)%string.
Definition noteSemitone (i : nat) (o : Z) : Z :=
  (12 * (o - 4) + Z.of_nat i - 9)%Z.

(** Modelled from the spec: [NOTE_FREQUENCIES] of
    [utils/audio/constants.ts], a file that is not among the sources.  The
    specification calls [noteToFrequency] a "table lookup" within a
    "frequency<->note-name conversion in equal-temperament tuning" from "a
    440 Hz reference"; the examples in the source give the entries to the
    hundredth of a hertz ("A4" is 440, "C4" is 261.63) and name notes with
    sharps and with flats ("C#5", "Bb3"), the flats being duplicates that
    [getNotesInRange] filters out.  The table here holds, for [octaves]
    octaves from octave [lo] on and for each of the twelve notes, the
    equal-tempered frequency of the note to the hundredth, under the name
    of [chromatic] (the names [frequencyToNote] builds, A at index 9) and
    under the name of [chromaticFlats]. *)
Definition equalTemperedTable (lo : Z) (octaves : nat)
  : list (string * R) :=
  flat_map
    (fun o =>
       map (fun i => (noteKey i o,
                      toHundredths (equalTempered (noteSemitone i o))))
           (seq 0 12)
       ++ map (fun i => (flatKey i o,
                         toHundredths (equalTempered (noteSemitone i o))))
              (seq 0 12))
    (map (fun k => (lo + Z.of_nat k)%Z) (seq 0 octaves)).

(** The band the specification gives as an example ("roughly 80-1050 Hz")
    with the table of the octaves 0 to 8. *)
Definition modelConstants : AudioConstants := {|
  MIN_FREQUENCY := 80;
  MAX_FREQUENCY := 1050;
  MIN_CONFIDENCE_THRESHOLD := 5 / 10;
  PITCH_SMOOTHING_BUFFER_SIZE := 5;
  NOTE_NAMES := chromatic;
  NOTE_FREQUENCIES := equalTemperedTable 0 9
|}.

(* ===================================================================== *)
(** * Part II: properties                                                 *)
(* ===================================================================== *)

Unset Implicit Arguments.
Unset Contextual Implicit.

(** ** The recording state machine *)

Lemma AudioState_eqb_eq (a b : AudioState) :
  AudioState_eqb a b = true <-> a = b.
Proof. destruct a, b; simpl; split; congruence. Qed.

Lemma AudioState_eqb_refl (a : AudioState) : AudioState_eqb a a = true.
Proof. now destruct a. Qed.

Section AudioSliceTheory.
Variables Blob VocalAnalysis AudioMetrics : Type.

Local Notation "'State'" :=
  (AudioSliceState Blob VocalAnalysis AudioMetrics).
Local Notation "'Act'" := (Action Blob VocalAnalysis AudioMetrics).

(** Case analysis on everything a reducer branches on. *)
Ltac slice_cases s :=
  destruct s as [st rec pau cs aset cm err dev];
  destruct st, rec, pau, cs; simpl in *.

(** A rejected user action changes neither the status nor the session. *)
Lemma rejected_frame (a : Act) (s : State) :
  userTriggered a = true -> guard a s = false ->
  status (reducer s a) = status s
  /\ currentSession (reducer s a) = currentSession s.
Proof.
  intros Hu Hg.
  destruct a; simpl in Hu; try discriminate Hu;
    slice_cases s; try discriminate Hg; split; reflexivity.
Qed.

Lemma sessionInv_init : sessionInv (initialState : State).
Proof. intro H; discriminate H. Qed.

Lemma sessionInv_step (s : State) (a : Act) :
  sessionInv s -> sessionInv (reducer s a).
Proof.
  unfold sessionInv, hasSession.
  destruct a; slice_cases s; intros H H'; try reflexivity;
    try discriminate H'; try (apply H; reflexivity);
    try (destruct payload; simpl in *; try reflexivity;
         try discriminate H'; apply H; reflexivity).
Qed.

Lemma reachable_dispatchAll (s : State) (l : list Act) :
  reachable s -> reachable (dispatchAll s l).
Proof.
  revert s; induction l as [|a l IH]; intros s Hs; simpl.
  - exact Hs.
  - apply IH. now constructor.
Qed.

(** C1.  A user-triggered action ([initialize], [initializeSuccess],
    [initializeError], [startRecording], [pauseRecording],
    [resumeRecording], [stopRecording], [updateMetrics], [setAnalysis],
    [clearError]) dispatched in a state that does not satisfy its guard
    leaves [status] and [currentSession] as they were, and so never moves
    the machine to [Error].  In particular [pauseRecording] in [Idle]
    keeps the status [Idle] and creates no session, and [startRecording]
    in [Recording] keeps the session there is. *)
Theorem rejected_action_is_noop :
  (forall (a : Act) (s : State),
      userTriggered a = true -> guard a s = false ->
      status (reducer s a) = status s
      /\ currentSession (reducer s a) = currentSession s
      /\ (status (reducer s a) = Error -> status s = Error))
  /\ (forall s : State,
         status s = Idle ->
         status (pauseRecording s) = Idle
         /\ currentSession (pauseRecording s) = currentSession s)
  /\ (forall (s : State) (sessionId : string) (now : Z),
         status s = Recording ->
         status (startRecording s sessionId now) = Recording
         /\ currentSession (startRecording s sessionId now)
            = currentSession s).
Proof.
  split; [|split].
  - intros a s Hu Hg.
    destruct (rejected_frame a s Hu Hg) as [Hst Hcs].
    repeat split; trivial. now rewrite Hst.
  - intros s Hs.
    destruct (rejected_frame A_pauseRecording s eq_refl) as [Hst Hcs].
    + simpl. now rewrite Hs.
    + simpl in Hst, Hcs. rewrite Hst. auto.
  - intros s sid now Hs.
    destruct (rejected_frame (A_startRecording sid now) s eq_refl)
      as [Hst Hcs].
    + simpl. now rewrite Hs.
    + simpl in Hst, Hcs. rewrite Hst. auto.
Qed.

(** C2, as amended.  In every state reachable from the initial state, a
    status of [Recording], [Paused] or [Analyzing] comes with a session.
    (The converse fails: the finished session stays in [currentSession]
    after the analysis has ended.) *)
Theorem live_status_has_session (s : State) :
  reachable s -> sessionStatus (status s) = true -> hasSession s = true.
Proof.
  intro H. change (sessionInv s).
  induction H as [|s a _ IH].
  - apply sessionInv_init.
  - apply sessionInv_step. exact IH.
Qed.

(** C8.  [analyzeRecording.rejected] arriving in [Analyzing] sets the
    status to [Error], records the failure message (the payload, or the
    fixed text when there is none) in [error], and leaves
    [currentSession], with the duration and the blob [stopRecording]
    stamped on it, as it was. *)
Theorem analysis_failure_keeps_session (s : State)
        (payload : option string) :
  status s = Analyzing ->
  status (analyzeRecording_rejected s payload) = Error
  /\ error (analyzeRecording_rejected s payload)
     = Some (or_default payload "Failed to analyze recording")
  /\ currentSession (analyzeRecording_rejected s payload)
     = currentSession s.
Proof.
  intro Hs. unfold analyzeRecording_rejected. rewrite Hs. simpl.
  repeat split.
Qed.

(** What [stopRecording] stamps on the session survives a failed
    analysis. *)
Lemma stop_then_failure (s : State) (c : RecordingSession Blob VocalAnalysis)
      (d : Z) (b : option Blob) (m : option string) :
  guard (A_stopRecording d b) s = true ->
  currentSession s = Some c ->
  let s' := analyzeRecording_rejected (stopRecording s d b) m in
  status s' = Error
  /\ currentSession s' = Some (set_audioBlob b (set_duration d c)).
Proof.
  intros Hg Hc. slice_cases s; try discriminate Hg; try discriminate Hc;
    injection Hc as ->; split; reflexivity.
Qed.

End AudioSliceTheory.

Lemma rejected_action_is_noop_witness :
  (status (pauseRecording (@initialState unit unit unit)) = Idle
   /\ currentSession (pauseRecording (@initialState unit unit unit)) = None)
  /\ (status (startRecording demoRecording "s2" 2000) = Recording
      /\ option_map (@id _ _) (currentSession
                                 (startRecording demoRecording "s2" 2000))
         = Some "s1"%string)
  /\ status (reducer demoRecording (A_setAnalysis None)) = Recording.
Proof.
  pose proof (rejected_action_is_noop unit unit unit)
    as [Hgen [Hpause Hstart]].
  split; [|split].
  - apply (Hpause initialState). reflexivity.
  - destruct (Hstart demoRecording "s2"%string 2000%Z eq_refl) as [H1 H2].
    split; [exact H1|]. rewrite H2. reflexivity.
  - destruct (Hgen (A_setAnalysis None) demoRecording eq_refl eq_refl)
      as [H _].
    exact H.
Defined.

(** C2 as stated fails: after [startRecording], [stopRecording] and
    [setAnalysis] the status is [Idle] and the analysed session is still
    the [currentSession]. *)
Lemma session_outlives_analysis :
  reachable demoDone
  /\ status demoDone = Idle
  /\ sessionStatus (status demoDone) = false
  /\ hasSession demoDone = true.
Proof.
  repeat split.
  unfold demoDone, demoAnalyzing, demoRecording.
  repeat apply reachable_dispatchAll. constructor.
Qed.

Lemma live_status_has_session_witness :
  reachable demoAnalyzing /\ hasSession demoAnalyzing = true.
Proof.
  assert (H : reachable demoAnalyzing).
  { unfold demoAnalyzing, demoRecording.
    repeat apply reachable_dispatchAll. constructor. }
  split; [exact H|].
  apply (live_status_has_session unit unit unit _ H). reflexivity.
Defined.

Lemma analysis_failure_keeps_session_witness :
  status (analyzeRecording_rejected demoAnalyzing (Some "timeout"%string))
  = Error
  /\ error (analyzeRecording_rejected demoAnalyzing (Some "timeout"%string))
     = Some "timeout"%string
  /\ option_map (@duration _ _)
       (currentSession
          (analyzeRecording_rejected demoAnalyzing (Some "timeout"%string)))
     = Some 5000%Z.
Proof.
  destruct (analysis_failure_keeps_session unit unit unit demoAnalyzing
              (Some "timeout"%string) eq_refl) as [H1 [H2 H3]].
  split; [exact H1|]. split; [exact H2|]. rewrite H3. reflexivity.
Defined.

(** ** Comparisons and array reads *)

Local Open Scope R_scope.

Lemma Rltb_true (x y : R) : Rltb x y = true <-> x < y.
Proof. unfold Rltb; destruct (Rlt_dec x y); split; intros; congruence. Qed.

Lemma Rltb_false (x y : R) : Rltb x y = false <-> y <= x.
Proof.
  unfold Rltb; destruct (Rlt_dec x y); split; intros; try congruence; lra.
Qed.

Lemma Rleb_true (x y : R) : Rleb x y = true <-> x <= y.
Proof. unfold Rleb; destruct (Rle_dec x y); split; intros; congruence. Qed.

Lemma Rleb_false (x y : R) : Rleb x y = false <-> y < x.
Proof.
  unfold Rleb; destruct (Rle_dec x y); split; intros; try congruence; lra.
Qed.

Lemma Rleb_Rltb (x y : R) : Rleb x y = negb (Rltb y x).
Proof.
  destruct (Rltb y x) eqn:E; simpl.
  - apply Rleb_false. now apply Rltb_true.
  - apply Rleb_true. now apply Rltb_false.
Qed.

Lemma Reqb_true (x y : R) : Reqb x y = true <-> x = y.
Proof. unfold Reqb; destruct (Req_dec_T x y); split; intros; congruence. Qed.

Lemma ltJS_true (x y : option R) :
  ltJS x y = true <-> exists a b, x = Some a /\ y = Some b /\ a < b.
Proof.
  destruct x as [a|], y as [b|]; simpl; split.
  - intro H. exists a, b. rewrite Rltb_true in H. auto.
  - intros (a' & b' & [= ->] & [= ->] & H). now apply Rltb_true.
  - discriminate.
  - intros (a' & b' & _ & H & _). discriminate H.
  - discriminate.
  - intros (a' & b' & H & _). discriminate H.
  - discriminate.
  - intros (a' & b' & H & _). discriminate H.
Qed.

Lemma isLocalMax_true (a : list R) (i : Z) :
  isLocalMax a i = true <-> localMax a i.
Proof.
  unfold isLocalMax, gtJS, localMax.
  rewrite andb_true_iff, !ltJS_true. split.
  - intros [(x & y & Hx & Hy & Hxy) (z & y' & Hz & Hy' & Hzy)].
    rewrite Hy in Hy'. injection Hy' as <-.
    exists x, y, z. auto.
  - intros (x & y & z & Hx & Hy & Hz & Hxy & Hzy).
    split; [exists x, y | exists z, y]; auto.
Qed.

Lemma localMax_defined (a : list R) (i : Z) :
  localMax a i -> exists y, get a i = Some y /\ (1 <= i)%Z.
Proof.
  intros (x & y & z & Hx & Hy & _). exists y. split; [exact Hy|].
  unfold get in Hx. destruct (i - 1 <? 0)%Z eqn:E; [discriminate|].
  apply Z.ltb_ge in E. lia.
Qed.

Lemma isLocalMax_defined (a : list R) (i : Z) :
  isLocalMax a i = true -> exists y, get a i = Some y /\ (1 <= i)%Z.
Proof. intro H. apply localMax_defined. now apply isLocalMax_true. Qed.

(** ** findPeak *)

Section FindPeakTheory.
Context {K : AudioConstants}.
Variable a : list R.

(** The first loop returns the first negative lag of its range, or the
    default when the range has none. *)
Lemma zeroCrossingLoop_spec (n : nat) (i d : Z) :
  let zc := zeroCrossingLoop a i n d in
  ((i <= zc < i + Z.of_nat n)%Z /\ negativeAt a zc
   /\ forall j, (i <= j < zc)%Z -> ~ negativeAt a j)
  \/ (zc = d /\ forall j, (i <= j < i + Z.of_nat n)%Z -> ~ negativeAt a j).
Proof.
  revert i. induction n as [|n IH]; intro i; cbn [zeroCrossingLoop].
  - right. split; [reflexivity|]. intros j Hj. lia.
  - destruct (ltJS (get a i) (Some 0)) eqn:E.
    + left. apply ltJS_true in E. destruct E as (v & b & Hv & [= <-] & Hlt).
      split; [lia|]. split; [now exists v|]. intros j Hj. lia.
    + assert (Hi : ~ negativeAt a i).
      { intros (v & Hv & Hlt).
        assert (ltJS (get a i) (Some 0) = true)
          by (apply ltJS_true; exists v, 0; auto).
        congruence. }
      destruct (IH (i + 1)%Z) as [(Hr & Hneg & Hfirst) | (Hd & Hnone)].
      * left. split; [lia|]. split; [exact Hneg|].
        intros j Hj. destruct (Z.eq_dec j i) as [->|]; [exact Hi|].
        apply Hfirst. lia.
      * right. split; [exact Hd|].
        intros j Hj. destruct (Z.eq_dec j i) as [->|]; [exact Hi|].
        apply Hnone. lia.
Qed.

Lemma exceeds_trans (x y : R) (pv : option R) :
  exceeds (Some x) (Some y) = true -> exceeds (Some y) pv = true ->
  exceeds (Some x) pv = true.
Proof.
  destruct pv as [w|]; simpl; [|reflexivity].
  rewrite !Rltb_true. lra.
Qed.

Lemma exceeds_le_trans (x y : R) (pv : option R) :
  exceeds (Some x) pv = true -> exceeds (Some y) pv = false ->
  exceeds (Some x) (Some y) = true.
Proof.
  destruct pv as [w|]; simpl; [|discriminate].
  rewrite !Rltb_true, Rltb_false. lra.
Qed.

(** The second loop: either it keeps the running peak, and no candidate of
    its range exceeds it, or it ends on a candidate that exceeds the running
    peak and every earlier candidate, and that no later one exceeds. *)
Lemma peakLoop_spec (n : nat) (i pi : Z) (pv : option R) :
  let '(p, v) := peakLoop a i n pi pv in
  (p = pi /\ v = pv /\ noLater a pv i (i + Z.of_nat n))
  \/ ((i <= p < i + Z.of_nat n)%Z /\ isLocalMax a p = true
      /\ v = get a p /\ exceeds (get a p) pv = true
      /\ (forall j, (i <= j < p)%Z -> isLocalMax a j = true ->
                    exceeds (get a p) (get a j) = true)
      /\ noLater a (get a p) (p + 1) (i + Z.of_nat n)).
Proof.
  revert i pi pv. induction n as [|n IH]; intros i pi pv;
    cbn [peakLoop].
  - left. repeat split. intros j Hj. lia.
  - destruct (isLocalMax a i && exceeds (get a i) pv) eqn:E.
    + apply andb_true_iff in E. destruct E as [Hmax Hex].
      destruct (isLocalMax_defined a i Hmax)
        as (y & Hy & _).
      specialize (IH (i + 1)%Z i (get a i)).
      destruct (peakLoop a (i + 1) n i (get a i)) as [p v].
      destruct IH as [(-> & -> & Hno) | (Hr & Hpm & -> & Hpe & Hearly & Hno)].
      * right. split; [lia|]. split; [exact Hmax|]. split; [reflexivity|].
        split; [exact Hex|]. split; [intros j Hj; lia|].
        intros j Hj. apply Hno. lia.
      * right.
        destruct (isLocalMax_defined a p Hpm)
          as (w & Hw & _).
        split; [lia|]. split; [exact Hpm|]. split; [reflexivity|].
        rewrite Hw, Hy in *.
        split; [now apply exceeds_trans with y|].
        split.
        -- intros j Hj Hjm. destruct (Z.eq_dec j i) as [->|].
           ++ now rewrite Hy.
           ++ apply Hearly; [lia|exact Hjm].
        -- intros j Hj. apply Hno. lia.
    + assert (Hi : isLocalMax a i = true -> exceeds (get a i) pv = false).
      { intro Hm. rewrite Hm in E. exact E. }
      specialize (IH (i + 1)%Z pi pv).
      destruct (peakLoop a (i + 1) n pi pv) as [p v].
      destruct IH as [(-> & -> & Hno) | (Hr & Hpm & -> & Hpe & Hearly & Hno)].
      * left. repeat split.
        intros j Hj Hjm. destruct (Z.eq_dec j i) as [->|]; [now apply Hi|].
        apply Hno; [lia|exact Hjm].
      * right. split; [lia|]. split; [exact Hpm|]. split; [reflexivity|].
        split; [exact Hpe|]. split.
        -- intros j Hj Hjm. destruct (Z.eq_dec j i) as [->|].
           ++ destruct (isLocalMax_defined a p Hpm)
                as (w & Hw & _).
              destruct (isLocalMax_defined a i Hjm)
                as (y & Hy & _).
              rewrite Hw, Hy in *.
              apply exceeds_le_trans with pv; auto.
           ++ apply Hearly; [lia|exact Hjm].
        -- intros j Hj. apply Hno. lia.
Qed.

End FindPeakTheory.

Section FindPeakClaim.
Context {K : AudioConstants}.

Lemma exceeds_Some (x y : R) :
  exceeds (Some x) (Some y) = true <-> y < x.
Proof. simpl. apply Rltb_true. Qed.

Lemma not_exceeds_Some (x y : R) :
  exceeds (Some x) (Some y) = false <-> x <= y.
Proof. simpl. apply Rltb_false. Qed.

(** C4.  [findPeak] starts at lag [floor(sampleRate / MAX_FREQUENCY)],
    moves to the first lag from there on whose value is negative (it stays
    where it is when no lag below [floor(sampleRate / MIN_FREQUENCY)] is
    negative), and from that lag on returns the first strict local maximum
    that no later local maximum exceeds: every earlier local maximum of the
    scanned range is strictly smaller (so a later one exceeds it, and among
    equal peaks the lowest lag wins) and every later one is at most as
    large.  It returns [null] exactly when the scanned range has no strict
    local maximum.  The confidence is the peak over the value at lag 0. *)
Theorem findPeak_first_dominant_peak (a : list R) (sampleRate : R) :
  let lo := Math_floor (sampleRate / MAX_FREQUENCY) in
  let hi := Math_floor (sampleRate / MIN_FREQUENCY) in
  let zc := zeroCrossing a sampleRate in
  (((lo <= zc < hi)%Z /\ negativeAt a zc
    /\ forall j, (lo <= j < zc)%Z -> ~ negativeAt a j)
   \/ (zc = lo /\ forall j, (lo <= j < hi)%Z -> ~ negativeAt a j))
  /\ match findPeak a sampleRate with
     | None => forall j, (zc <= j < hi - 1)%Z -> ~ localMax a j
     | Some pk =>
         (zc <= index pk < hi - 1)%Z
         /\ localMax a (index pk)
         /\ (forall j x y,
                (zc <= j < hi - 1)%Z -> localMax a j ->
                get a j = Some x -> get a (index pk) = Some y ->
                ((j < index pk)%Z -> x < y)
                /\ ((index pk < j)%Z -> x <= y))
         /\ (forall y,
                get a (index pk) = Some y ->
                peakConfidence pk
                = match get a 0 with
                  | Some maxAutocorrelation =>
                      if Rltb 0 maxAutocorrelation
                      then y / maxAutocorrelation else 0
                  | None => 0
                  end)
     end.
Proof.
  intros lo hi zc. split.
  - subst zc. unfold zeroCrossing.
    fold lo hi. change (minSamples sampleRate) with lo.
    change (maxSamples sampleRate) with hi.
    destruct (zeroCrossingLoop_spec a (Z.to_nat (hi - lo)) lo lo)
      as [(Hr & Hneg & Hfirst) | (Hd & Hnone)].
    + left. split; [lia|]. split; [exact Hneg|exact Hfirst].
    + right. split; [exact Hd|]. intros j Hj. apply Hnone. lia.
  - unfold findPeak. fold zc. change (maxSamples sampleRate) with hi.
    pose proof (peakLoop_spec a (Z.to_nat (hi - 1 - zc)) zc (-1)%Z None)
      as Hloop.
    destruct (peakLoop a zc (Z.to_nat (hi - 1 - zc)) (-1) None) as [p v].
    destruct Hloop as [(-> & -> & Hno) | (Hr & Hpm & -> & _ & Hearly & Hno)].
    + simpl. intros j Hj Hjm.
      apply isLocalMax_true in Hjm.
      destruct (isLocalMax_defined a j Hjm) as (y & Hy & _).
      assert (H : exceeds (get a j) None = false) by (apply Hno; [lia|auto]).
      rewrite Hy in H. discriminate H.
    + destruct (isLocalMax_defined a p Hpm) as (w & Hw & Hp1).
      replace (p =? -1)%Z with false by (symmetry; apply Z.eqb_neq; lia).
      cbn [index peakConfidence].
      split; [lia|]. split; [now apply isLocalMax_true|]. split.
      * intros j x y Hj Hjm Hx Hy. apply isLocalMax_true in Hjm. split.
        -- intro Hlt.
           assert (H : exceeds (get a p) (get a j) = true)
             by (apply Hearly; [lia|exact Hjm]).
           rewrite Hx, Hy in H. now apply exceeds_Some in H.
        -- intro Hgt.
           assert (H : exceeds (get a j) (get a p) = false)
             by (apply Hno; [lia|exact Hjm]).
           rewrite Hx, Hy in H. now apply not_exceeds_Some in H.
      * intros y Hy. rewrite Hw in Hy |- *. injection Hy as ->.
        destruct (get a 0); reflexivity.
Qed.

(** An array with no strict local maximum has no peak. *)
Lemma findPeak_None_intro (a : list R) (sampleRate : R) :
  (forall j, ~ localMax a j) -> findPeak a sampleRate = None.
Proof.
  intro H. unfold findPeak.
  pose proof (peakLoop_spec a
                (Z.to_nat (maxSamples sampleRate - 1
                           - zeroCrossing a sampleRate))
                (zeroCrossing a sampleRate) (-1)%Z None) as Hloop.
  destruct (peakLoop a _ _ (-1) None) as [p v].
  destruct Hloop as [(-> & _) | (_ & Hpm & _)].
  - reflexivity.
  - apply isLocalMax_true in Hpm. now apply H in Hpm.
Qed.

End FindPeakClaim.

(** ** The smoothing buffer *)

Lemma fold_left_Rplus (l : list R) (acc : R) :
  fold_left (fun acc val => acc + val) l acc = acc + fold_right Rplus 0 l.
Proof.
  revert acc. induction l as [|x l IH]; intro acc; simpl.
  - lra.
  - rewrite IH. lra.
Qed.

Lemma getSmoothed_mean (b : PitchSmoothingBuffer) :
  buffer b <> [] -> getSmoothed b = mean (buffer b).
Proof.
  unfold getSmoothed, mean. destruct (buffer b) as [|x l] eqn:E.
  - congruence.
  - intros _. rewrite fold_left_Rplus. f_equal. lra.
Qed.

Lemma add_maxSize (b : PitchSmoothingBuffer) (f : R) :
  maxSize (add b f) = maxSize b.
Proof. unfold add. now destruct (_ >? _)%Z. Qed.

(** [add] keeps the last [maxSize] entries. *)
Lemma add_lastN (b : PitchSmoothingBuffer) (f : R) :
  (0 <= maxSize b)%Z ->
  (Z.of_nat (length (buffer b)) <= maxSize b)%Z ->
  buffer (add b f) = lastN (Z.to_nat (maxSize b)) (buffer b ++ [f]).
Proof.
  intros H0 Hlen. unfold add, lastN.
  rewrite length_app. cbn [length].
  destruct (_ >? _)%Z eqn:E; cbn [buffer].
  - apply Z.gtb_lt in E.
    replace (length (buffer b) + 1 - Z.to_nat (maxSize b))%nat with 1%nat
      by lia.
    reflexivity.
  - rewrite Z.gtb_ltb in E. apply Z.ltb_ge in E.
    replace (length (buffer b) + 1 - Z.to_nat (maxSize b))%nat with 0%nat
      by lia.
    reflexivity.
Qed.

Lemma add_length (b : PitchSmoothingBuffer) (f : R) :
  (0 <= maxSize b)%Z ->
  (Z.of_nat (length (buffer b)) <= maxSize b)%Z ->
  (Z.of_nat (length (buffer (add b f))) <= maxSize b)%Z.
Proof.
  intros H0 Hlen. unfold add.
  destruct (_ >? _)%Z eqn:E; cbn [buffer].
  - rewrite length_tl, length_app. cbn [length]. lia.
  - rewrite Z.gtb_ltb in E. apply Z.ltb_ge in E. exact E.
Qed.

(** With room for one entry, the pushed frequency is the newest entry. *)
Lemma add_last (b : PitchSmoothingBuffer) (f : R) :
  (1 <= maxSize b)%Z ->
  buffer (add b f) <> [] /\ last (buffer (add b f)) 0 = f.
Proof.
  intro H1. unfold add.
  destruct (_ >? _)%Z eqn:E; cbn [buffer].
  - apply Z.gtb_lt in E. rewrite length_app in E. cbn [length] in E.
    destruct (buffer b) as [|x l]; cbn [length] in E; [lia|].
    cbn [app tl]. split.
    + destruct l; discriminate.
    + apply last_last.
  - split; [|apply last_last]. destruct (buffer b); discriminate.
Qed.

(** With room for two entries, the newest entry survives the next push. *)
Lemma add_keeps_newest (b : PitchSmoothingBuffer) (f : R) :
  (2 <= maxSize b)%Z -> buffer b <> [] ->
  In (last (buffer b) 0) (buffer (add b f)).
Proof.
  intros H2 Hne. unfold add.
  destruct (exists_last Hne) as (l & x & Hl). rewrite Hl, last_last.
  destruct (_ >? _)%Z eqn:E; cbn [buffer].
  - apply Z.gtb_lt in E. rewrite !length_app in E. cbn [length] in E.
    destruct l as [|y l]; cbn [length] in E; [lia|].
    cbn [app tl]. apply in_or_app. left. apply in_or_app. right. now left.
  - apply in_or_app. left. apply in_or_app. right. now left.
Qed.

(** ** detectPitch *)

Section DetectPitchTheory.
Context {K : AudioConstants}.

Lemma inBand_test (f : R) :
  Rltb f MIN_FREQUENCY || Rltb MAX_FREQUENCY f = false <-> inBand f.
Proof.
  unfold inBand. rewrite orb_false_iff, !Rltb_false. tauto.
Qed.

(** The run of [detectPitch] on an accepted detection. *)
Lemma detectPitch_accepted (window : list R) (sampleRate : R)
      (enableSmoothing : bool) (now : Z) (sb : PitchSmoothingBuffer)
      (ac : list R) (pk : Peak) :
  accepted window sampleRate ac pk ->
  let sb' := when enableSmoothing
                  (fun b => add b (rawFrequency sampleRate ac pk)) sb in
  let f := if enableSmoothing then getSmoothed sb'
           else rawFrequency sampleRate ac pk in
  detectPitch window sampleRate enableSmoothing now sb
  = if Rltb f MIN_FREQUENCY || Rltb MAX_FREQUENCY f
    then (Return None, when enableSmoothing clear sb')
    else (Return (Some {| noteData := frequencyToNote f;
                          confidence := Rmin (peakConfidence pk) 1;
                          timestamp := now |}), sb').
Proof.
  intros (Hrms & Hac & Hpk & Hconf). cbv zeta.
  unfold detectPitch. rewrite Hrms, Hac, Hpk.
  replace (Rltb (peakConfidence pk) MIN_CONFIDENCE_THRESHOLD) with false
    by (symmetry; now apply Rltb_false).
  reflexivity.
Qed.

(** A result of [detectPitch] comes from an accepted detection in band. *)
Lemma detectPitch_Some_inv (window : list R) (sampleRate : R)
      (enableSmoothing : bool) (now : Z) (sb sb' : PitchSmoothingBuffer)
      (r : PitchData) :
  detectPitch window sampleRate enableSmoothing now sb
  = (Return (Some r), sb') ->
  exists ac pk,
    accepted window sampleRate ac pk
    /\ sb' = when enableSmoothing
                  (fun b => add b (rawFrequency sampleRate ac pk)) sb
    /\ frequency (noteData r)
       = (if enableSmoothing then getSmoothed sb'
          else rawFrequency sampleRate ac pk)
    /\ inBand (frequency (noteData r))
    /\ confidence r = Rmin (peakConfidence pk) 1.
Proof.
  unfold detectPitch.
  destruct (ltJS (rms window) (Some (1 / 100))) eqn:Hrms; [discriminate|].
  destruct (autocorrelate (normalizeBuffer window) sampleRate) as [ac|]
    eqn:Hac; [|discriminate].
  destruct (findPeak ac sampleRate) as [pk|] eqn:Hpk; [|discriminate].
  destruct (Rltb (peakConfidence pk) MIN_CONFIDENCE_THRESHOLD) eqn:Hconf;
    [discriminate|].
  match goal with
  | |- context [if ?c then _ else _] => destruct c eqn:Hband
  end; [discriminate|].
  intros [= <- <-]. exists ac, pk.
  apply Rltb_false in Hconf. apply inBand_test in Hband.
  unfold frequencyToNote at 1 3.
  destruct (noteOfSemitone _) as [nt oc]. cbn [noteData frequency confidence].
  repeat split; auto; apply Hband.
Qed.

(** With smoothing disabled no path touches the buffer. *)
Lemma detectPitch_unsmoothed_buffer (window : list R) (sampleRate : R)
      (now : Z) (sb : PitchSmoothingBuffer) :
  snd (detectPitch window sampleRate false now sb) = sb.
Proof.
  unfold detectPitch, when.
  repeat match goal with
         | |- context [if ?c then _ else _] => destruct c
         | |- context [match ?c with _ => _ end] => destruct c
         end; reflexivity.
Qed.

End DetectPitchTheory.

Section DetectPitchClaims.
Context {K : AudioConstants}.

Lemma sumSquares_from (l : list R) (acc : R) :
  allZero l -> fold_left (fun s x => s + x * x) l acc = acc.
Proof.
  intro H. revert acc. induction H as [|x l Hx _ IH]; intro acc; simpl.
  - reflexivity.
  - rewrite IH. subst x. lra.
Qed.

Lemma rms_allZero (x : R) (l : list R) :
  allZero (x :: l) -> rms (x :: l) = Some 0.
Proof.
  intro H. unfold rms, sumSquares, Math_sqrt.
  rewrite (sumSquares_from (x :: l) 0 H).
  unfold Rdiv. rewrite Rmult_0_l, sqrt_0. reflexivity.
Qed.

Lemma get_Some_In (a : list R) (i : Z) (v : R) :
  get a i = Some v -> In v a.
Proof.
  unfold get. destruct (i <? 0)%Z; [discriminate|]. apply nth_error_In.
Qed.

(** A constant array has no strict local maximum. *)
Lemma constant_no_localMax (a : list R) (c : R) :
  (forall v, In v a -> v = c) -> forall j, ~ localMax a j.
Proof.
  intros Hc j (x & y & z & Hx & Hy & _ & Hxy & _).
  apply get_Some_In, Hc in Hx. apply get_Some_In, Hc in Hy. lra.
Qed.

Lemma maxSamples_nonneg (sampleRate : R) :
  0 < MIN_FREQUENCY -> 0 <= sampleRate -> (0 <= maxSamples sampleRate)%Z.
Proof.
  intros Hmin Hsr. unfold maxSamples, Math_floor. apply Zfloor_lub.
  apply Rmult_le_pos; [exact Hsr|].
  left. now apply Rinv_0_lt_compat.
Qed.

Lemma normalizeBuffer_nil : normalizeBuffer [] = [].
Proof. unfold normalizeBuffer. simpl. now destruct (Rltb 0 0). Qed.

(** The empty window: its RMS is [NaN], so the run goes on to an all-zero
    autocorrelation, which has no peak. *)
Lemma detectPitch_empty (sampleRate : R) (now : Z)
      (sb : PitchSmoothingBuffer) :
  (0 <= maxSamples sampleRate)%Z ->
  detectPitch [] sampleRate true now sb = (Return None, clear sb).
Proof.
  intro Hn. unfold detectPitch. cbn [rms ltJS].
  rewrite normalizeBuffer_nil.
  unfold autocorrelate, new_Float32Array.
  fold (maxSamples sampleRate).
  replace (maxSamples sampleRate <? 0)%Z with false
    by (symmetry; apply Z.ltb_ge; exact Hn).
  rewrite findPeak_None_intro; [reflexivity|].
  apply constant_no_localMax with (c := 0).
  intros v Hv. apply in_map_iff in Hv. destruct Hv as (lag & <- & _).
  reflexivity.
Qed.

(** C6.  For an all-zero window, and for any window whose RMS is below
    [0.01], [detectPitch] with smoothing enabled returns [null] and leaves
    the smoothing buffer empty.  (The sample rate is not negative and
    [MIN_FREQUENCY] is positive: only the window of length zero, whose RMS
    is [NaN], needs that.) *)
Theorem silent_window_clears_buffer (window : list R) (sampleRate : R)
        (now : Z) (sb : PitchSmoothingBuffer) :
  0 < MIN_FREQUENCY -> 0 <= sampleRate ->
  allZero window \/ (exists r, rms window = Some r /\ r < 1 / 100) ->
  fst (detectPitch window sampleRate true now sb) = Return None
  /\ buffer (snd (detectPitch window sampleRate true now sb)) = [].
Proof.
  intros Hmin Hsr Hsilent.
  assert (Hgate : ltJS (rms window) (Some (1 / 100)) = true ->
                  detectPitch window sampleRate true now sb
                  = (Return None, clear sb)).
  { intro H. unfold detectPitch. rewrite H. reflexivity. }
  assert (H : detectPitch window sampleRate true now sb
              = (Return None, clear sb)).
  { destruct Hsilent as [Hz | (r & Hr & Hlt)].
    - destruct window as [|x l].
      + apply detectPitch_empty. now apply maxSamples_nonneg.
      + apply Hgate. rewrite (rms_allZero x l Hz).
        apply ltJS_true. exists 0, (1 / 100). repeat split; lra.
    - apply Hgate. apply ltJS_true. exists r, (1 / 100). auto. }
  rewrite H. split; reflexivity.
Qed.

(** A window that is not empty needs no assumption on the sample rate. *)
Lemma silent_nonempty_window (window : list R) (sampleRate : R)
      (now : Z) (sb : PitchSmoothingBuffer) :
  window <> [] ->
  allZero window \/ (exists r, rms window = Some r /\ r < 1 / 100) ->
  detectPitch window sampleRate true now sb = (Return None, clear sb).
Proof.
  intros Hne Hsilent.
  assert (H : ltJS (rms window) (Some (1 / 100)) = true).
  { destruct Hsilent as [Hz | (r & Hr & Hlt)].
    - destruct window as [|x l]; [congruence|].
      rewrite (rms_allZero x l Hz).
      apply ltJS_true. exists 0, (1 / 100). repeat split; lra.
    - apply ltJS_true. exists r, (1 / 100). auto. }
  unfold detectPitch. rewrite H. reflexivity.
Qed.

(** C10.  [detectPitch] with [enableSmoothing] false leaves the smoothing
    buffer as it found it, whatever path it takes (silence, no peak, low
    confidence, out of band, success, or the exception of the array
    allocation); a later smoothing-enabled call therefore returns what it
    would have returned without it. *)
Theorem smoothing_disabled_leaves_buffer (window : list R) (sampleRate : R)
        (now : Z) (sb : PitchSmoothingBuffer) :
  snd (detectPitch window sampleRate false now sb) = sb
  /\ forall (window' : list R) (sampleRate' : R) (now' : Z),
      detectPitch window' sampleRate' true now'
                  (snd (detectPitch window sampleRate false now sb))
      = detectPitch window' sampleRate' true now' sb.
Proof.
  split.
  - apply detectPitch_unsmoothed_buffer.
  - intros. now rewrite detectPitch_unsmoothed_buffer.
Qed.

(** C5.  When smoothing is enabled and a detection has passed the silence
    gate and the confidence gate, the raw frequency (the sample rate over
    the interpolated lag) is pushed into the smoothing buffer, which keeps
    the last [maxSize] entries and so never grows beyond [maxSize]; the
    frequency [detectPitch] reports is the arithmetic mean of the buffer
    after the push.  (A mean outside the band is not reported.) *)
Theorem smoothed_frequency_is_buffer_mean (window : list R)
        (sampleRate : R) (now : Z) (sb : PitchSmoothingBuffer)
        (ac : list R) (pk : Peak) :
  (1 <= maxSize sb)%Z ->
  (Z.of_nat (length (buffer sb)) <= maxSize sb)%Z ->
  accepted window sampleRate ac pk ->
  let raw := sampleRate / parabolicInterpolation ac (index pk) in
  let sb' := add sb raw in
  buffer sb' = lastN (Z.to_nat (maxSize sb)) (buffer sb ++ [raw])
  /\ (Z.of_nat (length (buffer sb')) <= maxSize sb)%Z
  /\ (inBand (mean (buffer sb')) ->
      exists r,
        detectPitch window sampleRate true now sb = (Return (Some r), sb')
        /\ frequency (noteData r) = mean (buffer sb'))
  /\ (forall r sb'',
         detectPitch window sampleRate true now sb = (Return (Some r), sb'')
         -> sb'' = sb' /\ frequency (noteData r) = mean (buffer sb')).
Proof.
  intros H1 Hlen Hacc raw sb'.
  assert (Hmean : getSmoothed sb' = mean (buffer sb'))
    by (apply getSmoothed_mean; now apply add_last).
  pose proof (detectPitch_accepted window sampleRate true now sb ac pk Hacc)
    as Hrun.
  cbv zeta in Hrun. cbn [when] in Hrun.
  fold (rawFrequency sampleRate ac pk) in raw.
  change (add sb (rawFrequency sampleRate ac pk)) with sb' in Hrun.
  split; [apply add_lastN; lia|].
  split; [apply add_length; lia|].
  split.
  - intro Hband. rewrite <- Hmean in Hband. apply inBand_test in Hband.
    rewrite Hband in Hrun. eexists. split; [exact Hrun|].
    unfold frequencyToNote. destruct (noteOfSemitone _).
    cbn [noteData frequency]. exact Hmean.
  - intros r sb'' Hr. rewrite Hrun in Hr.
    destruct (_ || _); [discriminate|].
    injection Hr as <- <-. split; [reflexivity|].
    unfold frequencyToNote. destruct (noteOfSemitone _).
    cbn [noteData frequency]. exact Hmean.
Qed.

(** The bound on the buffer is kept by every call. *)
Lemma detectPitch_buffer_bound (window : list R) (sampleRate : R)
      (enableSmoothing : bool) (now : Z) (sb : PitchSmoothingBuffer) :
  (0 <= maxSize sb)%Z ->
  (Z.of_nat (length (buffer sb)) <= maxSize sb)%Z ->
  let sb' := snd (detectPitch window sampleRate enableSmoothing now sb) in
  maxSize sb' = maxSize sb
  /\ (Z.of_nat (length (buffer sb')) <= maxSize sb)%Z.
Proof.
  intros H0 Hlen. cbv zeta. unfold detectPitch.
  assert (Hc : forall b,
             maxSize b = maxSize sb ->
             (Z.of_nat (length (buffer b)) <= maxSize sb)%Z ->
             maxSize (when enableSmoothing clear b) = maxSize sb
             /\ (Z.of_nat (length (buffer (when enableSmoothing clear b)))
                 <= maxSize sb)%Z).
  { intros b Hb Hl. destruct enableSmoothing; cbn; auto. }
  assert (Ha : forall f,
             maxSize (when enableSmoothing (fun b => add b f) sb)
             = maxSize sb
             /\ (Z.of_nat (length (buffer (when enableSmoothing
                                             (fun b => add b f) sb)))
                 <= maxSize sb)%Z).
  { intro f. destruct enableSmoothing; cbn [when]; [|auto].
    split; [apply add_maxSize|now apply add_length]. }
  destruct (ltJS _ _); cbn [snd]; [now apply Hc|].
  destruct (autocorrelate _ _) as [ac|]; cbn [snd]; [|auto].
  destruct (findPeak _ _) as [pk|]; cbn [snd]; [|now apply Hc].
  destruct (Rltb (peakConfidence pk) _); cbn [snd]; [now apply Hc|].
  destruct (_ || _); cbn [snd]; [|apply Ha].
  apply Hc; apply Ha.
Qed.

(** The two confidence rejections and the smoothing buffer, for all
    constants.  A peak whose confidence is below the detector's own
    [MIN_CONFIDENCE_THRESHOLD] is rejected inside [detectPitch]: the result
    is [null] and the smoothing buffer is cleared.  A detection that
    [detectPitch] accepted and that the caller's sensitivity threshold
    (low 0.85, medium 0.70, high 0.50) then filters out is reported as
    [null] by [detectPitchWithSensitivity] and by [calculateMetrics], and
    the smoothing buffer is left as [detectPitch] left it: not cleared, the
    frame's raw frequency its newest entry.  The next detection that is
    reported averages that frequency in (the buffer has room for two). *)
Theorem sensitivity_rejection_keeps_buffer :
  (forall (window : list R) (sampleRate : R) (now : Z)
          (sb : PitchSmoothingBuffer) (ac : list R) (pk : Peak),
      ltJS (rms window) (Some (1 / 100)) = false ->
      autocorrelate (normalizeBuffer window) sampleRate = Return ac ->
      findPeak ac sampleRate = Some pk ->
      peakConfidence pk < MIN_CONFIDENCE_THRESHOLD ->
      detectPitch window sampleRate true now sb = (Return None, clear sb))
  /\ (forall (window : list R) (sampleRate : R) (sensitivity : Sensitivity)
             (now : Z) (sb sb' : PitchSmoothingBuffer) (r : PitchData),
         (1 <= maxSize sb)%Z ->
         detectPitch window sampleRate true now sb = (Return (Some r), sb') ->
         confidence r < thresholds sensitivity ->
         detectPitchWithSensitivity window sampleRate sensitivity now sb
         = (Return None, sb')
         /\ filteredPitchData window sampleRate sensitivity now sb
            = (None, sb')
         /\ buffer sb' <> []
         /\ exists ac pk,
             accepted window sampleRate ac pk
             /\ sb' = add sb (rawFrequency sampleRate ac pk)
             /\ last (buffer sb') 0 = rawFrequency sampleRate ac pk)
  /\ (forall (window window' : list R) (sampleRate sampleRate' : R)
             (now now' : Z) (sb sb' sb'' : PitchSmoothingBuffer)
             (r r' : PitchData),
         (2 <= maxSize sb)%Z ->
         detectPitch window sampleRate true now sb = (Return (Some r), sb') ->
         detectPitch window' sampleRate' true now' sb'
         = (Return (Some r'), sb'') ->
         In (last (buffer sb') 0) (buffer sb'')
         /\ frequency (noteData r') = mean (buffer sb'')).
Proof.
  split; [|split].
  - intros window sampleRate now sb ac pk Hrms Hac Hpk Hconf.
    unfold detectPitch. rewrite Hrms, Hac, Hpk.
    replace (Rltb (peakConfidence pk) MIN_CONFIDENCE_THRESHOLD) with true
      by (symmetry; now apply Rltb_true).
    reflexivity.
  - intros window sampleRate sensitivity now sb sb' r H1 Hrun Hconf.
    unfold detectPitchWithSensitivity, filteredPitchData.
    rewrite Hrun, Rleb_Rltb.
    replace (Rltb (confidence r) (thresholds sensitivity)) with true
      by (symmetry; now apply Rltb_true).
    cbn [negb].
    destruct (detectPitch_Some_inv _ _ _ _ _ _ _ Hrun)
      as (ac & pk & Hacc & Hsb & _).
    cbn [when] in Hsb. subst sb'.
    destruct (add_last sb (rawFrequency sampleRate ac pk) H1) as [Hne Hlast].
    repeat split; auto. exists ac, pk. auto.
  - intros window window' sampleRate sampleRate' now now' sb sb' sb'' r r'
           H2 Hrun Hrun'.
    destruct (detectPitch_Some_inv _ _ _ _ _ _ _ Hrun)
      as (ac & pk & _ & Hsb & _).
    destruct (detectPitch_Some_inv _ _ _ _ _ _ _ Hrun')
      as (ac' & pk' & _ & Hsb' & Hf & _).
    cbn [when] in Hsb, Hsb'.
    assert (Hm : maxSize sb' = maxSize sb)
      by (subst sb'; apply add_maxSize).
    assert (Hne : buffer sb' <> [])
      by (subst sb'; apply add_last; lia).
    split.
    + subst sb''. apply add_keeps_newest; [lia|exact Hne].
    + rewrite Hf. apply getSmoothed_mean.
      subst sb''. apply add_last. lia.
Qed.

End DetectPitchClaims.

(** ** The square wave at 400 Hz, step by step *)

(** Decide one comparison of the goal by linear arithmetic. *)
Ltac Rtest :=
  match goal with
  | |- context [Rltb ?x ?y] =>
      first
        [ replace (Rltb x y) with true
            by (symmetry; apply Rltb_true; unfold Rabs;
                repeat destruct (Rcase_abs _); lra)
        | replace (Rltb x y) with false
            by (symmetry; apply Rltb_false; unfold Rabs;
                repeat destruct (Rcase_abs _); lra) ]
  end.

Lemma demo_floors :
  Math_floor (400 / MIN_FREQUENCY) = 5%Z
  /\ Math_floor (400 / MAX_FREQUENCY) = 0%Z.
Proof.
  cbn [MIN_FREQUENCY MAX_FREQUENCY demoConstants]. unfold Math_floor.
  split; apply Zfloor_eq; lra.
Qed.

Lemma squareWave_rms : rms squareWave = Some 1.
Proof.
  unfold rms, squareWave, sumSquares, Math_sqrt. f_equal.
  replace (_ / _) with 1 by (simpl; lra).
  apply sqrt_1.
Qed.

(** One round of the maximum search of [normalizeBuffer]. *)
Lemma maxAbs_step (max x : R) (l : list R) :
  fold_left (fun max x => if Rltb max (Rabs x) then Rabs x else max)
            (x :: l) max
  = fold_left (fun max x => if Rltb max (Rabs x) then Rabs x else max)
              l (Rmax max (Rabs x)).
Proof.
  cbn [fold_left]. f_equal. unfold Rmax.
  destruct (Rltb max (Rabs x)) eqn:E.
  - apply Rltb_true in E. destruct (Rle_dec max (Rabs x)); lra.
  - apply Rltb_false in E. destruct (Rle_dec max (Rabs x)); lra.
Qed.

Lemma squareWave_normalized : normalizeBuffer squareWave = squareWave.
Proof.
  assert (Hp : Rabs 1 = 1) by apply Rabs_R1.
  assert (Hm : Rabs (-1) = 1)
    by (unfold Rabs; destruct (Rcase_abs (-1)); lra).
  assert (H01 : Rmax 0 1 = 1) by (apply Rmax_right; lra).
  assert (H11 : Rmax 1 1 = 1) by (apply Rmax_left; lra).
  unfold normalizeBuffer, squareWave.
  rewrite !maxAbs_step. cbn [fold_left].
  rewrite Hp, Hm, H01, !H11.
  Rtest. cbn [map]. repeat f_equal; lra.
Qed.

Lemma squareWave_autocorrelate :
  autocorrelate squareWave 400 = Return squareWaveAutocorrelation.
Proof.
  unfold autocorrelate. rewrite (proj1 demo_floors).
  cbn [new_Float32Array Z.ltb Z.compare Z.to_nat Pos.to_nat Pos.iter_op
       Nat.add seq map].
  unfold lagSum, squareWave, squareWaveAutocorrelation. simpl.
  repeat f_equal; lra.
Qed.

Lemma squareWave_findPeak :
  findPeak squareWaveAutocorrelation 400
  = Some {| index := 2; peakConfidence := 6 / 8 |}.
Proof.
  unfold findPeak, zeroCrossing, minSamples, maxSamples.
  rewrite (proj1 demo_floors), (proj2 demo_floors).
  unfold squareWaveAutocorrelation. simpl.
  repeat Rtest. simpl.
  unfold isLocalMax, gtJS. simpl.
  repeat Rtest. simpl.
  repeat Rtest. reflexivity.
Qed.

Lemma squareWave_interpolation :
  parabolicInterpolation squareWaveAutocorrelation 2 = 49 / 24.
Proof.
  unfold parabolicInterpolation, squareWaveAutocorrelation. simpl. field.
Qed.

Lemma squareWave_rawFrequency :
  rawFrequency 400 squareWaveAutocorrelation squareWavePeak
  = squareWaveFrequency.
Proof.
  unfold rawFrequency, squareWavePeak, squareWaveFrequency. cbn [index].
  rewrite squareWave_interpolation. field.
Qed.

Lemma squareWave_accepted :
  accepted squareWave 400 squareWaveAutocorrelation squareWavePeak.
Proof.
  unfold accepted.
  rewrite squareWave_rms, squareWave_normalized, squareWave_autocorrelate,
    squareWave_findPeak.
  repeat split.
  - cbn [ltJS]. apply Rltb_false. lra.
  - cbn [MIN_CONFIDENCE_THRESHOLD demoConstants squareWavePeak
         peakConfidence]. lra.
Qed.

Lemma squareWave_add_empty :
  add smoothingBuffer squareWaveFrequency = afterSquareWave.
Proof. reflexivity. Qed.

Lemma squareWave_add_one :
  add afterOneFrame squareWaveFrequency
  = {| buffer := [200; squareWaveFrequency]; maxSize := 5 |}.
Proof. reflexivity. Qed.

Lemma squareWave_inBand : inBand squareWaveFrequency.
Proof.
  unfold inBand, squareWaveFrequency.
  cbn [MIN_FREQUENCY MAX_FREQUENCY demoConstants]. lra.
Qed.

(** The whole run on the empty buffer. *)
Lemma squareWave_detectPitch (now : Z) :
  detectPitch squareWave 400 true now smoothingBuffer
  = (Return (Some {| noteData := frequencyToNote squareWaveFrequency;
                     confidence := 3 / 4;
                     timestamp := now |}),
     afterSquareWave).
Proof.
  rewrite (detectPitch_accepted squareWave 400 true now smoothingBuffer
             squareWaveAutocorrelation squareWavePeak squareWave_accepted).
  cbv zeta. cbn [when].
  rewrite squareWave_rawFrequency, squareWave_add_empty.
  replace (getSmoothed afterSquareWave) with squareWaveFrequency
    by (unfold getSmoothed, afterSquareWave; simpl; field).
  pose proof squareWave_inBand as Hb. apply inBand_test in Hb. rewrite Hb.
  replace (Rmin (peakConfidence squareWavePeak) 1) with (3 / 4);
    [reflexivity|].
  cbn [squareWavePeak peakConfidence]. rewrite Rmin_left; lra.
Qed.

Lemma shortWave_autocorrelate :
  autocorrelate (normalizeBuffer shortWave) 400
  = Return shortWaveAutocorrelation.
Proof.
  assert (Hn : normalizeBuffer shortWave = shortWave).
  { assert (Hp : Rabs 1 = 1) by apply Rabs_R1.
    assert (Hm : Rabs (-1) = 1)
      by (unfold Rabs; destruct (Rcase_abs (-1)); lra).
    assert (H01 : Rmax 0 1 = 1) by (apply Rmax_right; lra).
    assert (H11 : Rmax 1 1 = 1) by (apply Rmax_left; lra).
    unfold normalizeBuffer, shortWave.
    rewrite !maxAbs_step. cbn [fold_left].
    rewrite Hp, Hm, H01, !H11.
    Rtest. cbn [map]. repeat f_equal; lra. }
  rewrite Hn. unfold autocorrelate. rewrite (proj1 demo_floors).
  cbn [new_Float32Array Z.ltb Z.compare Z.to_nat Pos.to_nat Pos.iter_op
       Nat.add seq map].
  unfold lagSum, shortWave, shortWaveAutocorrelation. simpl.
  repeat f_equal; lra.
Qed.

Lemma shortWave_findPeak :
  findPeak shortWaveAutocorrelation 400 = Some shortWavePeak.
Proof.
  unfold findPeak, zeroCrossing, minSamples, maxSamples.
  rewrite (proj1 demo_floors), (proj2 demo_floors).
  unfold shortWaveAutocorrelation. simpl.
  repeat Rtest. simpl.
  unfold isLocalMax, gtJS. simpl.
  repeat Rtest. simpl.
  repeat Rtest. reflexivity.
Qed.

Lemma shortWave_rms :
  ltJS (rms shortWave) (Some (1 / 100)) = false.
Proof.
  unfold rms, shortWave, sumSquares, Math_sqrt. cbn [ltJS].
  replace (_ / _) with 1 by (simpl; lra).
  rewrite sqrt_1. apply Rltb_false. lra.
Qed.

(** ** The detector at the concrete windows *)

(** With a confidence floor of one half, the square wave is accepted by
    [detectPitch] with confidence 0.75, the sensitivity [low] (0.85) filters
    it out, and the smoothing buffer still holds its frequency. *)
Lemma sensitivity_rejection_does_not_clear :
  (exists r,
      detectPitch squareWave 400 true 0 smoothingBuffer
      = (Return (Some r), afterSquareWave)
      /\ confidence r = 3 / 4
      /\ confidence r < thresholds low)
  /\ detectPitchWithSensitivity squareWave 400 low 0 smoothingBuffer
     = (Return None, afterSquareWave)
  /\ filteredPitchData squareWave 400 low 0 smoothingBuffer
     = (None, afterSquareWave)
  /\ buffer afterSquareWave = [9600 / 49].
Proof.
  split; [|split; [|split]].
  - eexists. split; [apply squareWave_detectPitch|].
    cbn [confidence thresholds]. split; lra.
  - unfold detectPitchWithSensitivity. rewrite squareWave_detectPitch.
    cbn [confidence thresholds]. Rtest. reflexivity.
  - unfold filteredPitchData. rewrite squareWave_detectPitch.
    cbn [confidence thresholds]. rewrite Rleb_Rltb. Rtest. reflexivity.
  - reflexivity.
Qed.

(** The same window once more, on the buffer the filtered frame left. *)
Lemma squareWave_detectPitch_again (now : Z) :
  detectPitch squareWave 400 true now afterSquareWave
  = (Return (Some {| noteData := frequencyToNote squareWaveFrequency;
                     confidence := 3 / 4;
                     timestamp := now |}),
     {| buffer := [squareWaveFrequency; squareWaveFrequency];
        maxSize := 5 |}).
Proof.
  rewrite (detectPitch_accepted squareWave 400 true now afterSquareWave
             squareWaveAutocorrelation squareWavePeak squareWave_accepted).
  cbv zeta. cbn [when].
  rewrite squareWave_rawFrequency.
  change (add afterSquareWave squareWaveFrequency)
    with {| buffer := [squareWaveFrequency; squareWaveFrequency];
            maxSize := 5 |}.
  replace (getSmoothed _) with squareWaveFrequency
    by (unfold getSmoothed, squareWaveFrequency; simpl; field).
  pose proof squareWave_inBand as Hb. apply inBand_test in Hb. rewrite Hb.
  replace (Rmin (peakConfidence squareWavePeak) 1) with (3 / 4);
    [reflexivity|].
  cbn [squareWavePeak peakConfidence]. rewrite Rmin_left; lra.
Qed.

Lemma sensitivity_rejection_keeps_buffer_witness :
  detectPitch shortWave 400 true 0 afterSquareWave
  = (Return None, clear afterSquareWave)
  /\ detectPitchWithSensitivity squareWave 400 low 0 smoothingBuffer
     = (Return None, afterSquareWave)
  /\ buffer afterSquareWave <> []
  /\ In squareWaveFrequency [squareWaveFrequency; squareWaveFrequency].
Proof.
  pose proof (@sensitivity_rejection_keeps_buffer demoConstants)
    as [Hinner [Houter Hnext]].
  assert (H1 : (1 <= maxSize smoothingBuffer)%Z)
    by (vm_compute; discriminate).
  assert (H2 : (2 <= maxSize smoothingBuffer)%Z)
    by (vm_compute; discriminate).
  split; [|split; [|split]].
  - apply (Hinner shortWave 400 0%Z afterSquareWave
                  shortWaveAutocorrelation shortWavePeak).
    + apply shortWave_rms.
    + apply shortWave_autocorrelate.
    + apply shortWave_findPeak.
    + cbn [MIN_CONFIDENCE_THRESHOLD demoConstants shortWavePeak
           peakConfidence]. lra.
  - assert (Hc : 3 / 4 < thresholds low) by (cbn [thresholds]; lra).
    apply (Houter squareWave 400 low 0%Z smoothingBuffer afterSquareWave
                  _ H1 (squareWave_detectPitch 0%Z) Hc).
  - assert (Hc : 3 / 4 < thresholds low) by (cbn [thresholds]; lra).
    apply (Houter squareWave 400 low 0%Z smoothingBuffer afterSquareWave
                  _ H1 (squareWave_detectPitch 0%Z) Hc).
  - apply (Hnext squareWave squareWave 400 400 0%Z 1%Z smoothingBuffer
                 afterSquareWave _ _ _ H2 (squareWave_detectPitch 0%Z)
                 (squareWave_detectPitch_again 1%Z)).
Defined.

Lemma smoothed_frequency_is_buffer_mean_witness :
  exists r,
    detectPitch squareWave 400 true 0 afterOneFrame
    = (Return (Some r),
       {| buffer := [200; squareWaveFrequency]; maxSize := 5 |})
    /\ frequency (noteData r) = (200 + 9600 / 49) / 2.
Proof.
  assert (H1 : (1 <= maxSize afterOneFrame)%Z)
    by (vm_compute; discriminate).
  assert (Hl : (Z.of_nat (length (buffer afterOneFrame))
                <= maxSize afterOneFrame)%Z)
    by (vm_compute; discriminate).
  destruct (@smoothed_frequency_is_buffer_mean demoConstants
              squareWave 400 0%Z afterOneFrame
              squareWaveAutocorrelation squareWavePeak
              H1 Hl squareWave_accepted)
    as (_ & _ & Hrun & _).
  fold (rawFrequency 400 squareWaveAutocorrelation squareWavePeak) in Hrun.
  rewrite squareWave_rawFrequency, squareWave_add_one in Hrun.
  cbn [buffer] in Hrun.
  assert (Hm : mean [200; squareWaveFrequency] = (200 + 9600 / 49) / 2)
    by (unfold mean, squareWaveFrequency; simpl; field).
  rewrite Hm in Hrun. apply Hrun.
  unfold inBand. cbn [MIN_FREQUENCY MAX_FREQUENCY demoConstants]. lra.
Defined.

Lemma silent_window_clears_buffer_witness :
  fst (detectPitch [0; 0; 0; 0] 400 true 0 afterSquareWave) = Return None
  /\ buffer (snd (detectPitch [0; 0; 0; 0] 400 true 0 afterSquareWave)) = [].
Proof.
  apply (@silent_window_clears_buffer demoConstants).
  - cbn [MIN_FREQUENCY demoConstants]. lra.
  - lra.
  - left. repeat constructor.
Defined.

(** ** getVolume *)

Lemma getVolume_loop (buffer : list Byte.byte) (s : R) (c : nat) :
  fold_left
    (fun '(sumSquares, count) b =>
       let normalized := byteValue b / 255 in
       (sumSquares + normalized * normalized, S count))
    buffer (s, c)
  = (s + fold_right
           (fun b s => (byteValue b / 255) * (byteValue b / 255) + s)
           0 buffer,
     (c + length buffer)%nat).
Proof.
  revert s c. induction buffer as [|b l IH]; intros s c; simpl.
  - f_equal; [lra|lia].
  - rewrite IH. f_equal; [lra|lia].
Qed.

(** [getVolume] in terms of the RMS of the buffer. *)
Lemma getVolume_unfold (buffer : list Byte.byte) :
  getVolume buffer
  = match buffer with
    | [] => -100
    | _ => if Reqb (normalizedRms buffer) 0 then -100
           else Rmax (-100) (Rmin 0 (20 * Math_log10 (normalizedRms buffer)))
    end.
Proof.
  unfold getVolume. rewrite getVolume_loop.
  destruct buffer as [|b l]; [reflexivity|].
  cbn [Nat.add length]. unfold normalizedRms, Math_sqrt.
  cbn [length]. rewrite Rplus_0_l. reflexivity.
Qed.

Lemma clamp_range (x : R) : -100 <= Rmax (-100) (Rmin 0 x) <= 0.
Proof.
  split.
  - apply Rmax_l.
  - apply Rmax_lub; [lra|apply Rmin_l].
Qed.

Lemma sumSquares_fullScale (buffer : list Byte.byte) :
  fullScale buffer ->
  fold_right (fun b s => (byteValue b / 255) * (byteValue b / 255) + s)
             0 buffer
  = INR (length buffer).
Proof.
  induction 1 as [|b l Hb _ IH].
  - reflexivity.
  - cbn [fold_right]. rewrite IH. subst b.
    change (byteValue Byte.xff) with 255.
    change (length (Byte.xff :: l)) with (S (length l)).
    rewrite S_INR. field.
Qed.

Lemma sumSquares_allSilent (buffer : list Byte.byte) :
  allSilent buffer ->
  fold_right (fun b s => (byteValue b / 255) * (byteValue b / 255) + s)
             0 buffer
  = 0.
Proof.
  induction 1 as [|b l Hb _ IH].
  - reflexivity.
  - cbn [fold_right]. rewrite IH. subst b.
    change (byteValue Byte.x00) with 0. field.
Qed.

(** C7.  [getVolume] returns [max(-100, min(0, 20*log10(rms)))], where
    [rms] is the root mean square of the bins scaled to [[0,1]], for every
    buffer that is not empty and whose RMS is not zero, and [-100] for the
    empty buffer and for an RMS of zero; so it returns exactly [-100] for an
    all-zero buffer, [0] for a full-scale constant buffer, and a value in
    [[-100, 0]] always. *)
Theorem getVolume_clamped_decibels (buffer : list Byte.byte) :
  (buffer <> [] -> normalizedRms buffer <> 0 ->
   getVolume buffer
   = Rmax (-100) (Rmin 0 (20 * Math_log10 (normalizedRms buffer))))
  /\ (buffer = [] \/ normalizedRms buffer = 0 -> getVolume buffer = -100)
  /\ (allSilent buffer -> getVolume buffer = -100)
  /\ (buffer <> [] -> fullScale buffer -> getVolume buffer = 0)
  /\ -100 <= getVolume buffer <= 0.
Proof.
  rewrite getVolume_unfold.
  split; [|split; [|split; [|split]]].
  - intros Hne Hrms. destruct buffer as [|b l]; [congruence|].
    destruct (Reqb _ 0) eqn:E; [|reflexivity].
    apply Reqb_true in E. contradiction.
  - intros [-> | Hrms]; [reflexivity|].
    destruct buffer as [|b l]; [reflexivity|].
    replace (Reqb (normalizedRms (b :: l)) 0) with true; [reflexivity|].
    symmetry. now apply Reqb_true.
  - intro Hs. destruct buffer as [|b l]; [reflexivity|].
    replace (Reqb (normalizedRms (b :: l)) 0) with true; [reflexivity|].
    symmetry. apply Reqb_true. unfold normalizedRms.
    rewrite (sumSquares_allSilent _ Hs).
    unfold Rdiv. rewrite Rmult_0_l. apply sqrt_0.
  - intros Hne Hf. destruct buffer as [|b l]; [congruence|].
    assert (Hrms : normalizedRms (b :: l) = 1).
    { unfold normalizedRms. rewrite (sumSquares_fullScale _ Hf).
      replace (INR (length (b :: l)) / INR (length (b :: l))) with 1.
      - apply sqrt_1.
      - field. apply not_0_INR. discriminate. }
    rewrite Hrms.
    replace (Reqb 1 0) with false
      by (unfold Reqb; destruct (Req_dec_T 1 0); [lra|reflexivity]).
    unfold Math_log10, Rlog. rewrite ln_1.
    unfold Rdiv. rewrite Rmult_0_l, Rmult_0_r.
    rewrite Rmin_left by lra. apply Rmax_right. lra.
  - destruct buffer as [|b l]; [lra|].
    destruct (Reqb _ 0); [lra|apply clamp_range].
Qed.

Lemma getVolume_clamped_decibels_witness :
  getVolume [Byte.xff; Byte.xff; Byte.xff] = 0
  /\ getVolume [Byte.x00; Byte.x00] = -100
  /\ getVolume [] = -100.
Proof.
  split; [|split].
  - apply getVolume_clamped_decibels; [discriminate|repeat constructor].
  - apply getVolume_clamped_decibels. repeat constructor.
  - apply (getVolume_clamped_decibels []). now left.
Defined.

(** ** Notes and frequencies *)

Lemma Rabs_le_inv (a b : R) : Rabs a <= b -> - b <= a <= b.
Proof. unfold Rabs. destruct (Rcase_abs a); lra. Qed.

Lemma ln_le (x y : R) : 0 < x -> x <= y -> ln x <= ln y.
Proof.
  intros Hx [Hlt | ->]; [|lra]. left. now apply ln_increasing.
Qed.

Lemma exp_le (x y : R) : x <= y -> exp x <= exp y.
Proof.
  intros [Hlt | ->]; [|lra]. left. now apply exp_increasing.
Qed.

Lemma ln2_pos : 0 < ln 2.
Proof. pose proof ln_lt_2. lra. Qed.

Lemma ln_quotient (x y : R) : 0 < x -> 0 < y -> ln (x / y) = ln x - ln y.
Proof.
  intros Hx Hy. unfold Rdiv.
  rewrite ln_mult by (auto using Rinv_0_lt_compat).
  rewrite ln_Rinv by assumption. lra.
Qed.

Lemma Math_round_bound (x : R) :
  IZR (Math_round x) - 1 / 2 <= x < IZR (Math_round x) + 1 / 2.
Proof.
  unfold Math_round. pose proof (Zfloor_bound (x + / 2)). lra.
Qed.

Lemma Math_round_le (x y : R) :
  x <= y -> (Math_round x <= Math_round y)%Z.
Proof. intro H. unfold Math_round. apply Zfloor_le. lra. Qed.

Lemma Math_round_eq (x : R) (n : Z) :
  IZR n - 1 / 2 <= x < IZR n + 1 / 2 -> Math_round x = n.
Proof. intro H. unfold Math_round. apply Zfloor_eq. lra. Qed.

Lemma semitonesFromA4_ln (f : R) :
  0 < f -> semitonesFromA4 f = 12 * ((ln f - ln 440) / ln 2).
Proof.
  intro Hf. unfold semitonesFromA4, Math_log2, Rlog, A4_FREQUENCY,
              SEMITONES_PER_OCTAVE.
  rewrite ln_quotient by lra. reflexivity.
Qed.

Lemma semitonesFromA4_le (f g : R) :
  0 < f -> f <= g -> semitonesFromA4 f <= semitonesFromA4 g.
Proof.
  intros Hf Hfg. rewrite !semitonesFromA4_ln by lra.
  pose proof (ln_le f g Hf Hfg). pose proof ln2_pos as HL.
  apply Rmult_le_compat_l; [lra|].
  apply Rmult_le_compat_r; [|lra].
  left. now apply Rinv_0_lt_compat.
Qed.

(** Two positive frequencies at most one semitone apart on the logarithmic
    scale are within a factor [2^(1/12)] of each other. *)
Lemma withinOneSemitone_intro (f t : R) :
  0 < f -> 0 < t ->
  Rabs (semitonesFromA4 t - semitonesFromA4 f) <= 1 ->
  withinOneSemitone f t.
Proof.
  intros Hf Ht Habs. rewrite !semitonesFromA4_ln in Habs by assumption.
  pose proof ln2_pos as HL.
  assert (Hd : Rabs (ln t - ln f) <= ln 2 / 12).
  { replace (12 * ((ln t - ln 440) / ln 2) - 12 * ((ln f - ln 440) / ln 2))
      with ((ln t - ln f) * (12 / ln 2)) in Habs by (field; lra).
    assert (Hpos : 0 < 12 / ln 2)
      by (apply Rdiv_lt_0_compat; lra).
    rewrite Rabs_mult, (Rabs_right (12 / ln 2)) in Habs by lra.
    apply Rmult_le_reg_r with (12 / ln 2); [exact Hpos|].
    replace (ln 2 / 12 * (12 / ln 2)) with 1 by (field; lra).
    exact Habs. }
  apply Rabs_le_inv in Hd.
  assert (Hs : semitone = exp (ln 2 / 12)).
  { unfold semitone, Rpower. f_equal. field. }
  unfold withinOneSemitone. rewrite Hs. split.
  - replace (f / exp (ln 2 / 12)) with (exp (ln f - ln 2 / 12)).
    + rewrite <- (exp_ln t Ht). apply exp_le. lra.
    + unfold Rminus, Rdiv at 2. rewrite exp_plus, exp_Ropp, exp_ln by lra.
      reflexivity.
  - replace (f * exp (ln 2 / 12)) with (exp (ln f + ln 2 / 12)).
    + rewrite <- (exp_ln t Ht). apply exp_le. lra.
    + rewrite exp_plus, exp_ln by lra. reflexivity.
Qed.

Section RoundTrip.
Context {K : AudioConstants}.

Lemma frequencyToNote_note (f : R) :
  note (frequencyToNote f) = fst (noteOfSemitone (nearestSemitone f)).
Proof.
  unfold frequencyToNote, nearestSemitone.
  now destruct (noteOfSemitone _).
Qed.

(** The round trip for any note table that covers the band: if
    [NOTE_FREQUENCIES] has, for every semitone the band can round to, a
    positive entry within half a semitone of the equal-tempered pitch, then
    [noteToFrequency (frequencyToNote f).note] is not absent and is within
    one semitone of [f]. *)
Lemma roundtrip_from_tableCovers (f : R) :
  0 < MIN_FREQUENCY -> tableCovers ->
  MIN_FREQUENCY <= f <= MAX_FREQUENCY ->
  exists t,
    noteToFrequency (note (frequencyToNote f)) = Some t
    /\ withinOneSemitone f t.
Proof.
  intros Hmin Htable [Hlo Hhi].
  assert (Hf : 0 < f) by lra.
  destruct (Htable (nearestSemitone f)) as (t & Ht & Htpos & Hclose).
  { unfold nearestSemitone.
    split; apply Math_round_le; apply semitonesFromA4_le; lra. }
  exists t. rewrite frequencyToNote_note. split; [exact Ht|].
  apply withinOneSemitone_intro; try assumption.
  pose proof (Math_round_bound (semitonesFromA4 f)) as Hr.
  fold (nearestSemitone f) in Hr.
  apply Rabs_le_inv in Hclose. apply Rabs_le. lra.
Qed.

End RoundTrip.

(** *** The table of the spectrogram, checked with integers *)

Lemma prop_centiHz (table : list (string * Z)) (k : string) :
  prop (map (fun e => (fst e, centiHz (snd e))) table) k
  = option_map centiHz (propZ table k).
Proof.
  induction table as [|[k' v] l IH]; simpl.
  - reflexivity.
  - rewrite IH. destruct (propZ l k); simpl; [reflexivity|].
    now destruct (String.eqb k' k).
Qed.

Lemma IZR_pow2 (k : Z) :
  (0 <= k)%Z -> IZR (2 ^ k) = 2 ^ Z.to_nat k.
Proof.
  intro Hk. rewrite pow_IZR. now rewrite Z2Nat.id.
Qed.

Lemma ln_pow2 (k : Z) : (0 <= k)%Z -> ln (IZR (2 ^ k)) = IZR k * ln 2.
Proof.
  intro Hk. rewrite IZR_pow2 by exact Hk.
  rewrite ln_pow by lra. rewrite INR_IZR_INZ, Z2Nat.id by exact Hk.
  reflexivity.
Qed.

Lemma ln_pow24 (p : Z) : (0 < p)%Z -> ln (IZR (p ^ 24)) = 24 * ln (IZR p).
Proof.
  intro Hp. change 24%Z with (Z.of_nat 24). rewrite <- pow_IZR.
  rewrite ln_pow by (now apply IZR_lt).
  f_equal. rewrite INR_IZR_INZ. reflexivity.
Qed.

(** The integer test is sound for the real logarithm. *)
Lemma inSemitoneWindow_sound (p q n : Z) :
  inSemitoneWindow p q n = true ->
  0 < IZR p /\ 0 < IZR q
  /\ IZR n - 1 / 2 <= 12 * Rlog 2 (IZR p / IZR q) < IZR n + 1 / 2.
Proof.
  unfold inSemitoneWindow. rewrite !andb_true_iff.
  intros [[[[Hp Hq] Hk] Hlow] Hupp].
  apply Z.ltb_lt in Hp, Hq, Hupp. apply Z.leb_le in Hk, Hlow.
  assert (HP : 0 < IZR p) by (now apply IZR_lt).
  assert (HQ : 0 < IZR q) by (now apply IZR_lt).
  assert (HP24 : 0 < IZR (p ^ 24)) by (apply IZR_lt; lia).
  assert (HQ24 : 0 < IZR (q ^ 24)) by (apply IZR_lt; lia).
  assert (H2 : forall k, (0 <= k)%Z -> 0 < IZR (2 ^ k))
    by (intros k Hk0; apply IZR_lt; lia).
  pose proof ln2_pos as HL.
  apply IZR_le in Hlow. apply IZR_lt in Hupp.
  rewrite !mult_IZR in Hlow, Hupp.
  apply ln_le in Hlow; [|apply Rmult_lt_0_compat; auto].
  apply ln_increasing in Hupp; [|apply Rmult_lt_0_compat; auto with zarith].
  rewrite !ln_mult in Hlow, Hupp by (auto with zarith).
  rewrite !ln_pow2, !ln_pow24 in Hlow, Hupp by lia.
  rewrite !plus_IZR, !mult_IZR in Hlow, Hupp.
  repeat split; try assumption; unfold Rlog; rewrite ln_quotient by assumption.
  - apply Rmult_le_reg_r with (ln 2); [exact HL|].
    replace (12 * ((ln (IZR p) - ln (IZR q)) / ln 2) * ln 2)
      with (12 * (ln (IZR p) - ln (IZR q))) by (field; lra).
    lra.
  - apply Rmult_lt_reg_r with (ln 2); [exact HL|].
    replace (12 * ((ln (IZR p) - ln (IZR q)) / ln 2) * ln 2)
      with (12 * (ln (IZR p) - ln (IZR q))) by (field; lra).
    lra.
Qed.

Lemma in_semitoneRange (lo n : Z) (count : nat) :
  (lo <= n < lo + Z.of_nat count)%Z -> In n (semitoneRange lo count).
Proof.
  intro H. unfold semitoneRange. apply in_map_iff.
  exists (Z.to_nat (n - lo)). split; [lia|]. apply in_seq. lia.
Qed.

Section TableCheck.
Context {K : AudioConstants}.
Variable table : list (string * Z).
Hypothesis table_is_NOTE_FREQUENCIES :
  NOTE_FREQUENCIES = map (fun e => (fst e, centiHz (snd e))) table.

(** An entry that passes the integer test is what [tableCovers] asks
    for. *)
Lemma entryInWindow_sound (n : Z) :
  entryInWindow table n = true ->
  exists t,
    noteToFrequency (fst (noteOfSemitone n)) = Some t
    /\ 0 < t
    /\ Rabs (semitonesFromA4 t - IZR n) <= 1 / 2.
Proof.
  unfold entryInWindow, noteToFrequency.
  rewrite table_is_NOTE_FREQUENCIES, prop_centiHz.
  destruct (propZ table _) as [p|]; [|discriminate].
  intro Hw. apply inSemitoneWindow_sound in Hw.
  destruct Hw as (Hp & _ & Hw).
  exists (centiHz p). split; [reflexivity|].
  assert (Hpos : 0 < centiHz p) by (unfold centiHz; lra).
  split; [exact Hpos|].
  unfold semitonesFromA4, Math_log2, A4_FREQUENCY, SEMITONES_PER_OCTAVE,
    centiHz.
  replace (IZR p / 100 / 440) with (IZR p / 44000) by (field; lra).
  apply Rabs_le. lra.
Qed.

Lemma tableCovers_by_check (lo hi : Z) :
  nearestSemitone MIN_FREQUENCY = lo ->
  nearestSemitone MAX_FREQUENCY = hi ->
  forallb (entryInWindow table)
          (semitoneRange lo (Z.to_nat (hi - lo + 1))) = true ->
  tableCovers.
Proof.
  intros Hlo Hhi Hall n Hn. rewrite Hlo, Hhi in Hn.
  apply entryInWindow_sound.
  rewrite forallb_forall in Hall. apply Hall.
  apply in_semitoneRange. lia.
Qed.

End TableCheck.

(** The nearest semitone of an integer frequency, by the integer test. *)
Lemma nearestSemitone_by_check (p n : Z) :
  inSemitoneWindow p 440 n = true -> nearestSemitone (IZR p) = n.
Proof.
  intro Hw. apply inSemitoneWindow_sound in Hw. destruct Hw as (_ & _ & Hw).
  unfold nearestSemitone. apply Math_round_eq.
  unfold semitonesFromA4, Math_log2, A4_FREQUENCY, SEMITONES_PER_OCTAVE.
  exact Hw.
Qed.

(** The band of 80 to 1050 Hz rounds to the semitones -30 (D#2) to 15
    (C6), and the table of the spectrogram covers them. *)
Lemma demo_tableCovers : @tableCovers demoConstants.
Proof.
  apply (@tableCovers_by_check demoConstants visualizerNotes eq_refl
           (-30) 15).
  - apply (nearestSemitone_by_check 80 (-30)). vm_compute. reflexivity.
  - apply (nearestSemitone_by_check 1050 15). vm_compute. reflexivity.
  - vm_compute. reflexivity.
Qed.

(** The example of the documentation: 440 Hz is A4, zero cents off. *)
Lemma frequencyToNote_440 :
  frequencyToNote 440
  = {| note := "A4"; cents := 0; frequency := 440; octave := 4 |}.
Proof.
  assert (Hs : semitonesFromA4 440 = 0).
  { unfold semitonesFromA4, Math_log2, Rlog, A4_FREQUENCY.
    replace (440 / 440) with 1 by lra. rewrite ln_1. lra. }
  unfold frequencyToNote. rewrite Hs.
  assert (Hr : Math_round 0 = 0%Z) by (apply Math_round_eq; simpl; lra).
  rewrite Hr.
  replace ((0 - 0) * 100) with 0 by lra. rewrite Hr.
  reflexivity.
Qed.

Lemma demo_roundtrip :
  (exists t,
      noteToFrequency (note (frequencyToNote 200)) = Some t
      /\ withinOneSemitone 200 t)
  /\ note (frequencyToNote 200) = "G3"%string
  /\ noteToFrequency "G3" = Some (centiHz 19600).
Proof.
  split; [|split].
  - apply (@roundtrip_from_tableCovers demoConstants 200).
    + cbn [MIN_FREQUENCY demoConstants]. lra.
    + exact demo_tableCovers.
    + cbn [MIN_FREQUENCY MAX_FREQUENCY demoConstants]. lra.
  - rewrite frequencyToNote_note.
    rewrite (nearestSemitone_by_check 200 (-14)) by (vm_compute; reflexivity).
    reflexivity.
  - reflexivity.
Qed.


(* ===================================================================== *)
(** * Part II, continued: further properties                              *)
(* ===================================================================== *)

(** ** The slice: invariants and frames *)

Section AudioSliceMore.
Variables Blob VocalAnalysis AudioMetrics : Type.

Local Notation "'State'" :=
  (AudioSliceState Blob VocalAnalysis AudioMetrics).
Local Notation "'Act'" := (Action Blob VocalAnalysis AudioMetrics).
Local Notation "'Session'" := (RecordingSession Blob VocalAnalysis).

Ltac slice_cases s :=
  destruct s as [st rec pau cs aset cm err dev];
  destruct st, rec, pau, cs; simpl in *.

Lemma flagsAgree_step (s : State) (a : Act) :
  flagsAgree s -> flagsAgree (reducer s a).
Proof.
  unfold flagsAgree.
  destruct a; slice_cases s; intros [H1 H2];
    try discriminate H1; try discriminate H2; split; reflexivity.
Qed.

(** The flags [isRecording] and [isPaused] never disagree with the status:
    in every reachable state [isRecording] holds exactly in [Recording] and
    [Paused], and [isPaused] exactly in [Paused].  So the flag checks that
    follow the status check in [startRecording], [pauseRecording],
    [resumeRecording] and [stopRecording] never fire: the guard of each of
    the ten user actions is decided by the status alone. *)
Theorem flags_follow_status (s : State) :
  reachable s ->
  isRecording s = canStopRecording (status s)
  /\ isPaused s = canResumeRecording (status s)
  /\ guard A_pauseRecording s = canPauseRecording (status s)
  /\ guard A_resumeRecording s = canResumeRecording (status s)
  /\ (forall d b, guard (A_stopRecording d b) s
                  = canStopRecording (status s))
  /\ (forall sid now, guard (A_startRecording sid now) s
                      = canStartRecording (status s)).
Proof.
  intro H.
  assert (Hf : flagsAgree s).
  { induction H as [|s a _ IH].
    - split; reflexivity.
    - now apply flagsAgree_step. }
  destruct Hf as [H1 H2]. split; [exact H1|]. split; [exact H2|].
  cbn [guard]. rewrite H1, H2.
  destruct (status s); repeat split; reflexivity.
Qed.

(** The machine enters [Error] only by [setError], by a failed
    initialization arriving in [Initializing], or by a failed analysis
    arriving in [Analyzing]; no other action, and none of these in another
    status, leads there. *)
Theorem error_only_by_failure (s : State) (a : Act) :
  status s <> Error -> status (reducer s a) = Error ->
  errorEntry a (status s) = true.
Proof.
  intros Hs Hr.
  destruct a; slice_cases s; try discriminate Hr; try reflexivity;
    try (exfalso; apply Hs; reflexivity);
    try (destruct payload; discriminate Hr).
Qed.

(** While a session lives, its [id] and [startTime] never change: only
    [startRecording] (which needs [Idle]) puts another session in its
    place. *)
Theorem session_identity_is_stable (s : State) (a : Act) (c c' : Session) :
  currentSession s = Some c ->
  currentSession (reducer s a) = Some c' ->
  (id c' = id c /\ startTime c' = startTime c)
  \/ (isStartRecording a = true /\ status s = Idle).
Proof.
  intros Hc Hc'.
  destruct a; slice_cases s; try discriminate Hc;
    injection Hc as <-; try discriminate Hc';
    try (injection Hc' as <-; left; split; reflexivity);
    try (right; split; reflexivity);
    try (destruct payload; injection Hc' as <-; left; split; reflexivity).
Qed.

(** Who writes what on a live session: the duration is written by
    [stopRecording] and [updateSessionDuration] in [Recording] or [Paused],
    the blob by [stopRecording] there, the analysis by [setAnalysis] and
    [analyzeRecording.fulfilled] in [Analyzing].  Any other action that
    keeps the session keeps the field. *)
Theorem session_fields_have_one_writer (s : State) (a : Act)
        (c c' : Session) :
  currentSession s = Some c ->
  currentSession (reducer s a) = Some c' ->
  isStartRecording a = false ->
  (writesDuration a (status s) = false -> duration c' = duration c)
  /\ (writesAudioBlob a (status s) = false -> audioBlob c' = audioBlob c)
  /\ (writesAnalysis a (status s) = false -> analysis c' = analysis c).
Proof.
  intros Hc Hc' Ha.
  destruct a; try discriminate Ha; slice_cases s; try discriminate Hc;
    injection Hc as <-; try discriminate Hc';
    try (injection Hc' as <-; repeat split; intros; try reflexivity;
         discriminate);
    try (destruct payload; injection Hc' as <-; repeat split; intros;
         try reflexivity; discriminate).
Qed.

(** Actions on devices and settings never disturb a recording: status,
    flags, session, metrics and error message stay as they are. *)
Theorem config_actions_frame (s : State) (a : Act) :
  isConfigAction a = true ->
  status (reducer s a) = status s
  /\ isRecording (reducer s a) = isRecording s
  /\ isPaused (reducer s a) = isPaused s
  /\ currentSession (reducer s a) = currentSession s
  /\ currentMetrics (reducer s a) = currentMetrics s
  /\ error (reducer s a) = error s.
Proof.
  intro Ha. destruct a; try discriminate Ha; repeat split.
Qed.

(** The whole cycle from an idle machine: start, pause, resume, stop and
    the analysis result bring the status back to [Idle] with the session
    carrying the id, the start time, the stamped duration and blob, and the
    analysis; the error message is cleared by the start. *)
Theorem full_cycle (s : State) (sessionId : string) (now d : Z)
        (b : option Blob) (r : option VocalAnalysis) :
  status s = Idle -> isRecording s = false ->
  let s' := dispatchAll s [A_startRecording sessionId now; A_pauseRecording;
                           A_resumeRecording; A_stopRecording d b;
                           A_setAnalysis r] in
  status s' = Idle
  /\ currentSession s'
     = Some {| id := sessionId; startTime := now; duration := d;
               audioBlob := b; analysis := r |}
  /\ isRecording s' = false /\ isPaused s' = false /\ error s' = None.
Proof.
  intros Hs Hr. slice_cases s; try discriminate Hs; try discriminate Hr;
    repeat split.
Qed.

(** Recovery: after [reset], after [resetSession], and after [clearError]
    in [Error] with no recording going on, [startRecording] succeeds and
    installs a fresh session. *)
Theorem start_after_recovery (s : State) (sessionId : string) (now : Z) :
  let fresh := Some {| id := sessionId; startTime := now; duration := 0;
                       audioBlob := None; analysis := None |} in
  (status (startRecording (reset s) sessionId now) = Recording
   /\ currentSession (startRecording (reset s) sessionId now) = fresh)
  /\ (status (startRecording (resetSession s) sessionId now) = Recording
      /\ currentSession (startRecording (resetSession s) sessionId now)
         = fresh)
  /\ (forall m,
         status (startRecording (clearError (setError s m)) sessionId now)
         = Recording
         /\ currentSession
              (startRecording (clearError (setError s m)) sessionId now)
            = fresh).
Proof. repeat split. Qed.

(** [setDevices] always replaces the list; it keeps a selection that is
    there (whether or not the device is still in the list), and otherwise
    selects the first device of a list that is not empty. *)
Theorem setDevices_selection (s : State) (payload : list MediaDeviceInfo) :
  available (devices (setDevices s payload)) = payload
  /\ (falsy (selected (devices s)) = false ->
      selected (devices (setDevices s payload)) = selected (devices s))
  /\ (falsy (selected (devices s)) = true ->
      selected (devices (setDevices s payload))
      = match payload with
        | d :: _ => Some (deviceId d)
        | [] => selected (devices s)
        end).
Proof.
  unfold setDevices. cbn [devices set_devices available selected].
  split; [reflexivity|]. split; intro H; destruct payload as [|d l];
    try reflexivity; now rewrite H.
Qed.

(** Two settings updates in a row are one update with the merged patch
    (later keys win); the empty patch changes nothing, and a patch applied
    twice is applied once. *)
Theorem updateSettings_merge (s : State) (p q : PartialAudioSettings) :
  updateSettings (updateSettings s p) q = updateSettings s (mergePartial p q)
  /\ audioSettings (updateSettings s noChange) = audioSettings s
  /\ updateSettings (updateSettings s p) p = updateSettings s p.
Proof.
  assert (Ho : forall (A : Type) (x y : option A) (d : A),
             override y (override x d) = override (later x y) d)
    by (intros A x [v|] d; reflexivity).
  assert (Hi : forall (A : Type) (x : option A) (d : A),
             override x (override x d) = override x d)
    by (intros A [v|] d; reflexivity).
  unfold updateSettings, mergePartial.
  cbn [audioSettings set_audioSettings sampleRate bufferSize fftSize
       channelCount echoCancellation noiseSuppression autoGainControl
       p_sampleRate p_bufferSize p_fftSize p_channelCount
       p_echoCancellation p_noiseSuppression p_autoGainControl status
       isRecording isPaused currentSession currentMetrics error devices
       noChange override].
  split; [|split].
  - rewrite !Ho. reflexivity.
  - now destruct (audioSettings s).
  - rewrite !Hi. reflexivity.
Qed.

End AudioSliceMore.

Lemma demoRecording_reachable : reachable demoRecording.
Proof. unfold demoRecording. apply reachable_dispatchAll. constructor. Qed.

Lemma flags_follow_status_witness :
  reachable demoRecording
  /\ isRecording demoRecording = true
  /\ guard A_pauseRecording demoRecording = true.
Proof.
  pose proof demoRecording_reachable as H.
  destruct (flags_follow_status unit unit unit demoRecording H)
    as (H1 & _ & H3 & _).
  split; [exact H|]. split; [exact H1|exact H3].
Defined.

Lemma error_only_by_failure_witness :
  status (reducer demoAnalyzing (A_analyzeRecording_rejected None)) = Error
  /\ errorEntry (A_analyzeRecording_rejected (Blob := unit)
                   (VocalAnalysis := unit) (AudioMetrics := unit) None)
                (status demoAnalyzing) = true.
Proof.
  split; [reflexivity|].
  apply (error_only_by_failure unit unit unit demoAnalyzing
           (A_analyzeRecording_rejected None)).
  - discriminate.
  - reflexivity.
Defined.

Lemma session_identity_is_stable_witness :
  currentSession demoAnalyzing = Some demoStopped
  /\ currentSession (reducer demoAnalyzing (A_setAnalysis (Some tt)))
     = Some demoAnalysed
  /\ ((id demoAnalysed = id demoStopped
       /\ startTime demoAnalysed = startTime demoStopped)
      \/ (isStartRecording (A_setAnalysis (Blob := unit)
                              (AudioMetrics := unit) (Some tt)) = true
          /\ status demoAnalyzing = Idle)).
Proof.
  split; [reflexivity|]. split; [reflexivity|].
  apply (session_identity_is_stable unit unit unit demoAnalyzing
           (A_setAnalysis (Some tt)) demoStopped demoAnalysed);
    reflexivity.
Defined.

Lemma session_fields_have_one_writer_witness :
  duration demoAnalysed = duration demoStopped
  /\ audioBlob demoAnalysed = audioBlob demoStopped.
Proof.
  destruct (session_fields_have_one_writer unit unit unit demoAnalyzing
              (A_setAnalysis (Some tt)) demoStopped demoAnalysed
              eq_refl eq_refl eq_refl) as (Hd & Hb & _).
  split; [apply Hd|apply Hb]; reflexivity.
Defined.

Lemma config_actions_frame_witness :
  status (reducer demoRecording (A_updateSettings demoPatch)) = Recording
  /\ currentSession (reducer demoRecording (A_setDevices [usbMic]))
     = currentSession demoRecording.
Proof.
  split.
  - apply (config_actions_frame unit unit unit demoRecording
             (A_updateSettings demoPatch) eq_refl).
  - apply (config_actions_frame unit unit unit demoRecording
             (A_setDevices [usbMic]) eq_refl).
Defined.

Lemma full_cycle_witness :
  status (dispatchAll demoDone
            [A_startRecording "s2" 9000; A_pauseRecording;
             A_resumeRecording; A_stopRecording 700 None;
             A_setAnalysis (Some tt)]) = Idle
  /\ currentSession (dispatchAll demoDone
                       [A_startRecording "s2" 9000; A_pauseRecording;
                        A_resumeRecording; A_stopRecording 700 None;
                        A_setAnalysis (Some tt)])
     = Some {| id := "s2"; startTime := 9000; duration := 700;
               audioBlob := None; analysis := Some tt |}.
Proof.
  destruct (full_cycle unit unit unit demoDone "s2"%string 9000%Z 700%Z
              None (Some tt) eq_refl eq_refl) as (H1 & H2 & _).
  split; [exact H1|exact H2].
Defined.

Lemma setDevices_selection_witness :
  selected (devices (setDevices demoRecording [usbMic; builtInMic]))
  = Some "usb-1"%string
  /\ selected (devices (setDevices
                          (setDevices demoRecording [usbMic; builtInMic])
                          [builtInMic]))
     = Some "usb-1"%string.
Proof.
  split.
  - apply (setDevices_selection unit unit unit demoRecording
             [usbMic; builtInMic]). reflexivity.
  - apply (setDevices_selection unit unit unit
             (setDevices demoRecording [usbMic; builtInMic]) [builtInMic]).
    reflexivity.
Defined.


(** ** The detector: its stages *)

Lemma peakAbs_nonneg (l : list R) : 0 <= peakAbs l.
Proof.
  induction l as [|x l IH]; cbn; [lra|].
  apply Rle_trans with (peakAbs l); [exact IH|apply Rmax_r].
Qed.

Lemma peakAbs_upper (l : list R) (x : R) : In x l -> Rabs x <= peakAbs l.
Proof.
  induction l as [|y l IH]; cbn; [tauto|].
  intros [-> | H].
  - apply Rmax_l.
  - apply Rle_trans with (peakAbs l); [now apply IH|apply Rmax_r].
Qed.

Lemma peakAbs_attained (l : list R) :
  0 < peakAbs l -> exists x, In x l /\ Rabs x = peakAbs l.
Proof.
  induction l as [|y l IH]; cbn [peakAbs fold_right]; [lra|].
  fold (peakAbs l). intro H.
  destruct (Rle_dec (Rabs y) (peakAbs l)) as [Hle|Hgt].
  - rewrite Rmax_right in * by exact Hle.
    destruct (IH H) as (x & Hx & Hm). exists x. split; [now right|exact Hm].
  - rewrite Rmax_left by lra. exists y. split; [now left|reflexivity].
Qed.

Lemma maxAbs_fold (l : list R) (acc : R) :
  0 <= acc ->
  fold_left (fun max x => if Rltb max (Rabs x) then Rabs x else max) l acc
  = Rmax acc (peakAbs l).
Proof.
  revert acc. induction l as [|x l IH]; intros acc Hacc.
  - cbn. now rewrite Rmax_left.
  - rewrite maxAbs_step, IH.
    + cbn [peakAbs fold_right]. fold (peakAbs l). now rewrite Rmax_assoc.
    + apply Rle_trans with acc; [exact Hacc|apply Rmax_l].
Qed.

Lemma normalizeBuffer_unfold (buffer : list R) :
  normalizeBuffer buffer
  = if Rltb 0 (peakAbs buffer)
    then map (fun x => x / peakAbs buffer) buffer
    else repeat 0 (length buffer).
Proof.
  unfold normalizeBuffer. rewrite maxAbs_fold by lra.
  rewrite Rmax_right by apply peakAbs_nonneg. reflexivity.
Qed.

Lemma allZero_repeat (n : nat) : allZero (repeat 0 n).
Proof. induction n; constructor; auto. Qed.

(** [normalizeBuffer] keeps the length and scales into [[-1, 1]]: every
    entry is the sample over the largest absolute value, some entry has
    absolute value 1 unless the window is all zeros, and an all-zero window
    (the empty one too) stays all zeros. *)
Theorem normalizeBuffer_unit_range (buffer : list R) :
  length (normalizeBuffer buffer) = length buffer
  /\ Forall (fun y => -1 <= y <= 1) (normalizeBuffer buffer)
  /\ (allZero buffer -> allZero (normalizeBuffer buffer))
  /\ (~ allZero buffer ->
      normalizeBuffer buffer = map (fun x => x / peakAbs buffer) buffer
      /\ Exists (fun y => Rabs y = 1) (normalizeBuffer buffer)).
Proof.
  rewrite normalizeBuffer_unfold.
  pose proof (peakAbs_nonneg buffer) as Hn.
  destruct (Rltb 0 (peakAbs buffer)) eqn:E.
  - apply Rltb_true in E. split; [apply length_map|]. split; [|split].
    + apply Forall_forall. intros y Hy. apply in_map_iff in Hy.
      destruct Hy as (x & <- & Hx).
      pose proof (peakAbs_upper buffer x Hx) as Hu.
      apply Rabs_le_inv in Hu.
      split.
      * apply Rmult_le_reg_r with (peakAbs buffer); [exact E|].
        unfold Rdiv. rewrite Rmult_assoc, Rinv_l by lra. lra.
      * apply Rmult_le_reg_r with (peakAbs buffer); [exact E|].
        unfold Rdiv. rewrite Rmult_assoc, Rinv_l by lra. lra.
    + intro Hz. exfalso.
      destruct (peakAbs_attained buffer E) as (x & Hx & Hm).
      unfold allZero in Hz. rewrite Forall_forall in Hz.
      rewrite (Hz x Hx), Rabs_R0 in Hm. lra.
    + intros _. split; [reflexivity|].
      destruct (peakAbs_attained buffer E) as (x & Hx & Hm).
      apply Exists_exists. exists (x / peakAbs buffer). split.
      * apply in_map_iff. exists x. auto.
      * unfold Rdiv. rewrite Rabs_mult, Hm.
        rewrite Rabs_inv, (Rabs_right (peakAbs buffer)) by lra.
        apply Rinv_r. lra.
  - apply Rltb_false in E. split; [apply repeat_length|]. split; [|split].
    + apply Forall_forall. intros y Hy. apply repeat_spec in Hy. lra.
    + intros _. apply allZero_repeat.
    + intro Hz. exfalso. apply Hz. apply Forall_forall. intros x Hx.
      pose proof (peakAbs_upper buffer x Hx) as Hu.
      assert (Rabs x = 0) by (pose proof (Rabs_pos x); lra).
      destruct (Req_dec x 0) as [H0|H0]; [exact H0|].
      apply Rabs_no_R0 in H0. contradiction.
Qed.

(** *** Sums over index ranges *)

Lemma fold_left_index_sum (f : nat -> R) (l : list nat) (acc : R) :
  fold_left (fun sum i => sum + f i) l acc
  = acc + fold_right (fun i s => f i + s) 0 l.
Proof.
  revert acc. induction l as [|i l IH]; intro acc; cbn.
  - lra.
  - rewrite IH. lra.
Qed.

Lemma index_sum_app (f : nat -> R) (l1 l2 : list nat) :
  fold_right (fun i s => f i + s) 0 (l1 ++ l2)
  = fold_right (fun i s => f i + s) 0 l1
    + fold_right (fun i s => f i + s) 0 l2.
Proof. induction l1 as [|i l IH]; cbn; [lra|]. rewrite IH. lra. Qed.

Lemma index_sum_nonneg (f : nat -> R) (l : list nat) :
  (forall i, 0 <= f i) -> 0 <= fold_right (fun i s => f i + s) 0 l.
Proof.
  intro H. induction l as [|i l IH]; cbn; [lra|]. specialize (H i). lra.
Qed.

Lemma index_sum_le (f g : nat -> R) (l : list nat) :
  (forall i, f i <= g i) ->
  fold_right (fun i s => f i + s) 0 l
  <= fold_right (fun i s => g i + s) 0 l.
Proof.
  intro H. induction l as [|i l IH]; cbn; [lra|]. specialize (H i). lra.
Qed.

Lemma index_sum_plus (f g : nat -> R) (l : list nat) :
  fold_right (fun i s => (f i + g i) + s) 0 l
  = fold_right (fun i s => f i + s) 0 l
    + fold_right (fun i s => g i + s) 0 l.
Proof. induction l as [|i l IH]; cbn; [lra|]. rewrite IH. lra. Qed.

Lemma index_sum_shift (f : nat -> R) (k start len : nat) :
  fold_right (fun i s => f (i + k)%nat + s) 0 (seq start len)
  = fold_right (fun i s => f i + s) 0 (seq (start + k) len).
Proof.
  revert start. induction len as [|len IH]; intro start; cbn; [reflexivity|].
  rewrite IH. reflexivity.
Qed.

Lemma index_sum_map_S (g : nat -> R) (r : list nat) :
  fold_right (fun i s => g i + s) 0 (map S r)
  = fold_right (fun i s => g (S i) + s) 0 r.
Proof. induction r as [|i r IH]; cbn; [reflexivity|]. now rewrite IH. Qed.

(** The energy as a sum over the indices. *)
Lemma energy_index_sum (l : list R) :
  energy l
  = fold_right (fun i s => nth i l 0 * nth i l 0 + s) 0 (seq 0 (length l)).
Proof.
  induction l as [|x l IH]; [reflexivity|].
  cbn [length seq]. rewrite <- seq_shift.
  cbn [fold_right energy]. fold (energy l).
  rewrite (index_sum_map_S (fun i => nth i (x :: l) 0 * nth i (x :: l) 0)).
  cbn [nth]. now rewrite IH.
Qed.

(** A part of the index range carries at most the whole energy. *)
Lemma partial_energy_le (l : list R) (start len : nat) :
  (start + len <= length l)%nat ->
  fold_right (fun i s => nth i l 0 * nth i l 0 + s) 0 (seq start len)
  <= energy l.
Proof.
  intro H. rewrite energy_index_sum.
  replace (length l) with (start + (len + (length l - start - len)))%nat
    by lia.
  rewrite !seq_app, !index_sum_app.
  pose proof (index_sum_nonneg (fun i => nth i l 0 * nth i l 0)
                (seq 0 start) (fun i => Rle_0_sqr (nth i l 0))).
  pose proof (index_sum_nonneg (fun i => nth i l 0 * nth i l 0)
                (seq (0 + start + len) (length l - start - len))
                (fun i => Rle_0_sqr (nth i l 0))).
  cbn [Nat.add] in *. lra.
Qed.

Lemma sumSquares_energy (l : list R) : sumSquares l = energy l.
Proof.
  unfold sumSquares, energy.
  assert (H : forall acc,
             fold_left (fun s x => s + x * x) l acc
             = acc + fold_right (fun x s => x * x + s) 0 l).
  { induction l as [|x r IH]; intro acc; cbn; [lra|]. rewrite IH. lra. }
  rewrite H. lra.
Qed.

Lemma lagSum_index_sum (buffer : list R) (lag : nat) :
  lagSum buffer lag
  = fold_right (fun i s => nth i buffer 0 * nth (i + lag) buffer 0 + s) 0
               (seq 0 (length buffer - lag)).
Proof.
  unfold lagSum.
  rewrite (fold_left_index_sum
             (fun i => nth i buffer 0 * nth (i + lag) buffer 0)).
  lra.
Qed.

(** No lag correlates more than lag zero. *)
Lemma lagSum_bounded (buffer : list R) (lag : nat) :
  - energy buffer <= lagSum buffer lag <= energy buffer.
Proof.
  rewrite lagSum_index_sum.
  set (n := (length buffer - lag)%nat).
  set (x := fun i => nth i buffer 0).
  assert (H1 : fold_right (fun i s => x i * x i + s) 0 (seq 0 n)
               <= energy buffer)
    by (apply partial_energy_le; subst n; lia).
  assert (H2 : fold_right (fun i s => x (i + lag)%nat * x (i + lag)%nat + s)
                          0 (seq 0 n) <= energy buffer).
  { rewrite (index_sum_shift (fun i => x i * x i) lag 0 n).
    destruct (Nat.le_gt_cases lag (length buffer)) as [Hl|Hl].
    - apply partial_energy_le. subst n. lia.
    - subst n. replace (length buffer - lag)%nat with 0%nat by lia.
      cbn. rewrite energy_index_sum. apply index_sum_nonneg.
      intro i. apply Rle_0_sqr. }
  pose proof (index_sum_plus (fun i => x i * x i)
                (fun i => x (i + lag)%nat * x (i + lag)%nat) (seq 0 n)) as Hp.
  change (- energy buffer
          <= fold_right (fun i s => x i * x (i + lag)%nat + s) 0 (seq 0 n)
          <= energy buffer).
  split.
  - assert (H : fold_right
                  (fun i s => - (x i * x i + x (i + lag)%nat
                                             * x (i + lag)%nat) / 2 + s)
                  0 (seq 0 n)
                <= fold_right (fun i s => x i * x (i + lag)%nat + s) 0
                              (seq 0 n)).
    { apply index_sum_le. intro i.
      pose proof (Rle_0_sqr (x i + x (i + lag)%nat)). unfold Rsqr in *.
      lra. }
    assert (Hs : forall l,
               fold_right
                 (fun i s => - (x i * x i + x (i + lag)%nat
                                            * x (i + lag)%nat) / 2 + s) 0 l
               = - (fold_right
                      (fun i s => (x i * x i + x (i + lag)%nat
                                               * x (i + lag)%nat) + s) 0 l)
                 / 2).
    { induction l as [|i l IH]; cbn; [lra|]. rewrite IH. lra. }
    rewrite Hs, Hp in H. cbv beta in *. lra.
  - assert (H : fold_right (fun i s => x i * x (i + lag)%nat + s) 0
                           (seq 0 n)
                <= fold_right
                     (fun i s => (x i * x i + x (i + lag)%nat
                                              * x (i + lag)%nat) / 2 + s)
                     0 (seq 0 n)).
    { apply index_sum_le. intro i.
      pose proof (Rle_0_sqr (x i - x (i + lag)%nat)). unfold Rsqr in *.
      lra. }
    assert (Hs : forall l,
               fold_right
                 (fun i s => (x i * x i + x (i + lag)%nat
                                          * x (i + lag)%nat) / 2 + s) 0 l
               = (fold_right
                    (fun i s => (x i * x i + x (i + lag)%nat
                                             * x (i + lag)%nat) + s) 0 l)
                 / 2).
    { induction l as [|i l IH]; cbn; [lra|]. rewrite IH. lra. }
    rewrite Hs, Hp in H. cbv beta in *. lra.
Qed.

Lemma index_sum_ext (f g : nat -> R) (l : list nat) :
  (forall i, f i = g i) ->
  fold_right (fun i s => f i + s) 0 l = fold_right (fun i s => g i + s) 0 l.
Proof.
  intro H. induction l as [|i l IH]; cbn; [reflexivity|].
  now rewrite IH, H.
Qed.

Lemma lagSum_0 (buffer : list R) : lagSum buffer 0 = energy buffer.
Proof.
  rewrite lagSum_index_sum, energy_index_sum, Nat.sub_0_r.
  apply (index_sum_ext
           (fun i => nth i buffer 0 * nth (i + 0) buffer 0)
           (fun i => nth i buffer 0 * nth i buffer 0)).
  intro i. now rewrite Nat.add_0_r.
Qed.

Lemma lagSum_beyond (buffer : list R) (lag : nat) :
  (length buffer <= lag)%nat -> lagSum buffer lag = 0.
Proof.
  intro H. unfold lagSum.
  replace (length buffer - lag)%nat with 0%nat by lia. reflexivity.
Qed.

Lemma get_map_seq (f : nat -> R) (n : nat) (i : Z) (v : R) :
  get (map f (seq 0 n)) i = Some v ->
  (0 <= i < Z.of_nat n)%Z /\ v = f (Z.to_nat i).
Proof.
  unfold get. destruct (i <? 0)%Z eqn:E; [discriminate|].
  apply Z.ltb_ge in E. intro H.
  assert (Hlt : (Z.to_nat i < n)%nat).
  { rewrite <- (length_seq n 0), <- (length_map f).
    apply nth_error_Some. congruence. }
  split; [lia|].
  rewrite nth_error_map, nth_error_seq in H.
  replace (Z.to_nat i <? n)%nat with true in H
    by (symmetry; now apply Nat.ltb_lt).
  cbn in H. congruence.
Qed.

Lemma frequencyToNote_frequency {K : AudioConstants} (f : R) :
  frequency (frequencyToNote f) = f.
Proof. unfold frequencyToNote. now destruct (noteOfSemitone _). Qed.

Section StagesTheory.
Context {K : AudioConstants}.

(** The facts about a returned autocorrelation that the later proofs
    use. *)
Lemma autocorrelate_bounded_by_energy_aux (buffer : list R)
      (sampleRate : R) (ac : list R) :
  autocorrelate buffer sampleRate = Return ac ->
  (forall m, get ac 0 = Some m -> m = energy buffer)
  /\ (forall lag v, get ac lag = Some v -> v <= energy buffer).
Proof.
  unfold autocorrelate. destruct (new_Float32Array _); [|discriminate].
  intros [= <-]. split.
  - intros m Hm. apply get_map_seq in Hm. destruct Hm as [_ ->].
    apply lagSum_0.
  - intros lag v Hv. apply get_map_seq in Hv. destruct Hv as [_ ->].
    apply lagSum_bounded.
Qed.

(** [autocorrelate] raises exactly when [floor(sampleRate / MIN_FREQUENCY)]
    is negative; otherwise it returns that many lags, the value at lag 0 is
    the energy of the window, no lag has a larger absolute value, and every
    lag from the length of the window on is zero. *)
Theorem autocorrelate_bounded_by_energy (buffer : list R)
        (sampleRate : R) :
  let n := Math_floor (sampleRate / MIN_FREQUENCY) in
  ((n < 0)%Z -> autocorrelate buffer sampleRate = RangeError)
  /\ ((0 <= n)%Z ->
      exists ac,
        autocorrelate buffer sampleRate = Return ac
        /\ length ac = Z.to_nat n
        /\ ((0 < n)%Z -> get ac 0 = Some (energy buffer))
        /\ (forall lag v,
               get ac lag = Some v ->
               - energy buffer <= v <= energy buffer)
        /\ (forall lag v,
               (Z.of_nat (length buffer) <= lag)%Z ->
               get ac lag = Some v -> v = 0)).
Proof.
  intro n. unfold autocorrelate, new_Float32Array. fold n. split.
  - intro H. apply Z.ltb_lt in H. now rewrite H.
  - intro H. replace (n <? 0)%Z with false
      by (symmetry; now apply Z.ltb_ge).
    eexists. split; [reflexivity|].
    split; [now rewrite length_map, length_seq|]. split; [|split].
    + intro Hpos. unfold get. cbn [Z.ltb Z.compare Z.to_nat].
      destruct (Z.to_nat n) as [|m] eqn:E; [lia|].
      cbn [seq map nth_error]. now rewrite lagSum_0.
    + intros lag v Hv. apply get_map_seq in Hv. destruct Hv as [_ ->].
      apply lagSum_bounded.
    + intros lag v Hl Hv. apply get_map_seq in Hv. destruct Hv as [Hr ->].
      apply lagSum_beyond. lia.
Qed.

(** What a peak returned by [findPeak] is. *)
Lemma findPeak_Some_inv (a : list R) (sampleRate : R) (pk : Peak) :
  findPeak a sampleRate = Some pk ->
  localMax a (index pk)
  /\ exists y,
      get a (index pk) = Some y
      /\ peakConfidence pk
         = match get a 0 with
           | Some m => if Rltb 0 m then y / m else 0
           | None => 0
           end.
Proof.
  unfold findPeak.
  pose proof (peakLoop_spec a
                (Z.to_nat (maxSamples sampleRate - 1
                           - zeroCrossing a sampleRate))
                (zeroCrossing a sampleRate) (-1)%Z None) as Hloop.
  destruct (peakLoop a _ _ (-1) None) as [p v].
  destruct Hloop as [(-> & _) | (_ & Hpm & -> & _)].
  - discriminate.
  - destruct (isLocalMax_defined a p Hpm) as (w & Hw & Hp1).
    replace (p =? -1)%Z with false by (symmetry; apply Z.eqb_neq; lia).
    intros [= <-]. cbn [index peakConfidence].
    split; [now apply isLocalMax_true|].
    exists w. split; [exact Hw|]. rewrite Hw.
    destruct (get a 0); reflexivity.
Qed.

(** [parabolicInterpolation] returns the lag itself at the ends of the
    array, and at a strict local maximum moves it by less than half a lag.
    So for a peak of [findPeak] and a positive sample rate, the raw
    frequency lies strictly between the frequencies of the lags half a step
    to either side. *)
Theorem interpolation_within_half_lag (a : list R) (sampleRate : R) :
  (forall p : Z,
      (p <= 0)%Z \/ (Z.of_nat (length a) - 1 <= p)%Z ->
      parabolicInterpolation a p = IZR p)
  /\ (forall p : Z,
         localMax a p ->
         IZR p - 1 / 2 < parabolicInterpolation a p < IZR p + 1 / 2)
  /\ (forall pk : Peak,
         findPeak a sampleRate = Some pk -> 0 < sampleRate ->
         sampleRate / (IZR (index pk) + 1 / 2)
         < rawFrequency sampleRate a pk
         < sampleRate / (IZR (index pk) - 1 / 2)).
Proof.
  assert (Hmid : forall p : Z,
             localMax a p ->
             (1 <= p)%Z
             /\ IZR p - 1 / 2 < parabolicInterpolation a p < IZR p + 1 / 2).
  { intros p (y0 & y1 & y2 & H0 & H1 & H2 & H01 & H21).
    assert (Hp : (1 <= p)%Z).
    { unfold get in H0. destruct (p - 1 <? 0)%Z eqn:E; [discriminate|].
      apply Z.ltb_ge in E. lia. }
    assert (Hlen : (p + 1 < Z.of_nat (length a))%Z).
    { unfold get in H2. destruct (p + 1 <? 0)%Z; [discriminate|].
      assert (Hn : (Z.to_nat (p + 1) < length a)%nat)
        by (apply nth_error_Some; congruence).
      lia. }
    split; [exact Hp|].
    unfold parabolicInterpolation.
    replace ((p <=? 0) || (Z.of_nat (length a) - 1 <=? p))%Z with false.
    2:{ symmetry. apply orb_false_iff. split; apply Z.leb_gt; lia. }
    assert (Hnth : forall i v, get a i = Some v ->
                               nth (Z.to_nat i) a 0 = v).
    { intros i v Hv. unfold get in Hv.
      destruct (i <? 0)%Z; [discriminate|].
      now apply nth_error_nth. }
    rewrite (Hnth _ _ H0), (Hnth _ _ H1), (Hnth _ _ H2).
    assert (Hd : y0 - 2 * y1 + y2 < 0) by lra.
    assert (Hq : - (1 / 2) < 5 / 10 * (y0 - y2) / (y0 - 2 * y1 + y2)
                 < 1 / 2).
    { split.
      - apply Rmult_lt_reg_r with (- (y0 - 2 * y1 + y2)); [lra|].
        replace (5 / 10 * (y0 - y2) / (y0 - 2 * y1 + y2)
                 * - (y0 - 2 * y1 + y2))
          with (- (5 / 10 * (y0 - y2))) by (field; lra).
        lra.
      - apply Rmult_lt_reg_r with (- (y0 - 2 * y1 + y2)); [lra|].
        replace (5 / 10 * (y0 - y2) / (y0 - 2 * y1 + y2)
                 * - (y0 - 2 * y1 + y2))
          with (- (5 / 10 * (y0 - y2))) by (field; lra).
        lra. }
    lra. }
  split; [|split].
  - intros p Hp. unfold parabolicInterpolation.
    replace ((p <=? 0) || (Z.of_nat (length a) - 1 <=? p))%Z with true;
      [reflexivity|].
    symmetry. apply orb_true_iff.
    destruct Hp as [Hp|Hp]; [left|right]; now apply Z.leb_le.
  - intros p Hp. apply Hmid. exact Hp.
  - intros pk Hpk Hsr.
    destruct (findPeak_Some_inv a sampleRate pk Hpk) as [Hm _].
    destruct (Hmid _ Hm) as [Hp1 [Hlo Hhi]].
    apply IZR_le in Hp1. unfold rawFrequency.
    set (x := parabolicInterpolation a (index pk)) in *.
    assert (Hx : 0 < x) by lra.
    unfold Rdiv. split; apply Rmult_lt_compat_l; try exact Hsr;
      apply Rinv_lt_contravar; try lra.
    + apply Rmult_lt_0_compat; lra.
    + apply Rmult_lt_0_compat; lra.
Qed.

(** Every pitch [detectPitch] reports is well formed: its frequency lies in
    the band, its note data is [frequencyToNote] of that frequency, its
    timestamp is the clock, and its confidence lies between
    [MIN_CONFIDENCE_THRESHOLD] and 1.  The autocorrelation never exceeds
    its value at lag 0, so the cap [Math.min(confidence, 1)] leaves the
    ratio as it is. *)
Theorem detectPitch_result_well_formed (window : list R) (sampleRate : R)
        (enableSmoothing : bool) (now : Z) (sb sb' : PitchSmoothingBuffer)
        (r : PitchData) :
  detectPitch window sampleRate enableSmoothing now sb
  = (Return (Some r), sb') ->
  MIN_FREQUENCY <= frequency (noteData r) <= MAX_FREQUENCY
  /\ noteData r = frequencyToNote (frequency (noteData r))
  /\ timestamp r = now
  /\ MIN_CONFIDENCE_THRESHOLD <= confidence r <= 1
  /\ exists ac pk,
      accepted window sampleRate ac pk
      /\ confidence r = peakConfidence pk.
Proof.
  intro Hrun.
  destruct (detectPitch_Some_inv _ _ _ _ _ _ _ Hrun)
    as (ac & pk & Hacc & _ & _ & Hband & Hconf).
  assert (Hle : peakConfidence pk <= 1).
  { destruct Hacc as (_ & Hac & Hpk & _).
    destruct (findPeak_Some_inv ac sampleRate pk Hpk)
      as [_ (y & Hy & ->)].
    pose proof (autocorrelate_bounded_by_energy_aux
                  (normalizeBuffer window) sampleRate ac Hac) as [H0 Hb].
    destruct (get ac 0) as [m|] eqn:Em; [|lra].
    destruct (Rltb 0 m) eqn:E; [|lra].
    apply Rltb_true in E. specialize (H0 m eq_refl). subst m.
    specialize (Hb _ _ Hy).
    apply Rmult_le_reg_r with (energy (normalizeBuffer window)); [exact E|].
    unfold Rdiv. rewrite Rmult_assoc, Rinv_l by lra. lra. }
  assert (Hc : confidence r = peakConfidence pk)
    by (rewrite Hconf; now apply Rmin_left).
  split; [exact Hband|].
  rewrite (detectPitch_accepted window sampleRate enableSmoothing now sb
             ac pk Hacc) in Hrun.
  cbv zeta in Hrun. destruct (_ || _) in Hrun; [discriminate|].
  injection Hrun as Hr _. rewrite <- Hr in *.
  cbn [noteData timestamp confidence] in *.
  split; [now rewrite frequencyToNote_frequency|].
  split; [reflexivity|]. split.
  - destruct Hacc as (_ & _ & _ & Hmin). rewrite Hc.
    split; [exact Hmin|exact Hle].
  - exists ac, pk. split; [exact Hacc|exact Hc].
Qed.

End StagesTheory.

(** ** The detector: sensitivity and smoothing *)

Section SensitivityTheory.
Context {K : AudioConstants}.

Lemma thresholds_order :
  thresholds high <= thresholds medium <= thresholds low.
Proof. cbn [thresholds]. lra. Qed.

(** The sensitivity filter only ever withholds a result: it leaves the
    smoothing buffer as [detectPitch] left it, returns either nothing or
    the very result of [detectPitch] (whose confidence reaches the
    threshold), accepts at a more sensitive setting whatever it accepts at
    a less sensitive one, and is the same filter in
    [detectPitchWithSensitivity] and in [processAudioData] /
    [calculateMetrics]. *)
Theorem sensitivity_filter_only_withholds (timeDomainData : list R)
        (sampleRate : R) (now : Z) (sb : PitchSmoothingBuffer) :
  (forall sensitivity,
      snd (detectPitchWithSensitivity timeDomainData sampleRate sensitivity
                                      now sb)
      = snd (detectPitch timeDomainData sampleRate true now sb))
  /\ (forall sensitivity r sb',
         detectPitchWithSensitivity timeDomainData sampleRate sensitivity
                                    now sb = (Return (Some r), sb') ->
         detectPitch timeDomainData sampleRate true now sb
         = (Return (Some r), sb')
         /\ thresholds sensitivity <= confidence r)
  /\ (forall r sb',
         detectPitchWithSensitivity timeDomainData sampleRate low now sb
         = (Return (Some r), sb') ->
         detectPitchWithSensitivity timeDomainData sampleRate medium now sb
         = (Return (Some r), sb')
         /\ detectPitchWithSensitivity timeDomainData sampleRate high now sb
            = (Return (Some r), sb'))
  /\ (forall sensitivity frequencyData byteFrequencyData now' m sb',
         processAudioData timeDomainData frequencyData byteFrequencyData
                          sampleRate sensitivity now now' sb = (Some m, sb')
         -> detectPitchWithSensitivity timeDomainData sampleRate sensitivity
                                       now sb
            = (Return (Extended.pitch m), sb')).
Proof.
  unfold detectPitchWithSensitivity, processAudioData.
  destruct (detectPitch timeDomainData sampleRate true now sb)
    as [[[r0|]|] sb0].
  - split; [|split; [|split]].
    + intro s. now destruct (Rltb _ _).
    + intros s r sb'. destruct (Rltb _ _) eqn:E; [discriminate|].
      intros [= <- <-]. split; [reflexivity|]. now apply Rltb_false.
    + intros r sb'. destruct (Rltb _ (thresholds low)) eqn:E; [discriminate|].
      intros [= <- <-]. apply Rltb_false in E.
      pose proof thresholds_order as [Hh Hm].
      replace (Rltb (confidence r0) (thresholds medium)) with false
        by (symmetry; apply Rltb_false; lra).
      replace (Rltb (confidence r0) (thresholds high)) with false
        by (symmetry; apply Rltb_false; lra).
      split; reflexivity.
    + intros s fd bd now' m sb' [= <- <-]. cbn [Extended.pitch].
      rewrite Rleb_Rltb. now destruct (Rltb _ _).
  - split; [|split; [|split]].
    + reflexivity.
    + intros s r sb'. discriminate.
    + intros r sb'. discriminate.
    + intros s fd bd now' m sb' [= <- <-]. reflexivity.
  - split; [|split; [|split]].
    + reflexivity.
    + intros s r sb'. discriminate.
    + intros r sb'. discriminate.
    + intros s fd bd now' m sb'. discriminate.
Qed.

(** After [clearPitchSmoothing] (room for one entry), a smoothing-enabled
    call reports exactly what a call without smoothing reports: the first
    frame after a clear is not smoothed. *)
Theorem cleared_buffer_reports_raw (window : list R) (sampleRate : R)
        (now : Z) (sb other : PitchSmoothingBuffer) :
  (1 <= maxSize sb)%Z ->
  fst (detectPitch window sampleRate true now (clearPitchSmoothing sb))
  = fst (detectPitch window sampleRate false now other).
Proof.
  intro H1. unfold detectPitch, clearPitchSmoothing.
  destruct (ltJS _ _); [reflexivity|].
  destruct (autocorrelate _ _) as [ac|]; [|reflexivity].
  destruct (findPeak _ _) as [pk|]; [|reflexivity].
  destruct (Rltb (peakConfidence pk) _); [reflexivity|].
  cbn [when].
  set (raw := sampleRate / parabolicInterpolation ac (index pk)).
  assert (Ha : add (clear sb) raw = {| buffer := [raw];
                                       maxSize := maxSize sb |}).
  { unfold add, clear. cbn [buffer maxSize app length].
    replace (Z.of_nat 1 >? maxSize sb)%Z with false; [reflexivity|].
    symmetry. rewrite Z.gtb_ltb. apply Z.ltb_ge. lia. }
  rewrite Ha.
  replace (getSmoothed {| buffer := [raw]; maxSize := maxSize sb |})
    with raw by (unfold getSmoothed; cbn; field).
  now destruct (_ || _).
Qed.

End SensitivityTheory.

(** ** Notes, cents and offsets *)

Lemma Math_round_IZR (n : Z) : Math_round (IZR n) = n.
Proof. apply Math_round_eq. lra. Qed.

Lemma log2_Rpower (y : R) : Math_log2 (Rpower 2 y) = y.
Proof.
  unfold Math_log2, Rlog. rewrite ln_Rpower. field.
  pose proof ln2_pos. lra.
Qed.

Lemma Rpower2_pos (y : R) : 0 < Rpower 2 y.
Proof. unfold Rpower. apply exp_pos. Qed.

Lemma log2_mult (x y : R) :
  0 < x -> 0 < y -> Math_log2 (x * y) = Math_log2 x + Math_log2 y.
Proof.
  intros Hx Hy. unfold Math_log2, Rlog. rewrite ln_mult by assumption.
  field. pose proof ln2_pos. lra.
Qed.

Lemma log2_2 : Math_log2 2 = 1.
Proof. unfold Math_log2, Rlog. field. pose proof ln2_pos. lra. Qed.

(** The remainder of JavaScript, made non-negative, is the modulus. *)
Lemma normalized_rem (a : Z) :
  (if (0 <=? Z.rem a 12)%Z then Z.rem a 12 else (Z.rem a 12 + 12)%Z)
  = (a mod 12)%Z.
Proof.
  destruct (0 <=? Z.rem a 12)%Z eqn:E;
    [apply Z.leb_le in E | apply Z.leb_gt in E];
    pose proof (Z.quot_rem' a 12) as Hq;
    apply Z.mod_unique_pos with (q := (if (0 <=? Z.rem a 12)%Z
                                       then Z.quot a 12
                                       else Z.quot a 12 - 1)%Z);
    destruct (0 <=? Z.rem a 12)%Z eqn:E';
    try (apply Z.leb_le in E'); try (apply Z.leb_gt in E'); try lia;
    pose proof (Z.rem_bound_abs a 12); lia.
Qed.

Section NotesTheory.
Context {K : AudioConstants}.

Lemma noteOfSemitone_mod (n : Z) :
  noteOfSemitone n
  = ((nth (Z.to_nat ((9 + n) mod 12)) NOTE_NAMES "undefined"
          ++ Z_toString (4 + (9 + n) / 12))%string,
     (4 + (9 + n) / 12)%Z).
Proof.
  unfold noteOfSemitone, SEMITONES_PER_OCTAVE. cbv zeta.
  now rewrite normalized_rem.
Qed.

(** [frequencyToNote] reports a deviation of at most 50 cents either way
    for every positive frequency. *)
Theorem cents_within_half_semitone (frequency : R) :
  0 < frequency ->
  (-50 <= cents (frequencyToNote frequency) <= 50)%Z.
Proof.
  intros _. unfold frequencyToNote.
  destruct (noteOfSemitone _) as [nm oc]. cbn [cents].
  pose proof (Math_round_bound (semitonesFromA4 frequency)) as Hb.
  set (s := semitonesFromA4 frequency) in *.
  set (n := Math_round s) in *.
  split.
  - rewrite <- (Math_round_IZR (-50)). apply Math_round_le. lra.
  - rewrite <- (Math_round_IZR 50). apply Math_round_le. lra.
Qed.

(** The note name for every positive frequency, below A4 too: the index
    into [NOTE_NAMES] is [(9 + n) mod 12], never negative, so a table of
    twelve names always yields one of its names, and the octave is
    [4 + floor((9 + n) / 12)].  (For a frequency that is not positive the
    source computes with [-Infinity] or [NaN].) *)
Theorem note_name_index (frequency : R) :
  0 < frequency ->
  let n := nearestSemitone frequency in
  let i := Z.to_nat ((9 + n) mod 12) in
  octave (frequencyToNote frequency) = (4 + (9 + n) / 12)%Z
  /\ note (frequencyToNote frequency)
     = (nth i NOTE_NAMES "undefined"
            ++ Z_toString (octave (frequencyToNote frequency)))%string
  /\ (i < 12)%nat
  /\ (length NOTE_NAMES = 12%nat -> In (nth i NOTE_NAMES "undefined"%string)
                                       NOTE_NAMES).
Proof.
  intros _ n i. unfold frequencyToNote. fold (nearestSemitone frequency).
  fold n. rewrite noteOfSemitone_mod. cbn [note octave].
  assert (Hi : (i < 12)%nat).
  { subst i. pose proof (Z.mod_pos_bound (9 + n) 12). lia. }
  repeat split; try exact Hi.
  intro Hl. apply nth_In. lia.
Qed.



End NotesTheory.

(** The cents from a frequency to its offset by a whole number of cents. *)
Lemma cents_of_offset (frequency : R) (c : Z) :
  0 < frequency ->
  centsBetweenFrequencies frequency
                          (frequencyWithCentsOffset frequency (IZR c)) = c.
Proof.
  intro Hf. unfold centsBetweenFrequencies, frequencyWithCentsOffset,
              Math_pow, CENTS_PER_OCTAVE.
  replace (frequency * Rpower 2 (IZR c / 1200) / frequency)
    with (Rpower 2 (IZR c / 1200)) by (field; lra).
  rewrite log2_Rpower.
  replace (1200 * (IZR c / 1200)) with (IZR c) by lra.
  apply Math_round_IZR.
Qed.


Section InTuneTheory.
Context {K : AudioConstants}.


End InTuneTheory.

(** ** Notes of a range *)

Lemma prop_Some_In (o : list (string * R)) (k : string) (v : R) :
  prop o k = Some v -> In k (map fst o).
Proof.
  induction o as [|[k' w] o IH]; cbn [prop map fst]; [discriminate|].
  destruct (prop o k) eqn:E.
  - intro H. right. now apply IH.
  - destruct (String.eqb k' k) eqn:Ek; [|discriminate].
    apply String.eqb_eq in Ek. intros _. now left.
Qed.

Lemma In_prop_Some (o : list (string * R)) (k : string) :
  In k (map fst o) -> exists v, prop o k = Some v.
Proof.
  induction o as [|[k' w] o IH]; cbn [prop map fst]; [contradiction|].
  intros [Hk|Hk].
  - destruct (prop o k); [eauto|]. subst k'. rewrite String.eqb_refl. eauto.
  - destruct (IH Hk) as [v Hv]. rewrite Hv. eauto.
Qed.

Lemma Object_entries_In (o : list (string * R)) (k : string) (v : R) :
  In (k, v) (Object_entries o) <-> prop o k = Some v.
Proof.
  unfold Object_entries. rewrite in_flat_map. split.
  - intros [k' [_ Hin]]. destruct (prop o k') eqn:E; [|contradiction].
    destruct Hin as [Heq|[]]. now inversion Heq; subst.
  - intro Hp. exists k. split.
    + rewrite <- in_rev, nodup_In, <- in_rev. eapply prop_Some_In; eauto.
    + rewrite Hp. now left.
Qed.

Lemma Object_entries_keys (o : list (string * R)) :
  map fst (Object_entries o) = rev (nodup string_dec (rev (map fst o))).
Proof.
  unfold Object_entries.
  assert (H : forall ks, (forall k, In k ks -> In k (map fst o)) ->
              map fst (flat_map (fun k => match prop o k with
                                          | Some v => [(k, v)]
                                          | None => []
                                          end) ks) = ks).
  { induction ks as [|k ks IH]; intro Hks; [reflexivity|].
    cbn [flat_map]. rewrite map_app, IH by (intros; apply Hks; now right).
    destruct (In_prop_Some o k (Hks k (or_introl eq_refl))) as [v Hv].
    now rewrite Hv. }
  apply H. intros k Hk. now rewrite <- in_rev, nodup_In, <- in_rev in Hk.
Qed.

Lemma NoDup_map_filter {A B : Type} (g : A -> B) (f : A -> bool)
      (l : list A) :
  NoDup (map g l) -> NoDup (map g (filter f l)).
Proof.
  induction l as [|x l IH]; cbn [map filter]; [constructor|].
  intro H. inversion H as [|? ? Hx Hl]; subst.
  destruct (f x); cbn [map]; [constructor|]; auto.
  rewrite in_map_iff in *. intros [y [Hy Hin]]. apply Hx.
  exists y. split; [assumption|]. now apply filter_In in Hin.
Qed.

Section RangeTheory.
Context {K : AudioConstants}.

(** [getNotesInRange] returns exactly the names without a [b] whose entry
    of [NOTE_FREQUENCIES] lies in the closed range, each of them once. *)
Theorem getNotesInRange_spec (minFreq maxFreq : R) :
  (forall name,
      In name (getNotesInRange minFreq maxFreq)
      <-> includes name "b" = false
          /\ exists freq, noteToFrequency name = Some freq
                          /\ minFreq <= freq <= maxFreq)
  /\ NoDup (getNotesInRange minFreq maxFreq).
Proof.
  unfold getNotesInRange, noteToFrequency. split.
  - intro name. rewrite filter_In, in_map_iff, Bool.negb_true_iff. split.
    + intros [[[k v] [Hk Hin]] Hb]. cbn [fst] in Hk. subst k.
      apply filter_In in Hin. destruct Hin as [Hin Hr]. cbn [snd] in Hr.
      apply Bool.andb_true_iff in Hr. destruct Hr as [H1 H2].
      apply Rleb_true in H1, H2. apply Object_entries_In in Hin.
      split; [exact Hb|]. exists v. split; [exact Hin|lra].
    + intros [Hb [v [Hp [H1 H2]]]]. split; [|exact Hb].
      exists (name, v). split; [reflexivity|]. apply filter_In. split.
      * now apply Object_entries_In.
      * cbn [snd]. apply Bool.andb_true_iff. split; now apply Rleb_true.
  - apply NoDup_filter, NoDup_map_filter. rewrite Object_entries_keys.
    apply NoDup_rev, NoDup_nodup.
Qed.

End RangeTheory.

(** ** The spectrum functions *)

Lemma Math_round_0 : Math_round 0 = 0%Z.
Proof. apply (Math_round_IZR 0). Qed.

Lemma zeroCrossingsFrom_le (previous : R) (rest : list R) (n : nat) :
  (n <= zeroCrossingsFrom previous rest n <= n + length rest)%nat.
Proof.
  revert previous n. induction rest as [|c r IH]; intros p n; cbn; [lia|].
  destruct (crosses p c); specialize (IH c); [specialize (IH (S n))
                                             |specialize (IH n)]; lia.
Qed.

Lemma zeroCrossingsFrom_nonneg (previous : R) (rest : list R) (n : nat) :
  0 <= previous -> Forall (fun x => 0 <= x) rest ->
  zeroCrossingsFrom previous rest n = n.
Proof.
  intros Hp H. revert previous n Hp.
  induction H as [|c r Hc _ IH]; intros p n Hp; [reflexivity|].
  cbn [zeroCrossingsFrom]. unfold crosses.
  replace (Rltb c 0) with false by (symmetry; apply Rltb_false; lra).
  replace (Rltb p 0) with false by (symmetry; apply Rltb_false; lra).
  rewrite Bool.andb_false_r. cbn. now apply IH.
Qed.

Lemma zeroCrossingsFrom_neg (previous : R) (rest : list R) (n : nat) :
  previous < 0 -> Forall (fun x => x < 0) rest ->
  zeroCrossingsFrom previous rest n = n.
Proof.
  intros Hp H. revert previous n Hp.
  induction H as [|c r Hc _ IH]; intros p n Hp; [reflexivity|].
  cbn [zeroCrossingsFrom]. unfold crosses.
  replace (Rleb 0 c) with false by (symmetry; apply Rleb_false; lra).
  replace (Rleb 0 p) with false by (symmetry; apply Rleb_false; lra).
  rewrite Bool.andb_false_r. cbn. now apply IH.
Qed.

Lemma zeroCrossingsFrom_alternates (previous : R) (rest : list R) (n : nat) :
  alternatesFrom previous rest ->
  zeroCrossingsFrom previous rest n = (n + length rest)%nat.
Proof.
  revert previous n. induction rest as [|c r IH]; intros p n; cbn.
  - intros _. lia.
  - intros [Hc Hr]. rewrite Hc, IH by exact Hr. lia.
Qed.

(** [getClarity] is a number of [0, 1]; it is 0 for a buffer of fewer than
    two samples and for one whose every sample crosses zero against the one
    before, and 1 for a longer buffer that never changes sign. *)
Theorem getClarity_range (buffer : list R) :
  0 <= getClarity buffer <= 1
  /\ ((length buffer < 2)%nat -> getClarity buffer = 0)
  /\ ((2 <= length buffer)%nat ->
      Forall (fun x => 0 <= x) buffer \/ Forall (fun x => x < 0) buffer ->
      getClarity buffer = 1)
  /\ (forall first rest,
         buffer = first :: rest -> alternatesFrom first rest ->
         getClarity buffer = 0).
Proof.
  assert (Hform : forall first second rest,
             getClarity (first :: second :: rest)
             = 1 - Rmin (INR (zeroCrossingsFrom first (second :: rest) 0)
                         / INR (length (first :: second :: rest))
                         / (5 / 10)) 1) by reflexivity.
  assert (Hlen : forall (l : list R), l <> [] -> 0 < INR (length l)).
  { intros [|x l] H; [congruence|]. apply lt_0_INR. cbn. lia. }
  repeat split.
  - destruct buffer as [|a [|b r]]; cbn [getClarity]; try lra.
    pose proof (Rmin_r (INR (zeroCrossingsFrom a (b :: r) 0)
                        / INR (length (a :: b :: r)) / (5 / 10)) 1). lra.
  - destruct buffer as [|a [|b r]]; cbn [getClarity]; try lra.
    set (zc := zeroCrossingsFrom a (b :: r) 0).
    assert (0 <= INR zc / INR (length (a :: b :: r)) / (5 / 10)).
    { pose proof (pos_INR zc). pose proof (Hlen (a :: b :: r)) as Hl.
      apply Rmult_le_pos; [|lra].
      apply Rmult_le_pos; [assumption|].
      left. apply Rinv_0_lt_compat. apply Hl. discriminate. }
    assert (0 <= Rmin (INR zc / INR (length (a :: b :: r)) / (5 / 10)) 1).
    { apply Rmin_glb; lra. }
    lra.
  - destruct buffer as [|a [|b r]]; cbn [length]; try reflexivity. lia.
  - intros Hl Hs. destruct buffer as [|a [|b r]]; cbn [length] in Hl; try lia.
    rewrite Hform.
    assert (Hz : zeroCrossingsFrom a (b :: r) 0 = 0%nat).
    { destruct Hs as [Hs|Hs]; inversion Hs; subst;
        [apply zeroCrossingsFrom_nonneg|apply zeroCrossingsFrom_neg];
        assumption. }
    rewrite Hz. cbn [INR].
    replace (0 / INR (length (a :: b :: r)) / (5 / 10)) with 0
      by (unfold Rdiv; now rewrite !Rmult_0_l).
    rewrite Rmin_left by lra. lra.
  - intros first rest -> Ha. destruct rest as [|b r]; [reflexivity|].
    rewrite Hform, zeroCrossingsFrom_alternates by exact Ha.
    cbn [Nat.add]. set (n := length (b :: r)).
    assert (Hn : (1 <= n)%nat) by (subst n; cbn; lia).
    change (length (first :: b :: r)) with (S n). rewrite S_INR.
    assert (Hn' : 1 <= INR n) by (apply (le_INR 1); exact Hn).
    rewrite Rmin_right; [lra|].
    apply Rmult_le_reg_r with (r := INR n + 1); [lra|].
    replace (INR n / (INR n + 1) / (5 / 10) * (INR n + 1))
      with (2 * INR n) by (field; lra).
    lra.
Qed.

Lemma centroidLoop_spec (frequencies : list R) (i : nat)
      (binWidth weightedSum magnitudeSum : R) :
  0 <= binWidth -> Forall (fun m => 0 <= m) frequencies ->
  let r := centroidLoop frequencies i binWidth weightedSum magnitudeSum in
  magnitudeSum <= snd r
  /\ INR i * binWidth * (snd r - magnitudeSum) <= fst r - weightedSum
  /\ fst r - weightedSum
     <= (INR i + INR (length frequencies) - 1) * binWidth
        * (snd r - magnitudeSum).
Proof.
  intros Hb H. revert i weightedSum magnitudeSum.
  induction H as [|m l Hm Hl IH]; intros i ws ms; cbn zeta.
  - cbn [centroidLoop fst snd length INR]. repeat split; try lra.
  - cbn [centroidLoop]. specialize (IH (S i) (ws + INR i * binWidth * m)
                                       (ms + m)).
    cbn zeta in IH. destruct IH as (H1 & H2 & H3).
    set (r := centroidLoop l (S i) binWidth (ws + INR i * binWidth * m)
                           (ms + m)) in *.
    change (length (m :: l)) with (S (length l)).
    rewrite !S_INR in *.
    pose proof (pos_INR i) as Hi. pose proof (pos_INR (length l)) as Hn.
    set (D := snd r - (ms + m)) in *.
    replace (snd r - ms) with (D + m) by (subst D; lra).
    assert (0 <= D) by (subst D; lra).
    assert (0 <= INR (length l) * binWidth * m).
    { apply Rmult_le_pos; [apply Rmult_le_pos|]; assumption. }
    assert (0 <= binWidth * D) by (apply Rmult_le_pos; lra).
    split; [subst D; lra|]. split.
    + replace (INR i * binWidth * (D + m))
        with (INR i * binWidth * D + INR i * binWidth * m) by ring.
      replace ((INR i + 1) * binWidth * D)
        with (INR i * binWidth * D + binWidth * D) in H2 by ring.
      lra.
    + replace ((INR i + (INR (length l) + 1) - 1) * binWidth * (D + m))
        with ((INR i + 1 + INR (length l) - 1) * binWidth * D
              + INR i * binWidth * m + INR (length l) * binWidth * m)
        by ring.
      lra.
Qed.

(** For a spectrum of non-negative magnitudes and a non-negative sample
    rate, [getSpectralCentroid] lies between 0 and half the sample rate,
    rounded. *)
Theorem getSpectralCentroid_bounded (frequencies : list R) (sampleRate : R) :
  Forall (fun m => 0 <= m) frequencies -> 0 <= sampleRate ->
  (0 <= getSpectralCentroid frequencies sampleRate
   <= Math_round (sampleRate / 2))%Z.
Proof.
  intros Hf Hs. unfold getSpectralCentroid. cbv zeta.
  destruct frequencies as [|m0 l0] eqn:El.
  { cbn [centroidLoop]. replace (Reqb 0 0) with true
      by (symmetry; now apply Reqb_true).
    split; [lia|]. rewrite <- Math_round_0. apply Math_round_le. lra. }
  rewrite <- El in *.
  assert (Hn : 1 <= INR (length frequencies)).
  { subst frequencies. cbn [length]. rewrite S_INR.
    pose proof (pos_INR (length l0)). lra. }
  assert (Hb : 0 <= binWidthOf frequencies sampleRate).
  { unfold binWidthOf. apply Rmult_le_pos; [assumption|].
    left. apply Rinv_0_lt_compat. lra. }
  pose proof (centroidLoop_spec frequencies 0 (binWidthOf frequencies sampleRate)
                                0 0 Hb Hf) as Hc.
  cbn zeta in Hc.
  destruct (centroidLoop frequencies 0 (binWidthOf frequencies sampleRate) 0 0)
    as [ws ms].
  cbn [fst snd INR] in Hc. destruct Hc as (H1 & H2 & H3).
  rewrite !Rminus_0_r, Rplus_0_l in *.
  destruct (Reqb ms 0) eqn:E.
  { split; [lia|]. rewrite <- Math_round_0. apply Math_round_le. lra. }
  assert (Hms : 0 < ms).
  { destruct (Req_dec_T ms 0) as [Hz|Hz]; [|lra].
    apply Reqb_true in Hz. congruence. }
  assert (Hlo : 0 <= ws / ms).
  { apply Rmult_le_pos; [lra|]. left. now apply Rinv_0_lt_compat. }
  assert (Hhi : ws / ms <= sampleRate / 2).
  { apply Rmult_le_reg_r with (r := ms); [assumption|].
    replace (ws / ms * ms) with ws by (field; lra).
    eapply Rle_trans; [exact H3|].
    apply Rmult_le_compat_r; [lra|].
    unfold binWidthOf.
    replace ((INR (length frequencies) - 1)
             * (sampleRate / (INR (length frequencies) * 2)))
      with (sampleRate / 2
            - sampleRate / (INR (length frequencies) * 2))
      by (field; lra).
    fold (binWidthOf frequencies sampleRate). lra. }
  split.
  - rewrite <- Math_round_0. now apply Math_round_le.
  - now apply Math_round_le.
Qed.

Lemma getSpectralCentroid_bounded_witness :
  (0 <= getSpectralCentroid [1; 0; 3]%R 48000 <= Math_round (48000 / 2))%Z.
Proof.
  apply getSpectralCentroid_bounded; [repeat constructor; lra|lra].
Defined.

Lemma flux_fold_nonneg (pairs : list (R * R)) (flux : R) :
  0 <= flux ->
  0 <= fold_left
         (fun flux cp =>
            let diff := fst cp - snd cp in
            if Rltb 0 diff then flux + diff * diff else flux)
         pairs flux.
Proof.
  revert flux. induction pairs as [|[c p] l IH]; intros flux Hf; cbn;
    [assumption|].
  apply IH. destruct (Rltb 0 (c - p)); [|assumption].
  pose proof (Rle_0_sqr (c - p)) as Hs. unfold Rsqr in Hs. lra.
Qed.

Lemma flux_fold_no_rise (current previous : list R) (flux : R) :
  Forall2 Rle current previous ->
  fold_left
    (fun flux cp =>
       let diff := fst cp - snd cp in
       if Rltb 0 diff then flux + diff * diff else flux)
    (combine current previous) flux = flux.
Proof.
  intro H. revert flux. induction H as [|c p lc lp Hcp _ IH]; intro flux;
    [reflexivity|].
  cbn [combine fold_left fst snd]. cbv zeta.
  replace (Rltb 0 (c - p)) with false by (symmetry; apply Rltb_false; lra).
  apply IH.
Qed.

(** [getSpectralFlux] is 0 for spectra of different lengths and not a
    number for two empty ones; otherwise it is a number of [0, 1], and 0
    when no bin has risen.  *)
Theorem getSpectralFlux_range (currentSpectrum previousSpectrum : list R) :
  (length currentSpectrum <> length previousSpectrum ->
   getSpectralFlux currentSpectrum previousSpectrum = Some 0)
  /\ (currentSpectrum = [] -> previousSpectrum = [] ->
      getSpectralFlux currentSpectrum previousSpectrum = None)
  /\ (length currentSpectrum = length previousSpectrum ->
      currentSpectrum <> [] ->
      exists flux,
        getSpectralFlux currentSpectrum previousSpectrum = Some flux
        /\ 0 <= flux <= 1)
  /\ (currentSpectrum <> [] ->
      Forall2 Rle currentSpectrum previousSpectrum ->
      getSpectralFlux currentSpectrum previousSpectrum = Some 0).
Proof.
  unfold getSpectralFlux. repeat split.
  - intro H. apply Nat.eqb_neq in H. now rewrite H.
  - intros -> ->. reflexivity.
  - intros H Hne. apply Nat.eqb_eq in H. rewrite H. cbn [negb].
    destruct currentSpectrum as [|c l] eqn:E; [congruence|].
    rewrite <- E. eexists. split; [reflexivity|]. split.
    + apply Rmin_glb; [|lra]. apply sqrt_pos.
    + apply Rmin_r.
  - intros Hne H. pose proof (Forall2_length H) as Hl.
    apply Nat.eqb_eq in Hl. rewrite Hl. cbn [negb].
    rewrite flux_fold_no_rise by exact H.
    destruct currentSpectrum as [|c l]; [congruence|].
    unfold Math_sqrt, Rdiv. rewrite Rmult_0_l, sqrt_0.
    now rewrite Rmin_left by lra.
Qed.

Lemma sum_fold_left (l : list R) (c : R) :
  fold_left (fun total x => total + x) l c
  = c + fold_left (fun total x => total + x) l 0.
Proof.
  revert c. induction l as [|x l IH]; intro c; cbn [fold_left]; [lra|].
  rewrite IH, (IH (0 + x)). lra.
Qed.

Lemma cumulative_S (x : R) (l : list R) (k : nat) :
  cumulative (x :: l) (S k) = x + cumulative l k.
Proof.
  unfold cumulative. cbn [firstn fold_left]. rewrite sum_fold_left. lra.
Qed.

Lemma cumulative_nonneg (l : list R) (k : nat) :
  Forall (fun m => 0 <= m) l -> 0 <= cumulative l k.
Proof.
  intro H. revert k. induction H as [|x l Hx _ IH]; intro k.
  - unfold cumulative. rewrite firstn_nil. cbn. lra.
  - destruct k as [|k]; [unfold cumulative; cbn; lra|].
    rewrite cumulative_S. specialize (IH k). lra.
Qed.

Lemma rolloffLoop_Some (frequencies : list R) (i : nat) (c t : R) (k : nat) :
  rolloffLoop frequencies i c t = Some k ->
  exists d, k = (i + d)%nat /\ (d < length frequencies)%nat
            /\ t <= c + cumulative frequencies (S d)
            /\ forall j, (j < d)%nat -> c + cumulative frequencies (S j) < t.
Proof.
  revert i c. induction frequencies as [|x l IH]; intros i c;
    cbn [rolloffLoop]; [discriminate|].
  cbv zeta. destruct (Rleb t (c + x)) eqn:E.
  - intro H. injection H as <-. exists 0%nat.
    apply Rleb_true in E. repeat split; cbn [length]; try lia.
    + rewrite cumulative_S. unfold cumulative. cbn. lra.
  - intro H. apply IH in H. destruct H as (d & -> & Hd & Hge & Hlt).
    apply Rleb_false in E. exists (S d). repeat split; cbn [length]; try lia.
    + rewrite cumulative_S. lra.
    + intros [|j] Hj.
      * rewrite cumulative_S. unfold cumulative. cbn. lra.
      * rewrite cumulative_S. specialize (Hlt j ltac:(lia)). lra.
Qed.

Lemma rolloffLoop_None (frequencies : list R) (i : nat) (c t : R) :
  rolloffLoop frequencies i c t = None ->
  frequencies = []
  \/ c + cumulative frequencies (length frequencies) < t.
Proof.
  revert i c. induction frequencies as [|x l IH]; intros i c;
    cbn [rolloffLoop]; [now left|].
  cbv zeta. destruct (Rleb t (c + x)) eqn:E; [discriminate|].
  intro H. right. apply Rleb_false in E. cbn [length].
  rewrite cumulative_S. apply IH in H. destruct H as [->|H].
  - unfold cumulative. cbn. lra.
  - lra.
Qed.

(** For a non-empty spectrum of non-negative magnitudes and a threshold of
    [0, 1], [getSpectralRolloff] is the rounded frequency of the first bin
    at which the cumulative energy reaches the threshold's share of the
    total: the search always finds one, and the return after the loop is
    never reached. *)
Theorem getSpectralRolloff_first_bin (frequencies : list R)
        (sampleRate threshold : R) :
  frequencies <> [] -> Forall (fun m => 0 <= m) frequencies ->
  0 <= threshold <= 1 ->
  let target := cumulative frequencies (length frequencies) * threshold in
  exists i,
    (i < length frequencies)%nat
    /\ rolloffLoop frequencies 0 0 target = Some i
    /\ getSpectralRolloff frequencies sampleRate threshold
       = Some (Math_round (INR i * binWidthOf frequencies sampleRate))
    /\ target <= cumulative frequencies (S i)
    /\ forall j, (j < i)%nat -> cumulative frequencies (S j) < target.
Proof.
  intros Hne Hf Ht target.
  assert (Htot : cumulative frequencies (length frequencies)
                 = fold_left (fun total x => total + x) frequencies 0).
  { unfold cumulative. now rewrite firstn_all. }
  pose proof (cumulative_nonneg frequencies (length frequencies) Hf) as Hpos.
  assert (Hle : target <= cumulative frequencies (length frequencies)).
  { subst target.
    replace (cumulative frequencies (length frequencies))
      with (cumulative frequencies (length frequencies) * 1) at 2 by ring.
    apply Rmult_le_compat_l; lra. }
  destruct (rolloffLoop frequencies 0 0 target) as [i|] eqn:E.
  - pose proof (rolloffLoop_Some _ _ _ _ _ E) as (d & Hk & Hd & Hge & Hlt).
    cbn [Nat.add] in Hk. subst d. exists i. repeat split.
    + exact Hd.
    + unfold getSpectralRolloff. cbv zeta. rewrite <- Htot.
      fold target. rewrite E.
      destruct frequencies; [congruence|reflexivity].
    + lra.
    + intros j Hj. specialize (Hlt j Hj). lra.
  - apply rolloffLoop_None in E. destruct E as [E|E]; [congruence|lra].
Qed.

Lemma getSpectralRolloff_first_bin_witness :
  exists i,
    (i < 4)%nat
    /\ rolloffLoop [1; 2; 6; 1]%R 0 0 (cumulative [1; 2; 6; 1]%R 4 * (85 / 100))
       = Some i
    /\ getSpectralRolloff [1; 2; 6; 1]%R 48000 (85 / 100)
       = Some (Math_round (INR i * binWidthOf [1; 2; 6; 1]%R 48000))
    /\ cumulative [1; 2; 6; 1]%R 4 * (85 / 100)
       <= cumulative [1; 2; 6; 1]%R (S i)
    /\ forall j, (j < i)%nat ->
                 cumulative [1; 2; 6; 1]%R (S j)
                 < cumulative [1; 2; 6; 1]%R 4 * (85 / 100).
Proof.
  apply (getSpectralRolloff_first_bin [1; 2; 6; 1]%R 48000 (85 / 100));
    [discriminate|repeat constructor; lra|lra].
Defined.

Lemma fundamentalLoop_spec (frequencies : list R) (i : nat)
      (maxMagnitude : R) (maxIndex : nat) :
  let r := fundamentalLoop frequencies i maxMagnitude maxIndex in
  Forall (fun m => m <= fst r) frequencies
  /\ ((r = (maxMagnitude, maxIndex)
       /\ Forall (fun m => m <= maxMagnitude) frequencies)
      \/ (exists d, snd r = (i + d)%nat /\ (d < length frequencies)%nat
                    /\ nth d frequencies 0 = fst r
                    /\ maxMagnitude < fst r
                    /\ forall j, (j < d)%nat ->
                                 nth j frequencies 0 < fst r)).
Proof.
  revert i maxMagnitude maxIndex.
  induction frequencies as [|x l IH]; intros i mx mi; cbn zeta.
  - cbn [fundamentalLoop]. split; [constructor|]. left. now split.
  - cbn [fundamentalLoop]. destruct (Rltb mx x) eqn:E.
    + apply Rltb_true in E. specialize (IH (S i) x i). cbn zeta in IH.
      destruct IH as [Hall Hcase].
      set (r := fundamentalLoop l (S i) x i) in *.
      destruct Hcase as [[Hr Hle]|(d & Hs & Hd & Hn & Hlt & Hj)].
      * rewrite Hr in *. cbn [fst snd] in *. split.
        -- constructor; [lra|assumption].
        -- right. exists 0%nat. cbn [length nth].
           repeat split; try lia; try lra.
      * split; [constructor; [lra|assumption]|].
        right. exists (S d). cbn [length nth].
        repeat split; try lia; try lra; try assumption.
        intros [|j] Hjd; cbn [nth]; [lra|]. apply Hj. lia.
    + apply Rltb_false in E. specialize (IH (S i) mx mi). cbn zeta in IH.
      destruct IH as [Hall Hcase].
      set (r := fundamentalLoop l (S i) mx mi) in *.
      destruct Hcase as [[Hr Hle]|(d & Hs & Hd & Hn & Hlt & Hj)].
      * rewrite Hr in *. cbn [fst snd] in *. split.
        -- constructor; assumption.
        -- left. split; [reflexivity|]. constructor; assumption.
      * split; [constructor; [lra|assumption]|].
        right. exists (S d). cbn [length nth].
        repeat split; try lia; try lra; try assumption.
        intros [|j] Hjd; cbn [nth]; [lra|]. apply Hj. lia.
Qed.

(** [getFundamentalFrequency] is 0 for a spectrum with no positive
    magnitude (a spectrum in decibels below full scale, say); otherwise it
    is the rounded frequency of the first bin that carries the largest
    magnitude. *)
Theorem getFundamentalFrequency_first_maximum (frequencies : list R)
        (sampleRate : R) :
  (Forall (fun m => m <= 0) frequencies ->
   getFundamentalFrequency frequencies sampleRate = 0%Z)
  /\ (Exists (fun m => 0 < m) frequencies ->
      exists i,
        (i < length frequencies)%nat
        /\ getFundamentalFrequency frequencies sampleRate
           = Math_round (INR i * binWidthOf frequencies sampleRate)
        /\ 0 < nth i frequencies 0
        /\ Forall (fun m => m <= nth i frequencies 0) frequencies
        /\ forall j, (j < i)%nat ->
                     nth j frequencies 0 < nth i frequencies 0).
Proof.
  unfold getFundamentalFrequency.
  pose proof (fundamentalLoop_spec frequencies 0 0 0) as Hs.
  cbn zeta in Hs. destruct (fundamentalLoop frequencies 0 0 0) as [mx mi].
  cbn [fst snd Nat.add] in Hs. destruct Hs as [Hall Hcase]. split.
  - intro Hle. destruct Hcase as [[Hr _]|(d & _ & Hd & Hn & Hlt & _)].
    + injection Hr as -> ->.
      now replace (Reqb 0 0) with true by (symmetry; now apply Reqb_true).
    + exfalso. rewrite Forall_forall in Hle.
      specialize (Hle (nth d frequencies 0) (nth_In _ _ Hd)). lra.
  - intro Hex. destruct Hcase as [[Hr Hle]|(d & Hmi & Hd & Hn & Hlt & Hj)].
    + exfalso. apply Exists_exists in Hex. destruct Hex as (m & Hin & Hm).
      rewrite Forall_forall in Hle. specialize (Hle m Hin). lra.
    + subst mi. exists d.
      replace (Reqb mx 0) with false.
      2:{ symmetry. destruct (Reqb mx 0) eqn:E; [|reflexivity].
          apply Reqb_true in E. lra. }
      rewrite Hn. repeat split; try assumption.
Qed.

(** ** One tick of the metrics *)

Lemma getVolume_range (buffer : list Byte.byte) :
  -100 <= getVolume buffer <= 0.
Proof.
  rewrite getVolume_unfold. destruct buffer as [|b l]; [lra|].
  destruct (Reqb _ 0); [lra|apply clamp_range].
Qed.

Lemma normalizeVolume_inert (volumeDb : R) :
  -100 <= volumeDb <= 0 -> normalizeVolume volumeDb = (volumeDb + 100) / 100.
Proof.
  intro H. unfold normalizeVolume. cbv zeta.
  rewrite Rmin_right by lra. rewrite Rmax_right by lra. reflexivity.
Qed.

Lemma getClarity_bounds (buffer : list R) : 0 <= getClarity buffer <= 1.
Proof.
  destruct buffer as [|a [|b r]]; cbn [getClarity]; try lra.
  set (zc := zeroCrossingsFrom a (b :: r) 0).
  set (n := length (a :: b :: r)).
  assert (0 < INR n) by (apply lt_0_INR; subst n; cbn; lia).
  assert (0 <= INR zc / INR n / (5 / 10)).
  { pose proof (pos_INR zc). apply Rmult_le_pos; [|lra].
    apply Rmult_le_pos; [assumption|].
    left. now apply Rinv_0_lt_compat. }
  pose proof (Rmin_r (INR zc / INR n / (5 / 10)) 1).
  assert (0 <= Rmin (INR zc / INR n / (5 / 10)) 1) by (apply Rmin_glb; lra).
  lra.
Qed.

Section TickTheory.
Context {K : AudioConstants}.

(** A tick is [null] exactly when the window is not silent and the array
    allocation of [autocorrelate] raises; the smoothing buffer is then left
    as it was.  With a positive [MIN_FREQUENCY] and a non-negative sample
    rate no tick is [null]. *)
Theorem processAudioData_null (timeDomainData frequencyData : list R)
        (byteFrequencyData : list Byte.byte) (sampleRate : R)
        (sensitivity : Sensitivity) (now now' : Z)
        (sb : PitchSmoothingBuffer) :
  let tick := processAudioData timeDomainData frequencyData
                               byteFrequencyData sampleRate sensitivity
                               now now' sb in
  (fst tick = None
   <-> ltJS (rms timeDomainData) (Some (1 / 100)) = false
       /\ (Math_floor (sampleRate / MIN_FREQUENCY) < 0)%Z)
  /\ (fst tick = None -> snd tick = sb)
  /\ (0 < MIN_FREQUENCY -> 0 <= sampleRate -> fst tick <> None).
Proof.
  cbv zeta.
  assert (Hiff : fst (processAudioData timeDomainData frequencyData
                        byteFrequencyData sampleRate sensitivity now now' sb)
                 = None
                 <-> ltJS (rms timeDomainData) (Some (1 / 100)) = false
                     /\ (Math_floor (sampleRate / MIN_FREQUENCY) < 0)%Z).
  { unfold processAudioData, detectPitch, autocorrelate, new_Float32Array.
    cbv zeta.
    destruct (ltJS (rms timeDomainData) (Some (1 / 100)));
      [cbn [fst]; split; [discriminate|intros [? _]; discriminate]|].
    destruct (Math_floor (sampleRate / MIN_FREQUENCY) <? 0)%Z eqn:E.
    - apply Z.ltb_lt in E. cbn [fst]. tauto.
    - apply Z.ltb_ge in E.
      destruct (findPeak _ _) as [pk|];
        [destruct (Rltb (peakConfidence pk) _);
         [|destruct (_ || _)]|];
        cbn [fst]; (split; [discriminate|intros [_ ?]; lia]). }
  split; [exact Hiff|]. split.
  - unfold processAudioData, detectPitch.
    destruct (ltJS (rms timeDomainData) (Some (1 / 100)));
      [cbn [fst]; discriminate|].
    cbv zeta.
    destruct (autocorrelate _ _) as [ac|]; [|reflexivity].
    destruct (findPeak _ _) as [pk|];
      [destruct (Rltb (peakConfidence pk) _); [|destruct (_ || _)]|];
      cbn [fst]; discriminate.
  - intros Hmin Hsr Hnone. apply Hiff in Hnone. destruct Hnone as [_ Hneg].
    assert (Hq : 0 <= sampleRate / MIN_FREQUENCY).
    { apply Rmult_le_pos; [assumption|].
      left. now apply Rinv_0_lt_compat. }
    unfold Math_floor in Hneg.
    pose proof (Zfloor_le 0 (sampleRate / MIN_FREQUENCY) Hq) as Hle.
    rewrite (ZfloorZ 0) in Hle. lia.
Qed.

(** The levels of a tick that returned: the timestamp is the clock; the
    volume is in [-100, 0] dB and the clarity in [0, 1], whatever the pitch
    and the sensitivity; a voice is never reported in the volume category
    [silent], nor over a spectrum of zero bytes; and when [toAudioMetrics]
    gives metrics, they carry the tick's pitch and the volume
    [(volumeDb + 100) / 100], in [0, 1] without clamping. *)
Theorem processAudioData_levels (timeDomainData frequencyData : list R)
        (byteFrequencyData : list Byte.byte) (sampleRate : R)
        (sensitivity : Sensitivity) (now now' : Z)
        (sb : PitchSmoothingBuffer) (m : Extended.t) :
  fst (processAudioData timeDomainData frequencyData byteFrequencyData
                        sampleRate sensitivity now now' sb) = Some m ->
  Extended.timestamp m = now'
  /\ Extended.volumeDb m = getVolume byteFrequencyData
  /\ -100 <= Extended.volumeDb m <= 0
  /\ Extended.clarity m = getClarity timeDomainData
  /\ 0 <= Extended.clarity m <= 1
  /\ (Extended.hasVoice m = true ->
      getVolumeCategory (Extended.volumeDb m) <> silent)
  /\ (allSilent byteFrequencyData -> Extended.hasVoice m = false)
  /\ (forall am,
         toAudioMetrics m = Some am ->
         Extended.pitch m = Some (Metrics.pitch am)
         /\ Metrics.volume am = (Extended.volumeDb m + 100) / 100
         /\ 0 <= Metrics.volume am <= 1
         /\ Metrics.clarity am = Extended.clarity m).
Proof.
  unfold processAudioData.
  destruct (detectPitch timeDomainData sampleRate true now sb)
    as [[p|] sb']; [|discriminate].
  cbv zeta. cbn [fst]. intros [= <-].
  cbn [Extended.timestamp Extended.volumeDb Extended.clarity
       Extended.hasVoice Extended.pitch].
  pose proof (getVolume_range byteFrequencyData) as Hv.
  pose proof (getClarity_bounds timeDomainData) as Hc.
  repeat match goal with |- _ /\ _ => split end;
    try reflexivity; try lra.
  - intro Hvoice. apply Bool.andb_true_iff in Hvoice.
    destruct Hvoice as [Hvol _]. apply Rltb_true in Hvol.
    unfold getVolumeCategory.
    replace (Rltb (getVolume byteFrequencyData) (-60)) with false
      by (symmetry; apply Rltb_false; lra).
    destruct (Rltb _ (-30)); [discriminate|].
    destruct (Rltb _ (-10)); discriminate.
  - intro Hs.
    assert (Hq : getVolume byteFrequencyData = -100).
    { rewrite getVolume_unfold. destruct byteFrequencyData as [|b l] eqn:E;
        [reflexivity|].
      rewrite <- E in *.
      replace (normalizedRms byteFrequencyData) with 0.
      - now replace (Reqb 0 0) with true by (symmetry; now apply Reqb_true).
      - unfold normalizedRms. rewrite sumSquares_allSilent by exact Hs.
        unfold Rdiv. now rewrite Rmult_0_l, sqrt_0. }
    rewrite Hq.
    replace (Rltb (-50) (-100)) with false
      by (symmetry; apply Rltb_false; lra).
    reflexivity.
  - intros am. unfold toAudioMetrics.
    cbn [Extended.timestamp Extended.volumeDb Extended.clarity
         Extended.hasVoice Extended.pitch].
    match goal with
    | |- match ?x with _ => _ end = _ -> _ => destruct x as [q|]
    end; [|discriminate].
    intros [= <-].
    cbn [Metrics.pitch Metrics.volume Metrics.clarity].
    rewrite normalizeVolume_inert by exact Hv.
    repeat split; lra.
Qed.

End TickTheory.

(** ** The properties at concrete inputs *)

Lemma crosses_down (previous current : R) :
  0 <= previous -> current < 0 -> crosses previous current = true.
Proof.
  intros Hp Hc. unfold crosses. apply Bool.orb_true_iff. left.
  apply Bool.andb_true_iff. split; [now apply Rleb_true|now apply Rltb_true].
Qed.

Lemma crosses_up (previous current : R) :
  previous < 0 -> 0 <= current -> crosses previous current = true.
Proof.
  intros Hp Hc. unfold crosses. apply Bool.orb_true_iff. right.
  apply Bool.andb_true_iff. split; [now apply Rltb_true|now apply Rleb_true].
Qed.

Lemma demo_A4 : noteToFrequency "A4" = Some (centiHz 44000).
Proof.
  unfold noteToFrequency. cbn [NOTE_FREQUENCIES demoConstants].
  rewrite prop_centiHz. reflexivity.
Qed.

Lemma detectPitch_result_well_formed_witness :
  exists r,
    detectPitch squareWave 400 true 0 smoothingBuffer
    = (Return (Some r), afterSquareWave)
    /\ MIN_FREQUENCY <= frequency (noteData r) <= MAX_FREQUENCY
    /\ timestamp r = 0%Z
    /\ MIN_CONFIDENCE_THRESHOLD <= confidence r <= 1.
Proof.
  eexists. split; [apply (squareWave_detectPitch 0)|].
  pose proof (detectPitch_result_well_formed
                squareWave 400 true 0%Z smoothingBuffer afterSquareWave _
                (squareWave_detectPitch 0)) as (Hb & _ & Ht & Hc & _).
  repeat split; first [apply Hb|apply Ht|apply Hc].
Defined.

Lemma cleared_buffer_reports_raw_witness :
  fst (detectPitch squareWave 400 true 0 (clearPitchSmoothing afterOneFrame))
  = fst (detectPitch squareWave 400 false 0 afterSquareWave).
Proof.
  apply cleared_buffer_reports_raw. cbn [maxSize afterOneFrame]. lia.
Defined.

Lemma cents_within_half_semitone_witness :
  (-50 <= cents (frequencyToNote 450) <= 50)%Z.
Proof. apply cents_within_half_semitone. lra. Defined.




Lemma note_name_index_witness :
  octave (frequencyToNote 450)
  = (4 + (9 + nearestSemitone 450) / 12)%Z
  /\ note (frequencyToNote 450)
     = (nth (Z.to_nat ((9 + nearestSemitone 450) mod 12)) NOTE_NAMES
            "undefined"
        ++ Z_toString (octave (frequencyToNote 450)))%string
  /\ (Z.to_nat ((9 + nearestSemitone 450) mod 12) < 12)%nat
  /\ (length NOTE_NAMES = 12%nat ->
      In (nth (Z.to_nat ((9 + nearestSemitone 450) mod 12)) NOTE_NAMES
              "undefined"%string)
         NOTE_NAMES).
Proof. apply (note_name_index 450). lra. Defined.


Lemma getClarity_range_witness :
  getClarity squareWave = 0 /\ getClarity [1; 2; 3]%R = 1.
Proof.
  split.
  - apply (proj2 (proj2 (proj2 (getClarity_range squareWave)))
             1 [-1; 1; -1; 1; -1; 1; -1]%R eq_refl).
    cbn [alternatesFrom].
    repeat split;
      first [apply crosses_down; lra|apply crosses_up; lra].
  - apply (proj1 (proj2 (proj2 (getClarity_range [1; 2; 3]%R)))).
    + cbn [length]. lia.
    + left. repeat constructor; lra.
Defined.

Lemma getSpectralFlux_range_witness :
  getSpectralFlux [1; 2]%R [2; 2]%R = Some 0.
Proof.
  apply (proj2 (proj2 (proj2 (getSpectralFlux_range [1; 2]%R [2; 2]%R)))).
  - discriminate.
  - repeat constructor; lra.
Defined.

Lemma getFundamentalFrequency_first_maximum_witness :
  getFundamentalFrequency [-30; -12; -20]%R 48000 = 0%Z.
Proof.
  apply (proj1 (getFundamentalFrequency_first_maximum
                  [-30; -12; -20]%R 48000)).
  repeat constructor; lra.
Defined.

Lemma processAudioData_levels_witness :
  exists m,
    fst (processAudioData squareWave [] [Byte.x00; Byte.x00] 400 high 0 1
                          smoothingBuffer) = Some m
    /\ Extended.timestamp m = 1%Z
    /\ Extended.hasVoice m = false
    /\ -100 <= Extended.volumeDb m <= 0.
Proof.
  assert (Ht : { m | fst (processAudioData
                            squareWave [] [Byte.x00; Byte.x00] 400 high 0 1
                            smoothingBuffer) = Some m }).
  { unfold processAudioData. rewrite squareWave_detectPitch.
    eexists. reflexivity. }
  destruct Ht as [m Ht]. exists m. split; [exact Ht|].
  pose proof (processAudioData_levels
                squareWave [] [Byte.x00; Byte.x00] 400 high 0%Z 1%Z
                smoothingBuffer m Ht)
    as (H1 & _ & H3 & _ & _ & _ & H7 & _).
  repeat split; first [exact H1|apply H7; repeat constructor|apply H3].
Defined.

(** ** The sensitivity filter and the smoothing buffer *)

Lemma longWave_rms : rms longWave = Some 1.
Proof.
  unfold rms, longWave, sumSquares, Math_sqrt. f_equal.
  replace (_ / _) with 1 by (simpl; lra).
  apply sqrt_1.
Qed.

Lemma longWave_normalized : normalizeBuffer longWave = longWave.
Proof.
  assert (Hp : Rabs 1 = 1) by apply Rabs_R1.
  assert (Hm : Rabs (-1) = 1)
    by (unfold Rabs; destruct (Rcase_abs (-1)); lra).
  assert (H01 : Rmax 0 1 = 1) by (apply Rmax_right; lra).
  assert (H11 : Rmax 1 1 = 1) by (apply Rmax_left; lra).
  unfold normalizeBuffer, longWave.
  rewrite !maxAbs_step. cbn [fold_left].
  rewrite Hp, Hm, H01, !H11.
  Rtest. cbn [map]. repeat f_equal; lra.
Qed.

Lemma longWave_interpolation :
  parabolicInterpolation longWaveAutocorrelation 2 = 89 / 44.
Proof.
  unfold parabolicInterpolation, longWaveAutocorrelation. simpl. field.
Qed.

Lemma longWave_rawFrequency :
  rawFrequency 400 longWaveAutocorrelation longWavePeak = longWaveFrequency.
Proof.
  unfold rawFrequency, longWavePeak, longWaveFrequency. cbn [index].
  rewrite longWave_interpolation. field.
Qed.

Section SensitivityDefect.
Context {K : AudioConstants}.

Section LongWave.
Hypothesis band_low : 200 / 3 < MIN_FREQUENCY <= 80.
Hypothesis band_high : 400 < MAX_FREQUENCY.
Hypothesis floor_low : MIN_CONFIDENCE_THRESHOLD <= 11 / 13.

Lemma longWave_floors :
  Math_floor (400 / MIN_FREQUENCY) = 5%Z
  /\ Math_floor (400 / MAX_FREQUENCY) = 0%Z.
Proof.
  unfold Math_floor. split; apply Zfloor_eq.
  - assert (H : 400 / MIN_FREQUENCY * MIN_FREQUENCY = 400)
      by (field; lra).
    split.
    + apply Rmult_le_reg_r with MIN_FREQUENCY; [lra|]. rewrite H. lra.
    + apply Rmult_lt_reg_r with MIN_FREQUENCY; [lra|]. rewrite H. lra.
  - assert (H : 400 / MAX_FREQUENCY * MAX_FREQUENCY = 400)
      by (field; lra).
    split.
    + apply Rmult_le_reg_r with MAX_FREQUENCY; [lra|]. rewrite H. lra.
    + apply Rmult_lt_reg_r with MAX_FREQUENCY; [lra|]. rewrite H. lra.
Qed.

Lemma longWave_autocorrelate :
  autocorrelate longWave 400 = Return longWaveAutocorrelation.
Proof.
  unfold autocorrelate. rewrite (proj1 longWave_floors).
  cbn [new_Float32Array Z.ltb Z.compare Z.to_nat Pos.to_nat Pos.iter_op
       Nat.add seq map].
  unfold lagSum, longWave, longWaveAutocorrelation. simpl.
  repeat f_equal; lra.
Qed.

Lemma longWave_findPeak :
  findPeak longWaveAutocorrelation 400 = Some longWavePeak.
Proof.
  unfold findPeak, zeroCrossing, minSamples, maxSamples.
  rewrite (proj1 longWave_floors), (proj2 longWave_floors).
  unfold longWaveAutocorrelation. simpl.
  repeat Rtest. simpl.
  unfold isLocalMax, gtJS. simpl.
  repeat Rtest. simpl.
  repeat Rtest. reflexivity.
Qed.

Lemma longWave_accepted :
  accepted longWave 400 longWaveAutocorrelation longWavePeak.
Proof.
  unfold accepted.
  rewrite longWave_rms, longWave_normalized, longWave_autocorrelate,
    longWave_findPeak.
  repeat split.
  - cbn [ltJS]. apply Rltb_false. lra.
  - cbn [longWavePeak peakConfidence]. exact floor_low.
Qed.

Lemma longWave_detectPitch (now : Z) (sb : PitchSmoothingBuffer) :
  buffer sb = [] -> (1 <= maxSize sb)%Z ->
  detectPitch longWave 400 true now sb
  = (Return (Some {| noteData := frequencyToNote longWaveFrequency;
                     confidence := 11 / 13;
                     timestamp := now |}),
     {| buffer := [longWaveFrequency]; maxSize := maxSize sb |}).
Proof.
  intros Hb H1.
  rewrite (detectPitch_accepted longWave 400 true now sb
             longWaveAutocorrelation longWavePeak longWave_accepted).
  cbv zeta. cbn [when]. rewrite longWave_rawFrequency.
  assert (Ha : add sb longWaveFrequency
               = {| buffer := [longWaveFrequency];
                    maxSize := maxSize sb |}).
  { unfold add. rewrite Hb. cbn [app length].
    replace (Z.of_nat 1 >? maxSize sb)%Z with false; [reflexivity|].
    symmetry. rewrite Z.gtb_ltb. apply Z.ltb_ge. lia. }
  rewrite Ha.
  replace (getSmoothed {| buffer := [longWaveFrequency];
                          maxSize := maxSize sb |})
    with longWaveFrequency by (unfold getSmoothed; cbn; field).
  assert (Hband : inBand longWaveFrequency)
    by (unfold inBand, longWaveFrequency; lra).
  apply inBand_test in Hband. rewrite Hband.
  replace (Rmin (peakConfidence longWavePeak) 1) with (11 / 13);
    [reflexivity|].
  cbn [longWavePeak peakConfidence]. rewrite Rmin_left; lra.
Qed.

End LongWave.

(** C3.  The code departs from the claim.  The caller's sensitivity
    threshold is applied after [detectPitch] has returned, by
    [detectPitchWithSensitivity] and by the filter of [calculateMetrics],
    and a rejection there returns [null] without clearing the smoothing
    buffer, which the confidence rejection inside [detectPitch] does.
    - While the threshold is at most [MIN_CONFIDENCE_THRESHOLD] the filter
      rejects nothing: every rejection is [detectPitch]'s own.
    - A peak below [MIN_CONFIDENCE_THRESHOLD] is rejected inside
      [detectPitch], which clears the buffer.
    - Of two frames in a row that [detectPitch] accepts, the second is
      reported with the mean of a buffer that holds the raw frequency of
      the first, whether or not the caller's filter withheld the first.
    - For every configuration with [200/3 < MIN_FREQUENCY <= 80],
      [400 < MAX_FREQUENCY] and [MIN_CONFIDENCE_THRESHOLD <= 11/13], the
      thirteen-sample square wave at 400 Hz is detected with confidence
      [11/13], below the threshold 0.85 of [low]: the result is [null] and
      the buffer, empty before, holds the frequency of the rejected
      frame. *)
Theorem sensitivity_filter_skips_clear :
  (forall sensitivity window sampleRate now sb,
      thresholds sensitivity <= MIN_CONFIDENCE_THRESHOLD ->
      detectPitchWithSensitivity window sampleRate sensitivity now sb
      = detectPitch window sampleRate true now sb)
  /\ (forall window sampleRate now sb ac pk,
         ltJS (rms window) (Some (1 / 100)) = false ->
         autocorrelate (normalizeBuffer window) sampleRate = Return ac ->
         findPeak ac sampleRate = Some pk ->
         peakConfidence pk < MIN_CONFIDENCE_THRESHOLD ->
         detectPitch window sampleRate true now sb
         = (Return None, clear sb))
  /\ (forall window window' sampleRate sampleRate' now now' sb sb' sb''
             r r',
         (2 <= maxSize sb)%Z ->
         detectPitch window sampleRate true now sb = (Return (Some r), sb') ->
         detectPitch window' sampleRate' true now' sb'
         = (Return (Some r'), sb'') ->
         In (last (buffer sb') 0) (buffer sb'')
         /\ frequency (noteData r') = mean (buffer sb''))
  /\ (200 / 3 < MIN_FREQUENCY <= 80 -> 400 < MAX_FREQUENCY ->
      MIN_CONFIDENCE_THRESHOLD <= 11 / 13 ->
      forall now sb,
        buffer sb = [] -> (1 <= maxSize sb)%Z ->
        let kept := {| buffer := [longWaveFrequency];
                       maxSize := maxSize sb |} in
        detectPitch longWave 400 true now sb
        = (Return (Some {| noteData := frequencyToNote longWaveFrequency;
                           confidence := 11 / 13;
                           timestamp := now |}), kept)
        /\ detectPitchWithSensitivity longWave 400 low now sb
           = (Return None, kept)
        /\ filteredPitchData longWave 400 low now sb = (None, kept)
        /\ buffer kept <> buffer (clear sb)).
Proof.
  split; [|split; [|split]].
  - intros s window sampleRate now sb Hs.
    unfold detectPitchWithSensitivity.
    destruct (detectPitch window sampleRate true now sb)
      as [[[r|]|] sb'] eqn:E; try reflexivity.
    destruct (detectPitch_Some_inv _ _ _ _ _ _ _ E)
      as (ac & pk & (_ & _ & _ & Hfloor) & _ & _ & _ & Hconf).
    replace (Rltb (confidence r) (thresholds s)) with false; [reflexivity|].
    symmetry. apply Rltb_false. rewrite Hconf.
    apply Rmin_glb; [lra|]. destruct s; cbn [thresholds]; lra.
  - apply sensitivity_rejection_keeps_buffer.
  - apply sensitivity_rejection_keeps_buffer.
  - intros Hmin Hmax Hfloor now sb Hb H1 kept.
    pose proof (longWave_detectPitch Hmin Hmax Hfloor now sb Hb H1) as Hrun.
    fold kept in Hrun.
    split; [exact Hrun|]. split; [|split].
    + unfold detectPitchWithSensitivity. rewrite Hrun.
      cbn [confidence thresholds]. Rtest. reflexivity.
    + unfold filteredPitchData. rewrite Hrun.
      cbn [confidence thresholds]. rewrite Rleb_Rltb. Rtest. reflexivity.
    + subst kept. cbn [buffer clear]. discriminate.
Qed.

End SensitivityDefect.

Lemma sensitivity_filter_skips_clear_witness :
  detectPitchWithSensitivity longWave 400 low 0 smoothingBuffer
  = (Return None, {| buffer := [longWaveFrequency]; maxSize := 5 |})
  /\ filteredPitchData longWave 400 low 0 smoothingBuffer
     = (None, {| buffer := [longWaveFrequency]; maxSize := 5 |}).
Proof.
  assert (Hmin : 200 / 3 < MIN_FREQUENCY <= 80)
    by (cbn [MIN_FREQUENCY demoConstants]; lra).
  assert (Hmax : 400 < MAX_FREQUENCY)
    by (cbn [MAX_FREQUENCY demoConstants]; lra).
  assert (Hfloor : MIN_CONFIDENCE_THRESHOLD <= 11 / 13)
    by (cbn [MIN_CONFIDENCE_THRESHOLD demoConstants]; lra).
  assert (H1 : (1 <= maxSize smoothingBuffer)%Z)
    by (vm_compute; discriminate).
  destruct (proj2 (proj2 (proj2
                            (@sensitivity_filter_skips_clear demoConstants)))
              Hmin Hmax Hfloor 0%Z smoothingBuffer eq_refl H1)
    as (_ & Hd & Hf & _).
  split; [exact Hd|exact Hf].
Defined.

(** ** The round trip through the note table *)

Lemma Z_toString_inj (a b : Z) : Z_toString a = Z_toString b -> a = b.
Proof.
  assert (H : forall z,
             NilZero.int_of_string (Z_toString z) = Some (Z.to_int z)).
  { intro z. unfold Z_toString. apply NilZero.isi.
    - destruct z as [|p|p]; cbn; try discriminate.
      intro E. injection E as E.
      exact (DecimalPos.Unsigned.to_uint_nonnil p E).
    - destruct z as [|p|p]; cbn; try discriminate.
      intro E. injection E as E.
      exact (DecimalPos.Unsigned.to_uint_nonnil p E). }
  intro E. pose proof (H a) as Ha. rewrite E, H in Ha.
  injection Ha as Ha.
  rewrite <- (DecimalZ.of_to a), <- (DecimalZ.of_to b). now rewrite Ha.
Qed.

(** The decimal form of an integer starts with a digit or a minus sign. *)
Lemma Z_toString_head (o : Z) :
  exists c s,
    Z_toString o = String c s /\ c <> "#"%char /\ c <> "b"%char.
Proof.
  unfold Z_toString. destruct o as [|p|p]; cbn.
  - eexists _, _. repeat split; discriminate.
  - destruct (Pos.to_uint p); cbn;
      (eexists _, _; repeat split; discriminate).
  - eexists _, _. repeat split; discriminate.
Qed.

(** Two keys are equal only for the same note of the same octave, whether
    the second is spelled with a sharp or with a flat. *)
Lemma noteKey_inj (i j : nat) (o o' : Z) :
  (i < 12)%nat -> (j < 12)%nat ->
  noteKey i o = noteKey j o' \/ noteKey i o = flatKey j o' ->
  i = j /\ o = o'.
Proof.
  intros Hi Hj. unfold noteKey, flatKey.
  destruct (Z_toString_head o) as (c & s & Ho & Hc & Hb).
  destruct (Z_toString_head o') as (c' & s' & Ho' & Hc' & Hb').
  assert (Hinj : String c s = String c' s' -> o = o')
    by (intro E; apply Z_toString_inj; congruence).
  rewrite Ho, Ho'. clear Ho Ho'.
  do 12 (destruct i as [|i];
         [do 12 (destruct j as [|j];
                 [cbn; intros [H|H]; inversion H; subst;
                  first [congruence
                        |split; [reflexivity|now apply Hinj]]|]);
          lia|]).
  lia.
Qed.

Lemma prop_Some_In_pair (o : list (string * R)) (k : string) (v : R) :
  prop o k = Some v -> In (k, v) o.
Proof.
  induction o as [|[k' w] o IH]; cbn [prop]; [discriminate|].
  destruct (prop o k) eqn:E.
  - intro H. right. now apply IH.
  - destruct (String.eqb k' k) eqn:Ek; [|discriminate].
    apply String.eqb_eq in Ek. intros [= <-]. left. now subst.
Qed.

Lemma prop_of_functional (o : list (string * R)) (k : string) (v : R) :
  (forall w, In (k, w) o -> w = v) -> In (k, v) o -> prop o k = Some v.
Proof.
  intros Hfun Hin. destruct (prop o k) as [w|] eqn:E.
  - apply prop_Some_In_pair in E. now rewrite (Hfun w E).
  - exfalso. apply (in_map fst) in Hin. cbn [fst] in Hin.
    destruct (In_prop_Some o k Hin) as [w Hw]. congruence.
Qed.

Lemma equalTemperedTable_In (lo : Z) (octaves : nat) (k : string) (v : R) :
  In (k, v) (equalTemperedTable lo octaves)
  <-> exists i o,
      (i < 12)%nat /\ (lo <= o < lo + Z.of_nat octaves)%Z
      /\ (k = noteKey i o \/ k = flatKey i o)
      /\ v = toHundredths (equalTempered (noteSemitone i o)).
Proof.
  unfold equalTemperedTable. rewrite in_flat_map. split.
  - intros (o & Ho & Hin). apply in_map_iff in Ho.
    destruct Ho as (m & <- & Hm). apply in_seq in Hm.
    apply in_app_or in Hin.
    destruct Hin as [Hin|Hin]; apply in_map_iff in Hin;
      destruct Hin as (i & Hi & Hseq); apply in_seq in Hseq;
      injection Hi as <- <-;
      exists i, (lo + Z.of_nat m)%Z;
      (split; [lia|]); (split; [lia|]); (split; [|reflexivity]);
      [now left|now right].
  - intros (i & o & Hi & Ho & Hk & ->). exists o. split.
    + apply in_map_iff. exists (Z.to_nat (o - lo)). split; [lia|].
      apply in_seq. lia.
    + apply in_or_app. destruct Hk as [-> | ->]; [left|right];
        apply in_map_iff; exists i; (split; [reflexivity|]);
        apply in_seq; lia.
Qed.

Lemma ln_le_minus_1 (z : R) : 0 < z -> ln z <= z - 1.
Proof.
  intro Hz. pose proof (exp_ineq1_le (ln z)) as H.
  rewrite exp_ln in H by exact Hz. lra.
Qed.

Lemma semitonesFromA4_equalTempered (n : Z) :
  semitonesFromA4 (equalTempered n) = IZR n.
Proof.
  unfold semitonesFromA4, equalTempered, SEMITONES_PER_OCTAVE, A4_FREQUENCY.
  replace (440 * Rpower 2 (IZR n / 12) / 440) with (Rpower 2 (IZR n / 12))
    by (field; lra).
  rewrite log2_Rpower. lra.
Qed.

(** Rounding a frequency of half a hertz or more to the hundredth moves it
    by less than half a semitone. *)
Lemma toHundredths_close (x : R) :
  1 / 2 <= x ->
  0 < toHundredths x
  /\ Rabs (semitonesFromA4 (toHundredths x) - semitonesFromA4 x) <= 1 / 2.
Proof.
  intro Hx. unfold toHundredths.
  pose proof (Math_round_bound (x * 100)) as Hr.
  set (t := IZR (Math_round (x * 100)) / 100).
  assert (Ht : x - 1 / 200 <= t <= x + 1 / 200) by (subst t; lra).
  assert (Htpos : 0 < t) by lra.
  split; [exact Htpos|].
  rewrite !semitonesFromA4_ln by lra.
  pose proof ln_lt_2 as HL2. pose proof ln2_pos as HL.
  assert (Hup : ln t - ln x <= 1 / 100).
  { rewrite <- ln_quotient by lra.
    eapply Rle_trans; [apply ln_le_minus_1; apply Rdiv_lt_0_compat; lra|].
    apply Rmult_le_reg_r with x; [lra|].
    replace ((t / x - 1) * x) with (t - x) by (field; lra). lra. }
  assert (Hdown : ln x - ln t <= 1 / 48).
  { rewrite <- ln_quotient by lra.
    eapply Rle_trans; [apply ln_le_minus_1; apply Rdiv_lt_0_compat; lra|].
    apply Rmult_le_reg_r with t; [lra|].
    replace ((x / t - 1) * t) with (x - t) by (field; lra). lra. }
  replace (12 * ((ln t - ln 440) / ln 2) - 12 * ((ln x - ln 440) / ln 2))
    with ((ln t - ln x) * (12 / ln 2)) by (field; lra).
  assert (Hpos : 0 < 12 / ln 2) by (apply Rdiv_lt_0_compat; lra).
  apply Rabs_le.
  assert (Hk : 1 / 48 * (12 / ln 2) <= 1 / 2).
  { apply Rmult_le_reg_r with (ln 2); [exact HL|].
    replace (1 / 48 * (12 / ln 2) * ln 2) with (1 / 4) by (field; lra).
    lra. }
  split.
  - apply Rle_trans with (- (1 / 48) * (12 / ln 2)); [lra|].
    apply Rmult_le_compat_r; lra.
  - apply Rle_trans with (1 / 48 * (12 / ln 2)); [|lra].
    apply Rmult_le_compat_r; lra.
Qed.

Section RoundTripModel.
Context {K : AudioConstants}.
Variable lo : Z.
Variable octaves : nat.
Hypothesis names_are_chromatic : NOTE_NAMES = chromatic.
Hypothesis table_is_equal_tempered :
  forall k v,
    In (k, v) NOTE_FREQUENCIES <-> In (k, v) (equalTemperedTable lo octaves).

(** The table has one frequency under the key of each of its notes. *)
Lemma table_lookup (i : nat) (o : Z) :
  (i < 12)%nat -> (lo <= o < lo + Z.of_nat octaves)%Z ->
  noteToFrequency (noteKey i o)
  = Some (toHundredths (equalTempered (noteSemitone i o))).
Proof.
  intros Hi Ho. unfold noteToFrequency. apply prop_of_functional.
  - intros w Hw. apply table_is_equal_tempered in Hw.
    apply equalTemperedTable_In in Hw.
    destruct Hw as (j & o' & Hj & _ & Hk & ->).
    destruct (noteKey_inj i j o o' Hi Hj Hk) as [-> ->]. reflexivity.
  - apply table_is_equal_tempered, equalTemperedTable_In. exists i, o.
    repeat split; first [assumption|lia|now left].
Qed.

Lemma frequencyToNote_octave (f : R) :
  octave (frequencyToNote f) = (4 + (9 + nearestSemitone f) / 12)%Z.
Proof.
  unfold frequencyToNote. fold (nearestSemitone f).
  now rewrite noteOfSemitone_mod.
Qed.

(** The equal-tempered pitch nearest to a frequency of one hertz or more
    is at least half a hertz. *)
Lemma nearest_pitch_lower (f : R) :
  1 <= f -> 1 / 2 <= equalTempered (nearestSemitone f).
Proof.
  intro Hf. pose proof (Math_round_bound (semitonesFromA4 f)) as Hr.
  fold (nearestSemitone f) in Hr. set (n := nearestSemitone f) in *.
  rewrite semitonesFromA4_ln in Hr by lra.
  pose proof ln2_pos as HL.
  assert (H0 : 0 <= ln f).
  { rewrite <- ln_1. apply ln_le; lra. }
  assert (Hn : - ln 2 <= ln 440 + IZR n / 12 * ln 2).
  { assert (ln f - ln 440 < IZR n / 12 * ln 2 + ln 2 / 24).
    { apply Rmult_lt_reg_r with (12 / ln 2);
        [apply Rdiv_lt_0_compat; lra|].
      replace ((IZR n / 12 * ln 2 + ln 2 / 24) * (12 / ln 2))
        with (IZR n + 1 / 2) by (field; lra).
      replace ((ln f - ln 440) * (12 / ln 2))
        with (12 * ((ln f - ln 440) / ln 2)) by (field; lra).
      lra. }
    lra. }
  unfold equalTempered, A4_FREQUENCY, Rpower.
  replace (1 / 2) with (exp (- ln 2))
    by (rewrite exp_Ropp, exp_ln by lra; lra).
  replace (440 * exp (IZR n / 12 * ln 2))
    with (exp (ln 440 + IZR n / 12 * ln 2))
    by (rewrite exp_plus, exp_ln by lra; reflexivity).
  now apply exp_le.
Qed.


End RoundTripModel.

